(** * FlashSentry: whitelist store, integrity hasher and orchestration

    A shallow embedding of the parts of FlashSentry that its design
    document makes promises about, and of the code around them:

    - [Types.h]: [DeviceInfo], [DeviceRecord], [HashResult],
      [VerificationStatus] and their JSON mappings;
    - [DatabaseManager.cpp]: the whitelist store, its CRUD operations,
      [verifyHash], [save]/[reload], [createBackup], import and restore;
    - [HashWorker.cpp]: job bookkeeping, digest selection and the two
      hashing paths;
    - [DeviceMonitor.cpp]: the table of connected devices, the udev events
      and the scan;
    - [MainWindow.cpp]: the handlers that sequence them.

    Qt and the operating system are not part of the repository.  They are
    modelled by small executable definitions whose doc comments say what is
    assumed about them; every outcome the C++ code tests (a failed [open],
    a short [write], a refused [rename], ...) is an explicit input. *)

From Stdlib Require Import ZArith String Ascii List Lia Bool.
From stdpp Require Import gmap strings list fin_maps sorting pretty.

Local Open Scope string_scope.
Local Open Scope list_scope.
Local Open Scope Z_scope.

(* ===================================================================== *)
(** * QString *)
(* ===================================================================== *)

Module QString.

Definition isEmpty (s : string) : bool :=
  match s with EmptyString => true | String _ _ => false end.

(** Case folding as [Qt::CaseInsensitive] applies it to the Latin letters
    [A]..[Z]; other code units are compared as they are. *)
Definition foldCase (c : ascii) : ascii :=
  let n := nat_of_ascii c in
  if ((65 <=? n)%nat && (n <=? 90)%nat)%bool then ascii_of_nat (n + 32) else c.

Fixpoint toLower (s : string) : string :=
  match s with
  | EmptyString => EmptyString
  | String c s' => String (foldCase c) (toLower s')
  end.

(** [QString::compare(other, Qt::CaseInsensitive)]: negative, zero or
    positive as [a] sorts before, with or after [b]. *)
Fixpoint compare_ci (a b : string) : Z :=
  match a, b with
  | EmptyString, EmptyString => 0
  | EmptyString, String _ _ => -1
  | String _ _, EmptyString => 1
  | String x a', String y b' =>
      let d := Z.of_nat (nat_of_ascii (foldCase x))
               - Z.of_nat (nat_of_ascii (foldCase y)) in
      if d =? 0 then compare_ci a' b' else d
  end.

(** [QString::startsWith]. *)
Fixpoint startsWith (p s : string) : bool :=
  match p, s with
  | EmptyString, _ => true
  | String _ _, EmptyString => false
  | String a p', String b s' => Ascii.eqb a b && startsWith p' s'
  end.

Fixpoint contains_char (c : ascii) (s : string) : bool :=
  match s with
  | EmptyString => false
  | String x s' => Ascii.eqb x c || contains_char c s'
  end.

(** [QString::contains(needle)]. *)
Fixpoint contains (needle s : string) : bool :=
  startsWith needle s ||
  match s with
  | EmptyString => false
  | String _ s' => contains needle s'
  end.

End QString.

(* ===================================================================== *)
(** * QDateTime *)
(* ===================================================================== *)

Module QDateTime.

(** The broken-down local time of a valid [QDateTime]. *)
Record fields := mk {
  year : Z; month : Z; day : Z;
  hour : Z; minute : Z; second : Z; msec : Z
}.

(** A [QDateTime]; [None] is the default-constructed, invalid value. *)
Definition t := option fields.

Definition isValid (d : t) : bool :=
  match d with Some _ => true | None => false end.

Definition between (lo x hi : Z) : bool := (lo <=? x) && (x <=? hi).

(** Calendar ranges of a valid value (month lengths are not modelled). *)
Definition in_range (f : fields) : bool :=
  between 0 (year f) 9999 && between 1 (month f) 12 && between 1 (day f) 31
  && between 0 (hour f) 23 && between 0 (minute f) 59
  && between 0 (second f) 59 && between 0 (msec f) 999.

Definition wf (d : t) : Prop :=
  match d with Some f => in_range f = true | None => True end.

Definition digitChar (d : Z) : ascii :=
  match d with
  | 0 => "0" | 1 => "1" | 2 => "2" | 3 => "3" | 4 => "4"
  | 5 => "5" | 6 => "6" | 7 => "7" | 8 => "8" | _ => "9"
  end%char.

Definition digitValue (c : ascii) : option Z :=
  let n := Z.of_nat (nat_of_ascii c) in
  if between 48 n 57 then Some (n - 48) else None.

Definition pad2 (n : Z) (rest : string) : string :=
  String (digitChar (n / 10 mod 10)) (String (digitChar (n mod 10)) rest).

Definition pad4 (n : Z) (rest : string) : string :=
  String (digitChar (n / 1000 mod 10))
    (String (digitChar (n / 100 mod 10)) (pad2 n rest)).

(** [toString("yyyyMMdd_hhmmss")], the stamp of a backup's file name. *)
Definition toString_backupStamp (f : fields) : string :=
  pad4 (year f) (pad2 (month f) (pad2 (day f)
    (String "_" (pad2 (hour f) (pad2 (minute f) (pad2 (second f) "")))))).

(** [toString(Qt::ISODate)]: [yyyy-MM-ddTHH:mm:ss]; milliseconds are not
    written, an invalid value or a year outside 0..9999 gives the empty
    string. *)
Definition toString_ISODate (d : t) : string :=
  match d with
  | None => ""
  | Some f =>
      if between 0 (year f) 9999 then
        pad4 (year f) (String "-" (pad2 (month f) (String "-" (pad2 (day f)
          (String "T" (pad2 (hour f) (String ":" (pad2 (minute f)
            (String ":" (pad2 (second f) ""))))))))))
      else ""
  end.

Definition num2 (a b : ascii) : option Z :=
  match digitValue a, digitValue b with
  | Some x, Some y => Some (10 * x + y)
  | _, _ => None
  end.

Definition num4 (a b c d : ascii) : option Z :=
  match num2 a b, num2 c d with
  | Some x, Some y => Some (100 * x + y)
  | _, _ => None
  end.

(** [QDateTime::fromString(s, Qt::ISODate)] on the form the writer above
    produces; every other text is taken as unparsable and gives the
    invalid value. *)
Definition fromString_ISODate (s : string) : t :=
  match list_ascii_of_string s with
  | [y1; y2; y3; y4; s1; m1; m2; s2; d1; d2; s3; h1; h2; s4; n1; n2; s5; c1; c2] =>
      if (Ascii.eqb s1 "-" && Ascii.eqb s2 "-" && Ascii.eqb s3 "T"
          && Ascii.eqb s4 ":" && Ascii.eqb s5 ":")%bool then
        match num4 y1 y2 y3 y4, num2 m1 m2, num2 d1 d2,
              num2 h1 h2, num2 n1 n2, num2 c1 c2 with
        | Some y, Some mo, Some d, Some h, Some mi, Some se =>
            let f := mk y mo d h mi se 0 in
            if in_range f then Some f else None
        | _, _, _, _, _, _ => None
        end
      else None
  | _ => None
  end.

(** What survives a trip through the ISO text: the milliseconds are
    dropped. *)
Definition truncated (d : t) : t :=
  match d with
  | Some f => Some (mk (year f) (month f) (day f) (hour f) (minute f) (second f) 0)
  | None => None
  end.

(** A count of seconds, and of milliseconds, that orders well-formed
    values by time; the latter stands for the modification time the file
    system stamps on a file. *)
Definition toSecs (f : fields) : Z :=
  ((((year f * 13 + month f) * 32 + day f) * 24
      + hour f) * 60 + minute f) * 60 + second f.

Definition toMSecs (f : fields) : Z := toSecs f * 1000 + msec f.

End QDateTime.

(* ===================================================================== *)
(** * QJsonValue, QJsonObject, QJsonDocument *)
(* ===================================================================== *)

Module QJson.

(** JSON values.  Numbers are the 64-bit integers the code stores;
    fractional numbers do not occur in the files the store writes and are
    not modelled. *)
Unset Elimination Schemes.
Inductive value :=
| Undefined
| Null
| Bool (b : bool)
| Integer (n : Z)
| Str (s : string)
| Array (items : list value)
| Object (members : list (string * value)).
Set Elimination Schemes.

Definition object := list (string * value).

(** [obj[key]] as an rvalue: [Undefined] for a missing key. *)
Fixpoint get (key : string) (o : object) : value :=
  match o with
  | [] => Undefined
  | (k, v) :: o' => if String.eqb k key then v else get key o'
  end.

(** [obj[key] = v]. *)
Fixpoint set (key : string) (v : value) (o : object) : object :=
  match o with
  | [] => [(key, v)]
  | (k, x) :: o' =>
      if String.eqb k key then (key, v) :: o' else (k, x) :: set key v o'
  end.

Definition toString (v : value) (defaultValue : string) : string :=
  match v with Str s => s | _ => defaultValue end.

Definition toBool (v : value) : bool :=
  match v with Bool b => b | _ => false end.

Definition toInteger (v : value) : Z :=
  match v with Integer n => n | _ => 0 end.

(** [toInt()]: the default, 0, when the number does not fit an [int]. *)
Definition toInt (v : value) : Z :=
  match v with
  | Integer n => if (- 2 ^ 31 <=? n) && (n <? 2 ^ 31) then n else 0
  | _ => 0
  end.

Definition toObject (v : value) : object :=
  match v with Object o => o | _ => [] end.

Definition toArray (v : value) : list value :=
  match v with Array l => l | _ => [] end.

End QJson.

(** The contents of a file: either the text [QJsonDocument::toJson] wrote
    for a document, or other bytes.  [QJsonDocument::fromJson] gives the
    document back for the former and reports a parse error for the latter,
    so the two constructors cover both outcomes [loadFromFile] tests. *)
Inductive QByteArray :=
| Raw (bytes : string)
| JsonText (doc : QJson.value).

Module QJsonDocument.

Definition toJson (root : QJson.object) : QByteArray :=
  JsonText (QJson.Object root).

(** [fromJson(data, &error)]: the document, or the error string. *)
Definition fromJson (data : QByteArray) : string + QJson.value :=
  match data with
  | JsonText doc => inr doc
  | Raw _ => inl "illegal value"
  end.

Definition object (doc : QJson.value) : QJson.object := QJson.toObject doc.

End QJsonDocument.

Definition QByteArray_isEmpty (data : QByteArray) : bool :=
  match data with Raw s => QString.isEmpty s | JsonText _ => false end.

(** [static_cast<qint64>] of a [uint64_t] and back: two's complement. *)
Definition to_qint64 (u : Z) : Z := if u <? 2 ^ 63 then u else u - 2 ^ 64.
Definition to_uint64 (i : Z) : Z := i mod 2 ^ 64.

(* ===================================================================== *)
(** * Types.h *)
(* ===================================================================== *)

Module DeviceInfo.

Record t := mk {
  deviceNode : string;
  parentDevice : string;
  serial : string;
  vendor : string;
  model : string;
  label : string;
  fsType : string;
  mountPoint : string;
  sizeBytes : Z;
  isRemovable : bool;
  isMounted : bool
}.

(** The default member initialisers of the struct. *)
Definition default : t := mk "" "" "" "" "" "" "" "" 0 true false.

(** The last component of [deviceNode.split('/')]. *)
Fixpoint lastSegment (acc s : string) : string :=
  match s with
  | EmptyString => acc
  | String c s' =>
      if Ascii.eqb c "/" then lastSegment "" s'
      else lastSegment (acc +:+ String c "") s'
  end.

Definition displayName (d : t) : string :=
  if negb (QString.isEmpty (label d)) then label d
  else if negb (QString.isEmpty (model d)) then model d
  else lastSegment "" (deviceNode d).

Definition uniqueId (d : t) : string :=
  if QString.isEmpty (serial d)
  then vendor d +:+ "_" +:+ model d
  else serial d +:+ "_" +:+ vendor d +:+ "_" +:+ model d.

Definition toJson (d : t) : QJson.object :=
  let obj := [] in
  let obj := QJson.set "device_node" (QJson.Str (deviceNode d)) obj in
  let obj := QJson.set "serial" (QJson.Str (serial d)) obj in
  let obj := QJson.set "vendor" (QJson.Str (vendor d)) obj in
  let obj := QJson.set "model" (QJson.Str (model d)) obj in
  let obj := QJson.set "label" (QJson.Str (label d)) obj in
  let obj := QJson.set "fs_type" (QJson.Str (fsType d)) obj in
  let obj := QJson.set "size_bytes" (QJson.Integer (to_qint64 (sizeBytes d))) obj in
  obj.

Definition fromJson (obj : QJson.object) : t :=
  mk (QJson.toString (QJson.get "device_node" obj) "")
     (parentDevice default)
     (QJson.toString (QJson.get "serial" obj) "")
     (QJson.toString (QJson.get "vendor" obj) "")
     (QJson.toString (QJson.get "model" obj) "")
     (QJson.toString (QJson.get "label" obj) "")
     (QJson.toString (QJson.get "fs_type" obj) "")
     (mountPoint default)
     (to_uint64 (QJson.toInteger (QJson.get "size_bytes" obj)))
     (isRemovable default)
     (isMounted default).

End DeviceInfo.

Module DeviceRecord.

Record t := mk {
  uniqueId : string;
  hash : string;
  hashAlgorithm : string;
  firstSeen : QDateTime.t;
  lastSeen : QDateTime.t;
  lastHashed : QDateTime.t;
  hashDurationMs : Z;
  trustLevel : Z;
  autoMount : bool;
  notes : string;
  lastKnownInfo : DeviceInfo.t
}.

Definition default : t :=
  mk "" "" "SHA256" None None None 0 0 false "" DeviceInfo.default.

Definition toJson (r : t) : QJson.object :=
  let obj := [] in
  let obj := QJson.set "unique_id" (QJson.Str (uniqueId r)) obj in
  let obj := QJson.set "hash" (QJson.Str (hash r)) obj in
  let obj := QJson.set "hash_algorithm" (QJson.Str (hashAlgorithm r)) obj in
  let obj := QJson.set "first_seen"
               (QJson.Str (QDateTime.toString_ISODate (firstSeen r))) obj in
  let obj := QJson.set "last_seen"
               (QJson.Str (QDateTime.toString_ISODate (lastSeen r))) obj in
  let obj := QJson.set "last_hashed"
               (QJson.Str (QDateTime.toString_ISODate (lastHashed r))) obj in
  let obj := QJson.set "hash_duration_ms"
               (QJson.Integer (to_qint64 (hashDurationMs r))) obj in
  let obj := QJson.set "trust_level" (QJson.Integer (trustLevel r)) obj in
  let obj := QJson.set "auto_mount" (QJson.Bool (autoMount r)) obj in
  let obj := QJson.set "notes" (QJson.Str (notes r)) obj in
  let obj := QJson.set "device_info"
               (QJson.Object (DeviceInfo.toJson (lastKnownInfo r))) obj in
  obj.

Definition fromJson (obj : QJson.object) : t :=
  mk (QJson.toString (QJson.get "unique_id" obj) "")
     (QJson.toString (QJson.get "hash" obj) "")
     (QJson.toString (QJson.get "hash_algorithm" obj) "SHA256")
     (QDateTime.fromString_ISODate (QJson.toString (QJson.get "first_seen" obj) ""))
     (QDateTime.fromString_ISODate (QJson.toString (QJson.get "last_seen" obj) ""))
     (QDateTime.fromString_ISODate (QJson.toString (QJson.get "last_hashed" obj) ""))
     (to_uint64 (QJson.toInteger (QJson.get "hash_duration_ms" obj)))
     (QJson.toInt (QJson.get "trust_level" obj))
     (QJson.toBool (QJson.get "auto_mount" obj))
     (QJson.toString (QJson.get "notes" obj) "")
     (DeviceInfo.fromJson (QJson.toObject (QJson.get "device_info" obj))).

(** Field assignments used by the store. *)
Definition with_hash (h alg : string) (dur : Z) (at_ : QDateTime.t) (r : t) : t :=
  mk (uniqueId r) h alg (firstSeen r) (lastSeen r) at_ dur
     (trustLevel r) (autoMount r) (notes r) (lastKnownInfo r).

Definition with_trustLevel (level : Z) (r : t) : t :=
  mk (uniqueId r) (hash r) (hashAlgorithm r) (firstSeen r) (lastSeen r)
     (lastHashed r) (hashDurationMs r) level (autoMount r) (notes r)
     (lastKnownInfo r).

Definition with_autoMount (b : bool) (r : t) : t :=
  mk (uniqueId r) (hash r) (hashAlgorithm r) (firstSeen r) (lastSeen r)
     (lastHashed r) (hashDurationMs r) (trustLevel r) b (notes r)
     (lastKnownInfo r).

Definition with_lastSeen (at_ : QDateTime.t) (r : t) : t :=
  mk (uniqueId r) (hash r) (hashAlgorithm r) (firstSeen r) at_
     (lastHashed r) (hashDurationMs r) (trustLevel r) (autoMount r) (notes r)
     (lastKnownInfo r).

End DeviceRecord.

Module HashResult.

Record t := mk {
  deviceNode : string;
  hash : string;
  algorithm : string;
  bytesProcessed : Z;
  durationMs : Z;
  success : bool;
  errorMessage : string
}.

Definition default : t := mk "" "" "" 0 0 false "".

End HashResult.

Inductive VerificationStatus :=
| Unknown | Pending | Hashing | Verified | Modified | NewDevice | Error.

Inductive LogLevel := LDebug | LInfo | LWarning | LError | LSecurity.

Module AppSettings.

(** The members of [AppSettings] the core consults. *)
Record t := mk {
  autoHashOnConnect : bool;
  autoHashOnEject : bool;
  requireConfirmationForNew : bool;
  requireConfirmationForModified : bool;
  blockModifiedDevices : bool;
  defaultTrustLevel : Z;
  hashAlgorithm : string;
  hashBufferSizeKB : Z;
  useMemoryMapping : bool;
  maxConcurrentHashes : Z
}.

Definition default : t :=
  mk true true true true false 0 "SHA256" 1024 true 1.

End AppSettings.

(* ===================================================================== *)
(** * Files: QFileInfo, QFile, QDir *)
(* ===================================================================== *)

Module QFileInfo.

(** The text after the last [c]; [None] when [c] does not occur. *)
Fixpoint afterLast (c : ascii) (s : string) : option string :=
  match s with
  | EmptyString => None
  | String x s' =>
      match afterLast c s' with
      | Some r => Some r
      | None => if Ascii.eqb x c then Some s' else None
      end
  end.

(** The text before the last [c]; [None] when [c] does not occur. *)
Fixpoint beforeLast (c : ascii) (s : string) : option string :=
  match s with
  | EmptyString => None
  | String x s' =>
      match beforeLast c s' with
      | Some r => Some (String x r)
      | None => if Ascii.eqb x c then Some EmptyString else None
      end
  end.

(** The text before the first [c]; all of [s] when [c] does not occur. *)
Fixpoint beforeFirst (c : ascii) (s : string) : string :=
  match s with
  | EmptyString => EmptyString
  | String x s' => if Ascii.eqb x c then EmptyString else String x (beforeFirst c s')
  end.

(** Paths are absolute, with [/] as the separator. *)
Definition fileName (path : string) : string :=
  match afterLast "/" path with Some n => n | None => path end.

Definition absolutePath (path : string) : string :=
  match beforeLast "/" path with Some d => d | None => EmptyString end.

(** The file name up to its first dot. *)
Definition baseName (path : string) : string :=
  beforeFirst "." (fileName path).

(** The file name after its last dot. *)
Definition suffix (path : string) : string :=
  match afterLast "." (fileName path) with Some s => s | None => EmptyString end.

End QFileInfo.

(** The name filters of [QDir] are wildcard patterns, read as
    [QRegularExpression::fromWildcard] reads them and matched against the
    whole name without regard to case ([QDir::CaseSensitive] is not set).
    [?] stands for any one character, [*] for any text and [[...]] for one
    character of the set; a set may hold ranges such as [a-c], is negated
    by a leading [!] or [^], and a closing bracket that comes first in it
    stands for itself.  Every other character stands for itself.  A
    pattern with an unclosed bracket or with a range whose ends are out of
    order is not a valid expression and matches no name.  The named
    classes of regular expressions ([[:alpha:]] and the like) are not
    modelled, and letters are the Latin letters [A]..[Z]. *)
Module QDir.

Inductive token :=
| Lit (c : ascii)
| AnyChar
| AnyText
| OneOf (negated : bool) (set : list ascii).

(** Where the reading of a pattern stands: outside a set, just after the
    opening bracket, just after the negation, or within the set. *)
Inductive state :=
| Outside
| Opened
| Negated
| Inside (negated : bool) (set : list ascii).

Definition inRange (a b c : ascii) : bool :=
  (nat_of_ascii a <=? nat_of_ascii c)%nat && (nat_of_ascii c <=? nat_of_ascii b)%nat.

(** The ranges of a set are in order. *)
Fixpoint setOk (set : list ascii) : bool :=
  match set with
  | [] => true
  | a :: rest =>
      match rest with
      | d :: b :: rest' =>
          if Ascii.eqb d "-"
          then (nat_of_ascii a <=? nat_of_ascii b)%nat && setOk rest'
          else setOk rest
      | _ => true
      end
  end.

Fixpoint inSet (set : list ascii) (c : ascii) : bool :=
  match set with
  | [] => false
  | a :: rest =>
      match rest with
      | d :: b :: rest' =>
          if Ascii.eqb d "-"
          then inRange a b c || inSet rest' c
          else Ascii.eqb a c || inSet rest c
      | _ => Ascii.eqb a c || inSet rest c
      end
  end.

Fixpoint scan (st : state) (pattern : string) : option (list token) :=
  match pattern with
  | EmptyString => match st with Outside => Some [] | _ => None end
  | String c rest =>
      match st with
      | Outside =>
          if Ascii.eqb c "*" then cons AnyText <$> scan Outside rest
          else if Ascii.eqb c "?" then cons AnyChar <$> scan Outside rest
          else if Ascii.eqb c "[" then scan Opened rest
          else cons (Lit c) <$> scan Outside rest
      | Opened =>
          if Ascii.eqb c "!" || Ascii.eqb c "^" then scan Negated rest
          else scan (Inside false [c]) rest
      | Negated => scan (Inside true [c]) rest
      | Inside negated set =>
          if Ascii.eqb c "]" then
            if setOk set then cons (OneOf negated set) <$> scan Outside rest
            else None
          else scan (Inside negated (set ++ [c])) rest
      end
  end.

(** The other case of a Latin letter. *)
Definition swapCase (c : ascii) : ascii :=
  let n := nat_of_ascii c in
  if ((65 <=? n)%nat && (n <=? 90)%nat)%bool then ascii_of_nat (n + 32)
  else if ((97 <=? n)%nat && (n <=? 122)%nat)%bool then ascii_of_nat (n - 32)
  else c.

Definition tokenMatches (t : token) (c : ascii) : bool :=
  match t with
  | Lit a => Ascii.eqb (QString.foldCase a) (QString.foldCase c)
  | AnyChar => true
  | AnyText => false
  | OneOf negated set => xorb negated (inSet set c || inSet set (swapCase c))
  end.

Fixpoint matchTokens (p : list token) : string -> bool :=
  match p with
  | [] => QString.isEmpty
  | AnyText :: p' =>
      fix anyText (s : string) : bool :=
        matchTokens p' s
        || match s with
           | EmptyString => false
           | String _ s' => anyText s'
           end
  | t :: p' =>
      fun s =>
        match s with
        | EmptyString => false
        | String c s' => tokenMatches t c && matchTokens p' s'
        end
  end.

Definition matches (nameFilter name : string) : bool :=
  match scan Outside nameFilter with
  | Some p => matchTokens p name
  | None => false
  end.

End QDir.

Module FileSystem.

Record file := mkFile {
  data : QByteArray;
  lastModified : Z;
  ownerOnly : bool       (* permissions are exactly ReadOwner | WriteOwner *)
}.

(** The files of the machine, by absolute path. *)
Abbreviation t := (gmap string file).

Definition exists_ (path : string) (fs : t) : bool :=
  match fs !! path with Some _ => true | None => false end.

(** [QFile::copy]: refuses to overwrite; the copy is stamped with the
    current time.  [ok] is what the operating system answers. *)
Definition copy (ok : bool) (src dst : string) (now : Z) (fs : t) : option t :=
  match fs !! src, fs !! dst with
  | Some f, None =>
      if ok then Some (<[dst := mkFile (data f) now (ownerOnly f)]> fs) else None
  | _, _ => None
  end.

(** [s] without its prefix [p]. *)
Fixpoint stripPrefix (p s : string) : option string :=
  match p, s with
  | EmptyString, _ => Some s
  | String _ _, EmptyString => None
  | String a p', String b s' => if Ascii.eqb a b then stripPrefix p' s' else None
  end.

(** The name [path] has as an entry of directory [dir]: [path] is
    [dir/name] and [name] has no further separator. *)
Definition entryName (dir path : string) : option string :=
  match stripPrefix (dir +:+ "/") path with
  | Some name => if QString.contains_char "/" name then None else Some name
  | None => None
  end.

(** What [QDir::Files] lists of a directory under a name filter: the
    entries whose name matches it; hidden files, whose name starts with a
    dot, are left out since [QDir::Hidden] is not set. *)
Definition listed (dir nameFilter : string) (e : string * file) : bool :=
  match entryName dir e.1 with
  | Some name =>
      negb (QString.startsWith "." name) && QDir.matches nameFilter name
  | None => false
  end.

(** The order of [QDir::Time]: newest first, equal times by file name. *)
Definition newerFirstb (a b : string * file) : bool :=
  (lastModified b.2 <? lastModified a.2)
  || ((lastModified a.2 =? lastModified b.2)
      && String.leb (QFileInfo.fileName a.1) (QFileInfo.fileName b.1)).

Definition newerFirst (a b : string * file) : Prop := newerFirstb a b = true.

#[export] Instance newerFirst_dec a b : Decision (newerFirst a b) :=
  bool_eq_dec (newerFirstb a b) true.

(** [QDir(dir).entryInfoList({nameFilter}, QDir::Files, QDir::Time)]. *)
Definition entryInfoList (dir nameFilter : string) (fs : t)
  : list (string * file) :=
  merge_sort newerFirst
    (filter (fun e => listed dir nameFilter e = true) (map_to_list fs)).

End FileSystem.

(** What the operating system answers to the calls whose result the store
    tests. *)
Module Io.
Record t := mk {
  mkpathOk : bool;       (* the database directory exists or can be made *)
  tempOpenOk : bool;     (* the temporary file opens for writing *)
  writeComplete : bool;  (* write() reports data.size() bytes *)
  removeOk : bool;       (* QFile::remove succeeds *)
  renameOk : bool;       (* the rename system call succeeds *)
  copyOk : bool          (* QFile::copy can write the copy *)
}.
Definition allOk : t := mk true true true true true true.
End Io.

(* ===================================================================== *)
(** * DatabaseManager.cpp *)
(* ===================================================================== *)

(** The store is a value of type [t]; an operation takes the store (and
    the files, the clock and the operating system's answers where it uses
    them) and returns its result, the store afterwards and the signals it
    emits in order.  The read/write lock is not modelled: operations are
    taken as atomic.  Calls to [qWarning], [qInfo] and [qDebug] are left
    out. *)
Module DatabaseManager.

Definition MAX_BACKUP_COUNT : nat := 5.
Definition DB_VERSION : string := "1.0".

Inductive Signal :=
| databaseLoaded (deviceCount : Z)
| databaseSaved
| databaseError (message : string)
| deviceAdded (uniqueId : string)
| deviceUpdated (uniqueId : string)
| deviceRemoved (uniqueId : string)
| hashMismatch (uniqueId expected actual : string)
| queuedSave.  (* QMetaObject::invokeMethod(save, Qt::QueuedConnection) *)

Record t := mk {
  m_databasePath : string;
  m_devices : gmap string DeviceRecord.t;
  m_initialized : bool;
  m_modified : bool;
  m_autoSave : bool;
  m_lastSaved : QDateTime.t;
  m_lastBackup : QDateTime.t
}.

(** A freshly constructed store. *)
Definition new : t := mk "" ∅ false false true None None.

Definition set_devices (m : gmap string DeviceRecord.t) (db : t) : t :=
  mk (m_databasePath db) m (m_initialized db) (m_modified db)
     (m_autoSave db) (m_lastSaved db) (m_lastBackup db).

Definition set_modified (b : bool) (db : t) : t :=
  mk (m_databasePath db) (m_devices db) (m_initialized db) b
     (m_autoSave db) (m_lastSaved db) (m_lastBackup db).

Definition set_lastSaved (d : QDateTime.t) (db : t) : t :=
  mk (m_databasePath db) (m_devices db) (m_initialized db) (m_modified db)
     (m_autoSave db) d (m_lastBackup db).

Definition set_lastBackup (d : QDateTime.t) (db : t) : t :=
  mk (m_databasePath db) (m_devices db) (m_initialized db) (m_modified db)
     (m_autoSave db) (m_lastSaved db) d.

Definition setAutoSave (enabled : bool) (db : t) : t :=
  mk (m_databasePath db) (m_devices db) (m_initialized db) (m_modified db)
     enabled (m_lastSaved db) (m_lastBackup db).

Definition markModified (db : t) : t * list Signal :=
  (set_modified true db, if m_autoSave db then [queuedSave] else []).

Definition hasDevice (uniqueId : string) (db : t) : bool :=
  match m_devices db !! uniqueId with Some _ => true | None => false end.

Definition getDevice (uniqueId : string) (db : t) : option DeviceRecord.t :=
  m_devices db !! uniqueId.

Definition getAllDevices (db : t) : list DeviceRecord.t :=
  (map_to_list (m_devices db)).*2.

Definition deviceCount (db : t) : Z := Z.of_nat (size (m_devices db)).

Definition addDevice (record : DeviceRecord.t) (db : t) : bool * t * list Signal :=
  if hasDevice (DeviceRecord.uniqueId record) db then (false, db, [])
  else
    let db1 := set_devices (<[DeviceRecord.uniqueId record := record]> (m_devices db)) db in
    let '(db2, q) := markModified db1 in
    (true, db2, q ++ [deviceAdded (DeviceRecord.uniqueId record)]).

Definition updateDevice (record : DeviceRecord.t) (db : t) : bool * t * list Signal :=
  if negb (hasDevice (DeviceRecord.uniqueId record) db) then (false, db, [])
  else
    let db1 := set_devices (<[DeviceRecord.uniqueId record := record]> (m_devices db)) db in
    let '(db2, q) := markModified db1 in
    (true, db2, q ++ [deviceUpdated (DeviceRecord.uniqueId record)]).

Definition upsertDevice (record : DeviceRecord.t) (db : t) : t * list Signal :=
  let isNew := negb (hasDevice (DeviceRecord.uniqueId record) db) in
  let db1 := set_devices (<[DeviceRecord.uniqueId record := record]> (m_devices db)) db in
  let '(db2, q) := markModified db1 in
  (db2, q ++ [if isNew then deviceAdded (DeviceRecord.uniqueId record)
              else deviceUpdated (DeviceRecord.uniqueId record)]).

Definition removeDevice (uniqueId : string) (db : t) : bool * t * list Signal :=
  if negb (hasDevice uniqueId db) then (false, db, [])
  else
    let db1 := set_devices (delete uniqueId (m_devices db)) db in
    let '(db2, q) := markModified db1 in
    (true, db2, q ++ [deviceRemoved uniqueId]).

(** The loop of [removeDevices]: the table and the ids actually removed. *)
Fixpoint removeEach (ids : list string) (m : gmap string DeviceRecord.t)
  : gmap string DeviceRecord.t * list string :=
  match ids with
  | [] => (m, [])
  | id :: ids' =>
      match m !! id with
      | Some _ => let '(m', r) := removeEach ids' (delete id m) in (m', id :: r)
      | None => removeEach ids' m
      end
  end.

Definition removeDevices (uniqueIds : list string) (db : t) : Z * t * list Signal :=
  let '(m, actuallyRemoved) := removeEach uniqueIds (m_devices db) in
  let db1 := set_devices m db in
  let '(db2, q) :=
    if 0 <? Z.of_nat (length actuallyRemoved) then markModified db1 else (db1, []) in
  (Z.of_nat (length actuallyRemoved), db2, q ++ map deviceRemoved actuallyRemoved).

Definition clearAllDevices (db : t) : t * list Signal :=
  let ids := (map_to_list (m_devices db)).*1 in
  let '(db2, q) := markModified (set_devices ∅ db) in
  (db2, q ++ map deviceRemoved ids).

Definition updateHash (uniqueId hash algorithm : string) (durationMs : Z)
    (now : QDateTime.fields) (db : t) : bool * t * list Signal :=
  match m_devices db !! uniqueId with
  | None => (false, db, [])
  | Some r =>
      let r' := DeviceRecord.with_hash hash algorithm durationMs (Some now) r in
      let '(db2, q) := markModified (set_devices (<[uniqueId := r']> (m_devices db)) db) in
      (true, db2, q ++ [deviceUpdated uniqueId])
  end.

Definition getHash (uniqueId : string) (db : t) : option string :=
  match m_devices db !! uniqueId with
  | Some r => if negb (QString.isEmpty (DeviceRecord.hash r))
              then Some (DeviceRecord.hash r) else None
  | None => None
  end.

Definition verifyHash (uniqueId hash : string) (db : t) : bool * list Signal :=
  match m_devices db !! uniqueId with
  | None => (false, [])
  | Some r =>
      let matches := QString.compare_ci (DeviceRecord.hash r) hash =? 0 in
      (matches,
       if negb matches && negb (QString.isEmpty (DeviceRecord.hash r))
       then [hashMismatch uniqueId (DeviceRecord.hash r) hash] else [])
  end.

Definition setTrustLevel (uniqueId : string) (level : Z) (db : t)
  : bool * t * list Signal :=
  match m_devices db !! uniqueId with
  | None => (false, db, [])
  | Some r =>
      let r' := DeviceRecord.with_trustLevel level r in
      let '(db2, q) := markModified (set_devices (<[uniqueId := r']> (m_devices db)) db) in
      (true, db2, q ++ [deviceUpdated uniqueId])
  end.

Definition setAutoMount (uniqueId : string) (autoMount : bool) (db : t)
  : bool * t * list Signal :=
  match m_devices db !! uniqueId with
  | None => (false, db, [])
  | Some r =>
      let r' := DeviceRecord.with_autoMount autoMount r in
      let '(db2, q) := markModified (set_devices (<[uniqueId := r']> (m_devices db)) db) in
      (true, db2, q ++ [deviceUpdated uniqueId])
  end.

Definition updateLastSeen (uniqueId : string) (now : QDateTime.fields) (db : t)
  : bool * t * list Signal :=
  match m_devices db !! uniqueId with
  | None => (false, db, [])
  | Some r =>
      let r' := DeviceRecord.with_lastSeen (Some now) r in
      let '(db2, q) := markModified (set_devices (<[uniqueId := r']> (m_devices db)) db) in
      (true, db2, q)
  end.

(* ------------------------------------------------------------------- *)
(** ** Persistence *)

Definition set_databasePath (p : string) (db : t) : t :=
  mk p (m_devices db) (m_initialized db) (m_modified db)
     (m_autoSave db) (m_lastSaved db) (m_lastBackup db).

Definition set_initialized (b : bool) (db : t) : t :=
  mk (m_databasePath db) (m_devices db) b (m_modified db)
     (m_autoSave db) (m_lastSaved db) (m_lastBackup db).

Definition defaultDatabasePath (configDir : string) : string :=
  configDir +:+ "/flashsentry/devices.json".

(** The body of the loop over the [devices] array in [loadFromFile]. *)
Definition loadItem (m : gmap string DeviceRecord.t) (item : QJson.value)
  : gmap string DeviceRecord.t :=
  let record := DeviceRecord.fromJson (QJson.toObject item) in
  if negb (QString.isEmpty (DeviceRecord.uniqueId record))
  then <[DeviceRecord.uniqueId record := record]> m
  else m.

Definition loadFromFile (fs : FileSystem.t) (db : t) : bool * t :=
  match fs !! m_databasePath db with
  | None => (false, db)
  | Some file =>
      let data := FileSystem.data file in
      if QByteArray_isEmpty data then (true, db)
      else
        match QJsonDocument.fromJson data with
        | inl _ => (false, db)
        | inr doc =>
            let root := QJsonDocument.object doc in
            let devicesArray := QJson.toArray (QJson.get "devices" root) in
            (true, set_devices (foldl loadItem (m_devices db) devicesArray) db)
        end
  end.

(** The document [writeToFile] serialises. *)
Definition document (now : QDateTime.fields) (db : t) : QJson.object :=
  let root := [] in
  let root := QJson.set "version" (QJson.Str DB_VERSION) root in
  let root := QJson.set "last_modified"
                (QJson.Str (QDateTime.toString_ISODate (Some now))) root in
  let root := QJson.set "device_count" (QJson.Integer (deviceCount db)) root in
  let devicesArray :=
    map (fun record => QJson.Object (DeviceRecord.toJson record))
        (map_to_list (m_devices db)).*2 in
  QJson.set "devices" (QJson.Array devicesArray) root.

Definition writeToFile (io : Io.t) (now : QDateTime.fields)
    (fs : FileSystem.t) (db : t) : bool * FileSystem.t * list Signal :=
  let data := QJsonDocument.toJson (document now db) in
  let stamp := QDateTime.toMSecs now in
  let tempPath := m_databasePath db +:+ ".tmp" in
  if negb (Io.tempOpenOk io) then
    (false, fs, [databaseError "Failed to write database"])
  else if negb (Io.writeComplete io) then
    (* the truncated temporary file is removed again *)
    (false, delete tempPath fs, [databaseError "Failed to write complete database"])
  else
    let temp := FileSystem.mkFile data stamp false in
    let fs1 := <[tempPath := temp]> fs in
    let fs2 :=
      if FileSystem.exists_ (m_databasePath db) fs1 then
        if Io.removeOk io then delete (m_databasePath db) fs1 else fs1
      else fs1 in
    (* QFile::rename does not overwrite an existing destination *)
    if Io.renameOk io && negb (FileSystem.exists_ (m_databasePath db) fs2) then
      let fs3 := delete tempPath fs2 in
      let fs4 := <[m_databasePath db := FileSystem.mkFile data stamp true]> fs3 in
      (true, fs4, [])
    else
      (false, fs2, [databaseError "Failed to finalize database write"]).

Definition save (io : Io.t) (now : QDateTime.fields) (fs : FileSystem.t) (db : t)
  : bool * t * FileSystem.t * list Signal :=
  if negb (m_initialized db) then
    (false, db, fs, [databaseError "Database not initialized"])
  else
    let '(ok, fs', sigs) := writeToFile io now fs db in
    if ok then
      (true, set_lastSaved (Some now) (set_modified false db), fs',
       sigs ++ [databaseSaved])
    else (false, db, fs', sigs).

Definition reload (fs : FileSystem.t) (db : t) : bool * t * list Signal :=
  if negb (m_initialized db) then (false, db, [])
  else
    let '(ok, db1) := loadFromFile fs (set_devices ∅ db) in
    if ok then
      let db2 := set_modified false db1 in
      (true, db2, [databaseLoaded (deviceCount db2)])
    else (false, db1, []).

Definition initialize (path configDir : string) (io : Io.t)
    (fs : FileSystem.t) (db : t) : bool * t * list Signal :=
  let db1 := set_databasePath
               (if QString.isEmpty path then defaultDatabasePath configDir else path)
               db in
  if negb (Io.mkpathOk io) then
    (false, db1, [databaseError "Failed to create database directory"])
  else
    let '(db2, sigs) :=
      if FileSystem.exists_ (m_databasePath db1) fs then
        let '(ok, dbl) := loadFromFile fs db1 in
        if ok then (dbl, [])
        else (set_devices ∅ dbl,
              [databaseError "Failed to load database, creating new one"])
      else (db1, []) in
    let db3 := set_modified false (set_initialized true db2) in
    (true, db3, sigs ++ [databaseLoaded (deviceCount db3)]).

(** The destination [createBackup] derives when no path is given. *)
Definition backupPathFor (databasePath : string) (now : QDateTime.fields) : string :=
  QFileInfo.absolutePath databasePath +:+ "/" +:+ QFileInfo.baseName databasePath
  +:+ "_backup_" +:+ QDateTime.toString_backupStamp now
  +:+ "." +:+ QFileInfo.suffix databasePath.

(** [backups.takeLast()]. *)
Definition takeLast {A} (l : list A) : option (list A * A) :=
  match rev l with
  | [] => None
  | x :: r => Some (rev r, x)
  end.

(** [while (backups.size() > MAX_BACKUP_COUNT) QFile::remove(backups.takeLast())];
    the paths [QFile::remove] is called on, in that order, and the files
    left.  The result of [QFile::remove] is not looked at: when the
    removal is refused ([removeOk] is [false]) the file stays and the loop
    goes on.  [fuel] bounds the number of iterations. *)
Fixpoint removeOldBackups (removeOk : bool) (fuel : nat)
    (backups : list (string * FileSystem.file))
    (fs : FileSystem.t) : list string * FileSystem.t :=
  match fuel with
  | O => ([], fs)
  | S fuel' =>
      if (MAX_BACKUP_COUNT <? length backups)%nat then
        match takeLast backups with
        | Some (rest, last) =>
            let fs1 := if removeOk then delete last.1 fs else fs in
            let '(removed, fs') := removeOldBackups removeOk fuel' rest fs1 in
            (last.1 :: removed, fs')
        | None => ([], fs)
        end
      else ([], fs)
  end.

(** [filters << QFileInfo(m_databasePath).baseName() + "_backup_*"]. *)
Definition backupFilter (databasePath : string) : string :=
  QFileInfo.baseName databasePath +:+ "_backup_*".

(** The backups [createBackup] sees next to [destPath]. *)
Definition backupsIn (destPath : string) (fs : FileSystem.t) (db : t)
  : list (string * FileSystem.file) :=
  FileSystem.entryInfoList (QFileInfo.absolutePath destPath)
    (backupFilter (m_databasePath db)) fs.

Definition createBackup (backupPath : string) (io : Io.t) (now : QDateTime.fields)
    (fs : FileSystem.t) (db : t) : string * t * FileSystem.t :=
  if negb (m_initialized db) then ("", db, fs)
  else
    let destPath :=
      if QString.isEmpty backupPath then backupPathFor (m_databasePath db) now
      else backupPath in
    if FileSystem.exists_ (m_databasePath db) fs then
      match FileSystem.copy (Io.copyOk io) (m_databasePath db) destPath
              (QDateTime.toMSecs now) fs with
      | Some fs1 =>
          let db1 := set_lastBackup (Some now) db in
          let backups := backupsIn destPath fs1 db in
          let '(_, fs2) :=
            removeOldBackups (Io.removeOk io) (length backups) backups fs1 in
          (destPath, db1, fs2)
      | None => ("", db, fs)
      end
    else ("", db, fs).

(** The loop of [restoreFromBackup]: every record is inserted under its
    own id. *)
Definition restoreItem (m : gmap string DeviceRecord.t) (item : QJson.value)
  : gmap string DeviceRecord.t :=
  let record := DeviceRecord.fromJson (QJson.toObject item) in
  <[DeviceRecord.uniqueId record := record]> m.

Definition restoreFromBackup (backupPath : string) (io : Io.t)
    (now : QDateTime.fields) (fs : FileSystem.t) (db : t)
  : bool * t * FileSystem.t * list Signal :=
  if negb (FileSystem.exists_ backupPath fs) then
    (false, db, fs, [databaseError ("Backup file not found: " +:+ backupPath)])
  else
    let '(_, db1, fs1) := createBackup "" io now fs db in
    match fs1 !! backupPath with
    | None => (false, db1, fs1, [databaseError "Failed to open backup file"])
    | Some file =>
        match QJsonDocument.fromJson (FileSystem.data file) with
        | inl err =>
            (false, db1, fs1, [databaseError ("Invalid backup file: " +:+ err)])
        | inr doc =>
            let root := QJsonDocument.object doc in
            let devicesArray := QJson.toArray (QJson.get "devices" root) in
            let db2 := set_modified true
                         (set_devices (foldl restoreItem ∅ devicesArray) db1) in
            let '(ok, fs2, sigs) := writeToFile io now fs1 db2 in
            if negb ok then
              (false, db2, fs2,
               sigs ++ [databaseError "Failed to save restored database"])
            else
              let db3 := set_modified false db2 in
              (true, db3, fs2, sigs ++ [databaseLoaded (deviceCount db3)])
        end
    end.

(** The loop of [importFromFile]: the table and the number imported. *)
Definition importItem (merge : bool) (acc : gmap string DeviceRecord.t * Z)
    (item : QJson.value) : gmap string DeviceRecord.t * Z :=
  let '(m, imported) := acc in
  let record := DeviceRecord.fromJson (QJson.toObject item) in
  match m !! DeviceRecord.uniqueId record with
  | None => (<[DeviceRecord.uniqueId record := record]> m, imported + 1)
  | Some _ =>
      if negb merge
      then (<[DeviceRecord.uniqueId record := record]> m, imported + 1)
      else (m, imported)
  end.

Definition importFromFile (path : string) (merge : bool)
    (fs : FileSystem.t) (db : t) : Z * t * list Signal :=
  match fs !! path with
  | None => (-1, db, [databaseError ("Failed to open import file: " +:+ path)])
  | Some file =>
      match QJsonDocument.fromJson (FileSystem.data file) with
      | inl err => (-1, db, [databaseError ("Invalid import file: " +:+ err)])
      | inr doc =>
          let root := QJsonDocument.object doc in
          let devicesArray := QJson.toArray (QJson.get "devices" root) in
          let start := if negb merge then ∅ else m_devices db in
          let '(m, imported) := foldl (importItem merge) (start, 0) devicesArray in
          let db1 := set_devices m db in
          let '(db2, q) := if 0 <? imported then markModified db1 else (db1, []) in
          (imported, db2, q)
      end
  end.

(* ------------------------------------------------------------------- *)
(** ** Queries, export and maintenance *)

Definition hasUnsavedChanges (db : t) : bool := m_modified db.

(** [getDevicesWhere]: the loop appends every record the filter accepts. *)
Definition getDevicesWhere (filter : DeviceRecord.t -> bool) (db : t)
  : list DeviceRecord.t :=
  foldl (fun result record => if filter record then result ++ [record] else result)
        [] (map_to_list (m_devices db)).*2.

(** What happens to the file [exportToFile] opens with
    [WriteOnly | Truncate]. *)
Inductive WriteOutcome :=
| OpenFails
| ShortWrite (partial : QByteArray)   (* write() reports fewer bytes *)
| WriteCompletes.

(** The document [exportToFile] serialises. *)
Definition exportDocument (now : QDateTime.fields) (db : t) : QJson.object :=
  let root := [] in
  let root := QJson.set "version" (QJson.Str DB_VERSION) root in
  let root := QJson.set "exported"
                (QJson.Str (QDateTime.toString_ISODate (Some now))) root in
  let root := QJson.set "device_count" (QJson.Integer (deviceCount db)) root in
  let devicesArray :=
    map (fun record => QJson.Object (DeviceRecord.toJson record))
        (map_to_list (m_devices db)).*2 in
  QJson.set "devices" (QJson.Array devicesArray) root.

(** [exportToFile]; the indented and the compact layout hold the same
    document.  An existing file keeps its permissions. *)
Definition exportToFile (path : string) (prettyPrint : bool) (os : WriteOutcome)
    (now : QDateTime.fields) (fs : FileSystem.t) (db : t) : bool * FileSystem.t :=
  let data := QJsonDocument.toJson (exportDocument now db) in
  let perms :=
    match fs !! path with Some f => FileSystem.ownerOnly f | None => false end in
  match os with
  | OpenFails => (false, fs)
  | ShortWrite partial =>
      (false, <[path := FileSystem.mkFile partial (QDateTime.toMSecs now) perms]> fs)
  | WriteCompletes =>
      (true, <[path := FileSystem.mkFile data (QDateTime.toMSecs now) perms]> fs)
  end.

Module Stats.
Record t := mk {
  totalDevices : Z;
  trustedDevices : Z;
  autoMountDevices : Z;
  lastModified : QDateTime.t;
  lastBackup : QDateTime.t;
  fileSizeBytes : Z
}.
End Stats.

(** The body of the loop of [getStats]. *)
Definition countRecord (stats : Stats.t) (record : DeviceRecord.t) : Stats.t :=
  let stats :=
    if 0 <? DeviceRecord.trustLevel record
    then Stats.mk (Stats.totalDevices stats) (Stats.trustedDevices stats + 1)
           (Stats.autoMountDevices stats) (Stats.lastModified stats)
           (Stats.lastBackup stats) (Stats.fileSizeBytes stats)
    else stats in
  if DeviceRecord.autoMount record
  then Stats.mk (Stats.totalDevices stats) (Stats.trustedDevices stats)
         (Stats.autoMountDevices stats + 1) (Stats.lastModified stats)
         (Stats.lastBackup stats) (Stats.fileSizeBytes stats)
  else stats.

(** [getStats]; [fileSize] is what [QFileInfo::size] reports for the
    database file. *)
Definition getStats (fileSize : Z) (fs : FileSystem.t) (db : t) : Stats.t :=
  let stats := Stats.mk (deviceCount db) 0 0 (m_lastSaved db) (m_lastBackup db) 0 in
  let stats := foldl countRecord stats (map_to_list (m_devices db)).*2 in
  if FileSystem.exists_ (m_databasePath db) fs
  then Stats.mk (Stats.totalDevices stats) (Stats.trustedDevices stats)
         (Stats.autoMountDevices stats) (Stats.lastModified stats)
         (Stats.lastBackup stats) fileSize
  else stats.

(** The issues [validateIntegrity] reports for one record. *)
Definition recordIssues (record : DeviceRecord.t) : list string :=
  (if QString.isEmpty (DeviceRecord.uniqueId record)
   then ["Found device with empty unique ID"] else [])
  ++ (if QString.isEmpty (DeviceRecord.hash record)
         && (0 <? DeviceRecord.trustLevel record)
      then ["Trusted device " +:+ DeviceRecord.uniqueId record +:+ " has no hash"]
      else [])
  ++ (if negb (QDateTime.isValid (DeviceRecord.firstSeen record))
      then ["Device " +:+ DeviceRecord.uniqueId record
            +:+ " has invalid first_seen date"]
      else []).

Definition validateIntegrity (db : t) : list string :=
  flat_map recordIssues (map_to_list (m_devices db)).*2.

(** [compact]: the keys of the records whose id is empty are collected and
    then removed. *)
Definition compact (db : t) : t * list Signal :=
  let toRemove :=
    (filter (fun kr => QString.isEmpty (DeviceRecord.uniqueId kr.2) = true)
            (map_to_list (m_devices db))).*1 in
  let db1 := set_devices (foldl (fun m id => delete id m) (m_devices db) toRemove) db in
  if negb (bool_decide (toRemove = [])) then markModified db1 else (db1, []).

End DatabaseManager.

(* ===================================================================== *)
(** * HashWorker.cpp *)
(* ===================================================================== *)

Module HashWorker.

Inductive Algorithm := SHA256 | SHA512 | BLAKE2b | XXH3_128.

Record HashJob := mkJob {
  deviceNode : string;
  algorithm : Algorithm;
  bufferSizeKB : Z;
  useMemoryMapping : bool;
  rawDevice : bool
}.

Definition algorithmName (algo : Algorithm) : string :=
  match algo with
  | SHA256 => "SHA256"
  | SHA512 => "SHA512"
  | BLAKE2b => "BLAKE2b"
  | XXH3_128 => "XXH3-128"
  end.

Definition algorithmFromName (name : string) : Algorithm :=
  if QString.compare_ci name "SHA256" =? 0 then SHA256
  else if QString.compare_ci name "SHA512" =? 0 then SHA512
  else if QString.compare_ci name "BLAKE2b" =? 0 then BLAKE2b
  else if QString.compare_ci name "XXH3-128" =? 0 then XXH3_128
  else SHA256.

(** The signals of the worker ([hashProgress], which carries
    floating-point values, is left out). *)
Inductive Signal :=
| hashStarted (jobId deviceNode : string)
| hashCompleted (jobId : string) (result : HashResult.t)
| hashFailed (jobId error : string)
| hashCancelled (jobId : string).

Record JobState := mkState {
  jobId : string;
  config : HashJob;
  cancelled : bool;
  bytesProcessed : Z;
  totalBytes : Z
}.

Definition set_cancelled (b : bool) (s : JobState) : JobState :=
  mkState (jobId s) (config s) b (bytesProcessed s) (totalBytes s).

(** The global [QThreadPool] that [QtConcurrent::run] hands a job to: the
    job runs at once while a thread is free and waits in the queue
    otherwise.  [maxThreadCount] is the pool's own limit (by default the
    number of processor cores). *)
Record ThreadPool := mkPool {
  maxThreadCount : nat;
  running : list string;
  waiting : list string
}.

Definition poolRun (job : string) (p : ThreadPool) : ThreadPool :=
  if (length (running p) <? maxThreadCount p)%nat
  then mkPool (maxThreadCount p) (running p ++ [job]) (waiting p)
  else mkPool (maxThreadCount p) (running p) (waiting p ++ [job]).

(** A running job returns; the thread takes the next waiting job. *)
Definition poolReturn (job : string) (p : ThreadPool) : ThreadPool :=
  let still := filter (fun j => j <> job) (running p) in
  match waiting p with
  | next :: rest =>
      if (length still <? maxThreadCount p)%nat
      then mkPool (maxThreadCount p) (still ++ [next]) rest
      else mkPool (maxThreadCount p) still (waiting p)
  | [] => mkPool (maxThreadCount p) still []
  end.

Record t := mk {
  m_jobs : gmap string JobState;
  m_jobCounter : Z;
  m_progressTimerActive : bool;
  m_maxConcurrent : Z;
  globalPool : ThreadPool
}.

(** A freshly constructed worker on a machine whose pool has [threads]
    threads. *)
Definition new (threads : nat) : t := mk ∅ 0 false 2 (mkPool threads [] []).

Definition generateJobId (nowMs : Z) (w : t) : string * t :=
  ("hash_" +:+ pretty nowMs +:+ "_" +:+ pretty (m_jobCounter w),
   mk (m_jobs w) (m_jobCounter w + 1) (m_progressTimerActive w)
      (m_maxConcurrent w) (globalPool w)).

(** [startHash]; [nowMs] is the clock and [deviceSize] what
    [getDeviceSize] reports. *)
Definition startHash (job : HashJob) (nowMs deviceSize : Z) (w : t)
  : string * t * list Signal :=
  let '(id, w1) := generateJobId nowMs w in
  let state := mkState id job false 0 deviceSize in
  let pool := poolRun id (globalPool w1) in
  (id,
   mk (<[id := state]> (m_jobs w1)) (m_jobCounter w1) true
      (m_maxConcurrent w1) pool,
   [hashStarted id (deviceNode job)]).

Definition cancelHash (id : string) (w : t) : bool * t :=
  match m_jobs w !! id with
  | None => (false, w)
  | Some s =>
      (true, mk (<[id := set_cancelled true s]> (m_jobs w)) (m_jobCounter w)
                (m_progressTimerActive w) (m_maxConcurrent w) (globalPool w))
  end.

Definition cancelAll (w : t) : t :=
  mk (set_cancelled true <$> m_jobs w) (m_jobCounter w)
     (m_progressTimerActive w) (m_maxConcurrent w) (globalPool w).

Definition isRunning (id : string) (w : t) : bool :=
  match m_jobs w !! id with Some _ => true | None => false end.

Definition activeJobCount (w : t) : Z := Z.of_nat (size (m_jobs w)).

Definition hasActiveJobs (w : t) : bool := negb (activeJobCount w =? 0).

Definition setMaxConcurrent (max : Z) (w : t) : t :=
  mk (m_jobs w) (m_jobCounter w) (m_progressTimerActive w) (Z.max 1 max)
     (globalPool w).

(** What [state->future.result()] gives once the watcher reports the
    future finished. *)
Inductive FutureOutcome :=
| Returned (result : HashResult.t)
| Threw (what : string).

Definition onJobFinished (id : string) (outcome : FutureOutcome) (w : t)
  : t * list Signal :=
  match m_jobs w !! id with
  | None => (w, [])
  | Some state =>
      let jobs := delete id (m_jobs w) in
      let timer :=
        if Z.of_nat (size jobs) =? 0 then false else m_progressTimerActive w in
      let w' := mk jobs (m_jobCounter w) timer (m_maxConcurrent w) (globalPool w) in
      if cancelled state then (w', [hashCancelled id])
      else
        match outcome with
        | Returned result =>
            if HashResult.success result
            then (w', [hashCompleted id result])
            else (w', [hashFailed id (HashResult.errorMessage result)])
        | Threw what => (w', [hashFailed id ("Exception: " +:+ what)])
        end
  end.

(* ------------------------------------------------------------------- *)
(** ** The hashing paths *)

Inductive EVP_MD := EVP_sha256 | EVP_sha512 | EVP_blake2b512.

Inductive ReadOutcome :=
| ReadBytes (bytes : string)   (* read() > 0; no bytes: read() = 0 *)
| ReadFails (error : string).  (* read() < 0, with strerror(errno) *)

(** What the operating system and OpenSSL answer during one job, and
    what the worker thread sees of the cancellation flag, which another
    thread may set at any time. *)
Record Os := mkOs {
  openDirectOk : bool;               (* open(O_RDONLY | O_DIRECT) *)
  openOk : bool;                     (* open(O_RDONLY) *)
  openError : string;                (* strerror(errno) *)
  sizeOfDevice : Z;                  (* getDeviceSize *)
  ctxNewOk : bool;                   (* EVP_MD_CTX_new *)
  digestInitOk : bool;               (* EVP_DigestInit_ex *)
  memalignOk : bool;                 (* posix_memalign *)
  reads : list ReadOutcome;          (* successive read() calls; then 0 *)
  mapChunk : Z -> Z -> option string;(* mmap at an offset: bytes or MAP_FAILED *)
  mapError : string;
  cancelledAt : nat -> bool;         (* the flag at the loop's n-th check *)
  elapsedMs : Z
}.

Definition with_algorithm (a : string) (r : HashResult.t) : HashResult.t :=
  HashResult.mk (HashResult.deviceNode r) (HashResult.hash r) a
    (HashResult.bytesProcessed r) (HashResult.durationMs r)
    (HashResult.success r) (HashResult.errorMessage r).

Definition failed (error : string) (r : HashResult.t) : HashResult.t :=
  HashResult.mk (HashResult.deviceNode r) (HashResult.hash r)
    (HashResult.algorithm r) (HashResult.bytesProcessed r)
    (HashResult.durationMs r) false error.

Definition succeeded (hash : string) (bytes duration : Z) (r : HashResult.t)
  : HashResult.t :=
  HashResult.mk (HashResult.deviceNode r) hash (HashResult.algorithm r)
    bytes duration true (HashResult.errorMessage r).

(** The [switch] on the algorithm, the same in both paths: the digest to
    use, and the result with its [algorithm] member corrected when the
    requested algorithm is replaced. *)
Definition selectDigest (algo : Algorithm) (result : HashResult.t)
  : EVP_MD * HashResult.t :=
  match algo with
  | SHA256 => (EVP_sha256, result)
  | SHA512 => (EVP_sha512, result)
  | BLAKE2b => (EVP_blake2b512, result)
  | XXH3_128 => (EVP_sha256, with_algorithm "SHA256" result)
  end.

Definition hexDigit (n : Z) : ascii :=
  match n with
  | 10 => "a" | 11 => "b" | 12 => "c" | 13 => "d" | 14 => "e" | 15 => "f"
  | _ => QDateTime.digitChar n
  end%char.

(** [QString("%1").arg(byte, 2, 16, QChar('0'))] for every byte. *)
Fixpoint toHex (digest : string) : string :=
  match digest with
  | EmptyString => EmptyString
  | String c rest =>
      let n := Z.of_nat (nat_of_ascii c) in
      String (hexDigit (n / 16)) (String (hexDigit (n mod 16)) (toHex rest))
  end.

Inductive LoopEnd :=
| Finished (data : string) (total : Z)
| Interrupted (total : Z)
| Broken (error : string) (total : Z)
| Unfinished.   (* the bound on iterations was too small *)

(** [while ((bytesRead = read(fd, buffer, bufferSize)) > 0)]. *)
Fixpoint readLoop (os : Os) (rs : list ReadOutcome) (n : nat)
    (data : string) (totalRead : Z) : LoopEnd :=
  match rs with
  | [] => Finished data totalRead
  | ReadFails error :: _ => Broken error totalRead
  | ReadBytes bytes :: rest =>
      if QString.isEmpty bytes then Finished data totalRead
      else if cancelledAt os n then Interrupted totalRead
      else readLoop os rest (S n) (data +:+ bytes)
             (totalRead + Z.of_nat (String.length bytes))
  end.

Definition chunkSize : Z := 256 * 1024 * 1024.

(** [while (offset < deviceSize)], at most [fuel] iterations. *)
Fixpoint mmapLoop (fuel : nat) (os : Os) (deviceSize : Z) (n : nat)
    (data : string) (offset : Z) : LoopEnd :=
  if offset <? deviceSize then
    match fuel with
    | O => Unfinished
    | S fuel' =>
        if cancelledAt os n then Interrupted offset
        else
          let mapSize := Z.min chunkSize (deviceSize - offset) in
          match mapChunk os offset mapSize with
          | None => Broken ("mmap failed: " +:+ mapError os) offset
          | Some bytes =>
              mmapLoop fuel' os deviceSize (S n) (data +:+ bytes) (offset + mapSize)
          end
    end
  else Finished data offset.

(** Iterations that suffice for a device of the given size. *)
Definition chunkCount (deviceSize : Z) : nat := Z.to_nat (deviceSize / chunkSize + 1).

Section Hashing.

(** The digest OpenSSL computes over the bytes fed to a context. *)
Variable EVP_Digest : EVP_MD -> string -> string.

(** The two paths return the [HashResult].  The progress counters they
    store into the job state on the way are read by progress reports
    only and are left out. *)

Definition hashWithRead (os : Os) (state : JobState) : HashResult.t :=
  let result :=
    HashResult.mk (deviceNode (config state)) "" (algorithmName (algorithm (config state)))
      0 0 false "" in
  if negb (openDirectOk os) && negb (openOk os) then
    failed ("Failed to open device: " +:+ openError os) result
  else if negb (ctxNewOk os) then
    failed "Failed to create hash context" result
  else
    let '(md, result) := selectDigest (algorithm (config state)) result in
    if negb (digestInitOk os) then
      failed "Failed to initialize hash algorithm" result
    else if negb (memalignOk os) then
      failed "Failed to allocate buffer" result
    else
      match readLoop os (reads os) 0 "" 0 with
      | Interrupted _ => failed "Cancelled" result
      | Broken error _ => failed ("Read error: " +:+ error) result
      | Finished data totalRead =>
          succeeded (toHex (EVP_Digest md data)) totalRead (elapsedMs os) result
      | Unfinished => result
      end.

Definition hashWithMmap (os : Os) (state : JobState) : HashResult.t :=
  let result :=
    HashResult.mk (deviceNode (config state)) "" (algorithmName (algorithm (config state)))
      0 0 false "" in
  if negb (openOk os) then
    failed ("mmap: Failed to open device: " +:+ openError os) result
  else
    let deviceSize :=
      if totalBytes state =? 0 then sizeOfDevice os else totalBytes state in
    if deviceSize =? 0 then
      failed "mmap: Device size is 0" result
    else if negb (ctxNewOk os) then
      failed "Failed to create hash context" result
    else
      let '(md, result) := selectDigest (algorithm (config state)) result in
      if negb (digestInitOk os) then
        failed "Failed to initialize hash algorithm" result
      else
        match mmapLoop (chunkCount deviceSize) os deviceSize 0 "" 0 with
        | Interrupted _ => failed "Cancelled" result
        | Broken error _ => failed error result
        | Finished data offset =>
            succeeded (toHex (EVP_Digest md data)) offset (elapsedMs os) result
        | Unfinished => result
        end.

Definition executeHash (os : Os) (state : JobState) : HashResult.t :=
  if useMemoryMapping (config state) then
    let result := hashWithMmap os state in
    if negb (HashResult.success result)
       && QString.contains "mmap" (HashResult.errorMessage result)
    then hashWithRead os state
    else result
  else hashWithRead os state.

End Hashing.

End HashWorker.

(* ===================================================================== *)
(** * DeviceMonitor.cpp *)
(* ===================================================================== *)

(** The string operations of Qt the monitor uses. *)
Module QText.

(** [QChar::isSpace] on the characters of the ASCII range. *)
Definition isSpace (c : ascii) : bool :=
  let n := nat_of_ascii c in
  ((9 <=? n)%nat && (n <=? 13)%nat) || (n =? 32)%nat.

Fixpoint trimmedLeft (s : string) : string :=
  match s with
  | EmptyString => EmptyString
  | String c s' => if isSpace c then trimmedLeft s' else s
  end.

Fixpoint trimmedRight (s : string) : string :=
  match s with
  | EmptyString => EmptyString
  | String c s' =>
      let r := trimmedRight s' in
      if isSpace c && QString.isEmpty r then EmptyString else String c r
  end.

(** [QString::trimmed]. *)
Definition trimmed (s : string) : string := trimmedRight (trimmedLeft s).

(** [split(sep)]: the fields between the separators, empty ones
    included. *)
Fixpoint split (sep : ascii) (s : string) : list string :=
  match s with
  | EmptyString => [EmptyString]
  | String c s' =>
      if Ascii.eqb c sep then EmptyString :: split sep s'
      else match split sep s' with
           | field :: fields => String c field :: fields
           | [] => [String c EmptyString]
           end
  end.

(** [QString::replace(before, after)] for a non-empty [before]: every
    occurrence, from the left, without overlap.  [skip] counts the
    characters of an occurrence still to be passed over. *)
Fixpoint replaceFrom (before after : string) (skip : nat) (s : string) : string :=
  match s with
  | EmptyString => EmptyString
  | String c s' =>
      match skip with
      | S k => replaceFrom before after k s'
      | O =>
          if QString.startsWith before s
          then after +:+ replaceFrom before after (String.length before - 1) s'
          else String c (replaceFrom before after 0 s')
      end
  end.

Definition replace (before after s : string) : string :=
  replaceFrom before after 0 s.

End QText.

(** The table of connected devices is the state; a scan or an event takes
    the table and what udev and [/proc/mounts] answer and returns the
    table afterwards with the signals emitted, in order.  The thread, its
    wake-up pipe and the poll loop are not modelled. *)
Module DeviceMonitor.

(** What libudev answers about one device; an absent text is empty. *)
Record UdevDevice := mkDevice {
  action : string;                              (* udev_device_get_action *)
  devnode : string;                             (* udev_device_get_devnode *)
  devtype : string;                             (* udev_device_get_devtype *)
  properties : list (string * string);          (* udev_device_get_property_value *)
  sysattrs : list (string * string);            (* udev_device_get_sysattr_value *)
  diskParent : option string;                   (* node of the parent disk *)
  usbParent : option (list (string * string))   (* attributes of the USB parent *)
}.

Inductive Signal :=
| deviceConnected (device : DeviceInfo.t)
| deviceDisconnected (deviceNode : string)
| deviceChanged (device : DeviceInfo.t).

Fixpoint value (key : string) (l : list (string * string)) : option string :=
  match l with
  | [] => None
  | (k, v) :: l' => if String.eqb k key then Some v else value key l'
  end.

Definition getProperty (dev : UdevDevice) (key : string) : string :=
  match value key (properties dev) with Some v => v | None => "" end.

Definition getSysAttr (attrs : list (string * string)) (key : string) : string :=
  match value key attrs with Some v => QText.trimmed v | None => "" end.

Definition getUsbParent (dev : UdevDevice) : option (list (string * string)) :=
  usbParent dev.

Definition isUsbStoragePartition (dev : UdevDevice) : bool :=
  if negb (String.eqb (devtype dev) "partition") then false
  else if negb (String.eqb (getProperty dev "ID_BUS") "usb") then false
  else
    match getUsbParent dev with
    | None => false
    | Some usb =>
        let usbDriver := getSysAttr usb "bDeviceClass" in
        let driver := getProperty dev "ID_USB_DRIVER" in
        String.eqb driver "usb-storage" || String.eqb driver "uas"
        || String.eqb usbDriver "00" || String.eqb usbDriver "08"
        || QString.isEmpty usbDriver
    end.

(** The line of [/proc/mounts] for a device node: the first that starts
    with the node and a blank. *)
Definition mountLine (deviceNode : string) (data : string) : option string :=
  head (filter (fun line => QString.startsWith (deviceNode +:+ " ") line = true)
               (QText.split "010" data)).

Section Udev.

(** [QString::toULongLong], taken as Qt gives it. *)
Variable toULongLong : string -> Z.

(** [extractDeviceInfo]; [mounts] is the content of [/proc/mounts],
    [None] when it cannot be opened. *)
Definition extractDeviceInfo (mounts : option string) (dev : UdevDevice)
  : DeviceInfo.t :=
  let info := DeviceInfo.default in
  let deviceNode := devnode dev in
  let parentDevice :=
    match diskParent dev with
    | Some node => node
    | None => DeviceInfo.parentDevice info
    end in
  let orElse (attribute property : string) :=
    if QString.isEmpty attribute then property else attribute in
  let '(vendor, model, serial) :=
    match getUsbParent dev with
    | Some usb =>
        (orElse (getSysAttr usb "manufacturer") (getProperty dev "ID_VENDOR"),
         orElse (getSysAttr usb "product") (getProperty dev "ID_MODEL"),
         orElse (getSysAttr usb "serial") (getProperty dev "ID_SERIAL_SHORT"))
    | None => (DeviceInfo.vendor info, DeviceInfo.model info, DeviceInfo.serial info)
    end in
  let sizeStr := getSysAttr (sysattrs dev) "size" in
  let sizeBytes :=
    if negb (QString.isEmpty sizeStr)
    then (toULongLong sizeStr * 512) mod 2 ^ 64
    else DeviceInfo.sizeBytes info in
  let '(isMounted, mountPoint) :=
    match mounts with
    | Some data =>
        match mountLine deviceNode data with
        | Some line =>
            (true,
             match QText.split " " line with
             | _ :: point :: _ =>
                 QText.replace "\011" (String "009" "")
                   (QText.replace "\040" " " point)
             | _ => DeviceInfo.mountPoint info
             end)
        | None => (DeviceInfo.isMounted info, DeviceInfo.mountPoint info)
        end
    | None => (DeviceInfo.isMounted info, DeviceInfo.mountPoint info)
    end in
  DeviceInfo.mk deviceNode parentDevice serial vendor model
    (getProperty dev "ID_FS_LABEL") (getProperty dev "ID_FS_TYPE")
    mountPoint sizeBytes (String.eqb (getProperty dev "ID_BUS") "usb") isMounted.

(** [processUdevEvent] for a device udev handed over; the caller passes
    none on. *)
Definition processUdevEvent (mounts : option string) (dev : UdevDevice)
    (m_devices : gmap string DeviceInfo.t)
  : gmap string DeviceInfo.t * list Signal :=
  let devNode := devnode dev in
  if QString.isEmpty devNode then (m_devices, [])
  else if negb (isUsbStoragePartition dev) then (m_devices, [])
  else if String.eqb (action dev) "add" then
    let info := extractDeviceInfo mounts dev in
    (<[DeviceInfo.deviceNode info := info]> m_devices, [deviceConnected info])
  else if String.eqb (action dev) "remove" then
    (delete devNode m_devices, [deviceDisconnected devNode])
  else if String.eqb (action dev) "change" then
    let info := extractDeviceInfo mounts dev in
    (<[DeviceInfo.deviceNode info := info]> m_devices, [deviceChanged info])
  else (m_devices, []).

(** The body of the first loop of [scanExistingDevices]: the table, the
    nodes seen so far and the signals emitted so far.  An entry of the
    enumeration that udev can no longer open is [None]. *)
Definition scanEntry (mounts : option string)
    (st : gmap string DeviceInfo.t * gset string * list Signal)
    (entry : option UdevDevice)
  : gmap string DeviceInfo.t * gset string * list Signal :=
  let '(m_devices, currentNodes, sigs) := st in
  match entry with
  | Some dev =>
      if isUsbStoragePartition dev then
        let info := extractDeviceInfo mounts dev in
        let currentNodes := {[ DeviceInfo.deviceNode info ]} ∪ currentNodes in
        match m_devices !! DeviceInfo.deviceNode info with
        | None =>
            (<[DeviceInfo.deviceNode info := info]> m_devices, currentNodes,
             sigs ++ [deviceConnected info])
        | Some known =>
            if negb (Bool.eqb (DeviceInfo.isMounted known) (DeviceInfo.isMounted info))
            then (<[DeviceInfo.deviceNode info := info]> m_devices, currentNodes,
                  sigs ++ [deviceChanged info])
            else (m_devices, currentNodes, sigs)
        end
      else st
  | None => st
  end.

(** [scanExistingDevices] over the partitions udev enumerates, with a
    udev context at hand; [/proc/mounts] is taken to stay as it is during
    the scan. *)
Definition scanExistingDevices (mounts : option string)
    (entries : list (option UdevDevice)) (m_devices : gmap string DeviceInfo.t)
  : gmap string DeviceInfo.t * list Signal :=
  let '(m_devices, currentNodes, sigs) :=
    foldl (scanEntry mounts) (m_devices, ∅, []) entries in
  let toRemove :=
    filter (fun node => node ∉ currentNodes) (map_to_list m_devices).*1 in
  (foldl (fun m node => delete node m) m_devices toRemove,
   sigs ++ map deviceDisconnected toRemove).

End Udev.

Definition getDevice (deviceNode : string) (m_devices : gmap string DeviceInfo.t)
  : option DeviceInfo.t :=
  m_devices !! deviceNode.

Definition connectedDevices (m_devices : gmap string DeviceInfo.t)
  : list DeviceInfo.t :=
  (map_to_list m_devices).*2.

End DeviceMonitor.

(* ===================================================================== *)
(** * MainWindow.cpp *)
(* ===================================================================== *)

Module MainWindow.

(** What a [DeviceCard] holds of the verification state. *)
Record DeviceCard := mkCard {
  device : DeviceInfo.t;
  m_status : VerificationStatus;
  progressVisible : bool;
  deviceRecord : option DeviceRecord.t
}.

Definition setVerificationStatus (s : VerificationStatus) (c : DeviceCard) : DeviceCard :=
  mkCard (device c) s (progressVisible c) (deviceRecord c).

Definition setProgressVisible (b : bool) (c : DeviceCard) : DeviceCard :=
  mkCard (device c) (m_status c) b (deviceRecord c).

(** The calls the window makes on its collaborators, in the order it makes
    them: the log, the mount manager, the hash worker, the tray icon, the
    alert dialog, and the signals the database emits while it is called. *)
Inductive Action :=
| logMessage (message : string) (level : LogLevel)
| mount (deviceNode : string)
| unmount (deviceNode : string)
| powerOff (deviceNode : string)
| startHash (job : HashWorker.HashJob)
| databaseSignal (s : DatabaseManager.Signal)
| notifyVerificationResult (name : string) (status : VerificationStatus)
| notifyHashCompleted (name : string) (durationMs : Z)
| setHashingActive (active : bool)
| flash (deviceNode : string)
| modifiedDeviceAlert (dev : DeviceInfo.t) (expected actual : string) (mayAccept : bool).

Record t := mk {
  m_settings : AppSettings.t;
  m_database : DatabaseManager.t;
  m_hashJobDevices : gmap string string;      (* jobId -> deviceNode *)
  m_activeHashCount : Z;
  m_deviceCards : gmap string DeviceCard;     (* deviceNode -> card *)
  connected : gmap string DeviceInfo.t        (* m_deviceMonitor->getDevice *)
}.

Definition set_database (db : DatabaseManager.t) (w : t) : t :=
  mk (m_settings w) db (m_hashJobDevices w) (m_activeHashCount w)
     (m_deviceCards w) (connected w).

Definition set_cards (cards : gmap string DeviceCard) (w : t) : t :=
  mk (m_settings w) (m_database w) (m_hashJobDevices w) (m_activeHashCount w)
     cards (connected w).

(** [m_hashJobDevices.take(jobId)] and the decrement of the job count. *)
Definition takeJob (jobId : string) (w : t) : string * t :=
  (default "" (m_hashJobDevices w !! jobId),
   mk (m_settings w) (m_database w) (delete jobId (m_hashJobDevices w))
      (Z.max 0 (m_activeHashCount w - 1)) (m_deviceCards w) (connected w)).

(** The slots connected to the database's signals. *)
Definition onDatabaseSignal (s : DatabaseManager.Signal) : list Action :=
  databaseSignal s ::
  match s with
  | DatabaseManager.hashMismatch uniqueId _ _ =>
      [logMessage ("Hash mismatch detected for device " +:+ uniqueId) LSecurity]
  | DatabaseManager.databaseLoaded n =>
      [logMessage ("Database loaded: " +:+ pretty n +:+ " whitelisted device(s)") LInfo]
  | _ => []
  end.

Definition startHashing (deviceNode : string) (w : t) : list Action :=
  [startHash (HashWorker.mkJob deviceNode
     (HashWorker.algorithmFromName (AppSettings.hashAlgorithm (m_settings w)))
     (AppSettings.hashBufferSizeKB (m_settings w))
     (AppSettings.useMemoryMapping (m_settings w)) true)].

Definition onHashStarted (jobId deviceNode : string) (w : t) : t * list Action :=
  (mk (m_settings w) (m_database w) (<[jobId := deviceNode]> (m_hashJobDevices w))
      (m_activeHashCount w + 1)
      (alter (fun c => setVerificationStatus Hashing (setProgressVisible true c))
             deviceNode (m_deviceCards w))
      (connected w),
   [setHashingActive true]).

(** [showModifiedDeviceAlert]; [userAccepts] is the button the user
    presses when the dialog offers Yes and No. *)
Definition showModifiedDeviceAlert (dev : DeviceInfo.t) (expected actual : string)
    (userAccepts : bool) (now : QDateTime.fields) (w : t) : t * list Action :=
  if AppSettings.blockModifiedDevices (m_settings w) then
    (w, [modifiedDeviceAlert dev expected actual false])
  else if userAccepts then
    let '(_, db, sigs) :=
      DatabaseManager.updateHash (DeviceInfo.uniqueId dev) actual
        (AppSettings.hashAlgorithm (m_settings w)) 0 now (m_database w) in
    (set_database db w,
     [modifiedDeviceAlert dev expected actual true]
     ++ flat_map onDatabaseSignal sigs
     ++ [mount (DeviceInfo.deviceNode dev);
         logMessage ("User accepted modified device: " +:+ DeviceInfo.displayName dev)
           LWarning])
  else (w, [modifiedDeviceAlert dev expected actual true]).

Definition onHashCompleted (jobId : string) (result : HashResult.t)
    (userAccepts : bool) (now : QDateTime.fields) (w : t) : t * list Action :=
  let '(deviceNode, w) := takeJob jobId w in
  if QString.isEmpty deviceNode then (w, [])
  else
    match connected w !! deviceNode with
    | None =>
        (w, [logMessage ("Hash completed but device disconnected: " +:+ deviceNode) LInfo])
    | Some deviceInfo =>
        let deviceId := DeviceInfo.uniqueId deviceInfo in
        let record := DatabaseManager.getDevice deviceId (m_database w) in
        let firstHash :=
          let '(_, db, sigs) :=
            DatabaseManager.updateHash deviceId (HashResult.hash result)
              (HashResult.algorithm result) (HashResult.durationMs result) now
              (m_database w) in
          (set_cards
             (alter (fun c => setProgressVisible false (setVerificationStatus Verified c))
                    deviceNode (m_deviceCards w))
             (set_database db w),
           flat_map onDatabaseSignal sigs
           ++ [logMessage ("Hash stored for " +:+ DeviceInfo.displayName deviceInfo) LInfo;
               notifyHashCompleted (DeviceInfo.displayName deviceInfo)
                 (HashResult.durationMs result)]
           ++ (if negb (DeviceInfo.isMounted deviceInfo) then [mount deviceNode] else [])) in
        let '(w1, actions) :=
          match record with
          | Some r =>
              if negb (QString.isEmpty (DeviceRecord.hash r)) then
                let '(matches, sigs) :=
                  DatabaseManager.verifyHash deviceId (HashResult.hash result)
                    (m_database w) in
                if matches then
                  (set_cards
                     (alter (fun c => setProgressVisible false
                                        (setVerificationStatus Verified c))
                            deviceNode (m_deviceCards w)) w,
                   flat_map onDatabaseSignal sigs
                   ++ [logMessage ("Verified: " +:+ DeviceInfo.displayName deviceInfo
                                   +:+ " - hash matches") LInfo]
                   ++ match m_deviceCards w !! deviceNode with
                      | Some _ => [flash deviceNode]
                      | None => []
                      end
                   ++ [notifyVerificationResult (DeviceInfo.displayName deviceInfo) Verified]
                   ++ (if negb (DeviceInfo.isMounted deviceInfo)
                       then [mount deviceNode] else []))
                else
                  let w' :=
                    set_cards
                      (alter (fun c => setProgressVisible false
                                         (setVerificationStatus Modified c))
                             deviceNode (m_deviceCards w)) w in
                  let '(w'', alert) :=
                    showModifiedDeviceAlert deviceInfo (DeviceRecord.hash r)
                      (HashResult.hash result) userAccepts now w' in
                  (w'',
                   flat_map onDatabaseSignal sigs
                   ++ [logMessage ("ALERT: " +:+ DeviceInfo.displayName deviceInfo
                                   +:+ " - hash MISMATCH!") LSecurity]
                   ++ alert
                   ++ [notifyVerificationResult (DeviceInfo.displayName deviceInfo)
                         Modified])
              else firstHash
          | None => firstHash
          end in
        (w1, actions ++ (if m_activeHashCount w1 =? 0 then [setHashingActive false] else []))
    end.

Definition onUnmountRequested (deviceNode : string) (w : t) : list Action :=
  match connected w !! deviceNode with
  | None => []
  | Some _ =>
      if AppSettings.autoHashOnEject (m_settings w) then
        logMessage ("Re-hashing before unmount: " +:+ deviceNode) LInfo
        :: startHashing deviceNode w
      else [unmount deviceNode]
  end.

Definition onEjectRequested (deviceNode : string) (w : t) : list Action :=
  match connected w !! deviceNode with
  | None => []
  | Some dev =>
      [logMessage ("Eject requested: " +:+ DeviceInfo.displayName dev) LInfo]
      ++ (if DeviceInfo.isMounted dev then [unmount deviceNode] else [])
      ++ [powerOff deviceNode]
  end.

(* ------------------------------------------------------------------- *)
(** ** Connection, disconnection and the other ends of a hash *)

Definition getDeviceCard (deviceNode : string) (w : t) : option DeviceCard :=
  m_deviceCards w !! deviceNode.

(** A new card shows no status and no progress and holds no record. *)
Definition addDeviceCard (device : DeviceInfo.t) (w : t) : t :=
  match m_deviceCards w !! DeviceInfo.deviceNode device with
  | Some _ => w
  | None =>
      set_cards (<[DeviceInfo.deviceNode device := mkCard device Unknown false None]>
                   (m_deviceCards w)) w
  end.

Definition removeDeviceCard (deviceNode : string) (w : t) : t :=
  set_cards (delete deviceNode (m_deviceCards w)) w.

Definition setDeviceRecord (record : DeviceRecord.t) (c : DeviceCard) : DeviceCard :=
  mkCard (device c) (m_status c) (progressVisible c) (Some record).

(** The record [handleNewDevice] builds for a device it whitelists. *)
Definition newRecord (device : DeviceInfo.t) (now : QDateTime.fields) (w : t)
  : DeviceRecord.t :=
  DeviceRecord.mk (DeviceInfo.uniqueId device)
    (DeviceRecord.hash DeviceRecord.default)
    (DeviceRecord.hashAlgorithm DeviceRecord.default)
    (Some now) (Some now)
    (DeviceRecord.lastHashed DeviceRecord.default)
    (DeviceRecord.hashDurationMs DeviceRecord.default)
    (AppSettings.defaultTrustLevel (m_settings w))
    (DeviceRecord.autoMount DeviceRecord.default)
    (DeviceRecord.notes DeviceRecord.default)
    device.

(** [handleNewDevice]; [allowed] is what the user answers when
    [showNewDeviceDialog] asks. *)
Definition handleNewDevice (device : DeviceInfo.t) (allowed : bool)
    (now : QDateTime.fields) (w : t) : t * list Action :=
  let deviceNode := DeviceInfo.deviceNode device in
  let cards := alter (setVerificationStatus NewDevice) deviceNode (m_deviceCards w) in
  let whitelisted :=
    let '(_, db, sigs) :=
      DatabaseManager.addDevice (newRecord device now w) (m_database w) in
    (set_cards cards (set_database db w), flat_map onDatabaseSignal sigs) in
  if AppSettings.requireConfirmationForNew (m_settings w) then
    if allowed then
      (whitelisted.1,
       whitelisted.2
       ++ [logMessage ("Device whitelisted: " +:+ DeviceInfo.displayName device) LInfo]
       ++ (if AppSettings.autoHashOnConnect (m_settings w)
           then startHashing deviceNode w else [])
       ++ [mount deviceNode])
    else
      (set_cards cards w,
       [logMessage ("Device rejected: " +:+ DeviceInfo.displayName device) LWarning])
  else
    (whitelisted.1,
     whitelisted.2
     ++ (if AppSettings.autoHashOnConnect (m_settings w)
         then startHashing deviceNode w else [])).

Definition handleKnownDevice (device : DeviceInfo.t) (record : DeviceRecord.t)
    (now : QDateTime.fields) (w : t) : t * list Action :=
  let deviceNode := DeviceInfo.deviceNode device in
  let '(_, db, sigs) :=
    DatabaseManager.updateLastSeen (DeviceRecord.uniqueId record) now (m_database w) in
  (set_cards (alter (setDeviceRecord record) deviceNode (m_deviceCards w))
             (set_database db w),
   flat_map onDatabaseSignal sigs
   ++ (if AppSettings.autoHashOnConnect (m_settings w)
          && negb (QString.isEmpty (DeviceRecord.hash record))
       then startHashing deviceNode w
       else if AppSettings.autoHashOnConnect (m_settings w)
       then startHashing deviceNode w
       else if DeviceRecord.autoMount record || (2 <=? DeviceRecord.trustLevel record)
       then [mount deviceNode]
       else [])).

(** The calls of the connection handlers: those above, the worker's
    [cancelHash] and the tray's device notifications.  The refreshes of
    the side bar, the empty state and the tray's device list are left
    out. *)
Inductive Call :=
| action (a : Action)
| cancelHash (jobId : string)
| notifyDeviceConnected (device : DeviceInfo.t) (known : bool)
| notifyDeviceDisconnected (deviceName : string).

Definition onDeviceConnected (device : DeviceInfo.t) (allowed : bool)
    (now : QDateTime.fields) (w : t) : t * list Call :=
  let logged :=
    action (logMessage ("Device connected: " +:+ DeviceInfo.displayName device
                        +:+ " (" +:+ DeviceInfo.deviceNode device +:+ ")") LInfo) in
  let w1 := addDeviceCard device w in
  let deviceId := DeviceInfo.uniqueId device in
  if DatabaseManager.hasDevice deviceId (m_database w1) then
    match DatabaseManager.getDevice deviceId (m_database w1) with
    | Some record =>
        let '(w2, actions) := handleKnownDevice device record now w1 in
        (w2, logged :: map action actions ++ [notifyDeviceConnected device true])
    | None => (w1, [logged])
    end
  else
    let '(w2, actions) := handleNewDevice device allowed now w1 in
    (w2, logged :: map action actions ++ [notifyDeviceConnected device false]).

(** [onDeviceDisconnected]: the loop over the running jobs stops at the
    first job of the device. *)
Definition onDeviceDisconnected (deviceNode : string) (w : t) : t * list Call :=
  let deviceName :=
    match getDeviceCard deviceNode w with
    | Some card => DeviceInfo.displayName (device card)
    | None => deviceNode
    end in
  let jobs :=
    filter (fun kv => kv.2 = deviceNode) (map_to_list (m_hashJobDevices w)) in
  (removeDeviceCard deviceNode w,
   [action (logMessage ("Device disconnected: " +:+ deviceName) LInfo)]
   ++ match jobs with
      | (jobId, _) :: _ => [cancelHash jobId]
      | [] => []
      end
   ++ [notifyDeviceDisconnected deviceName]).

Definition onHashFailed (jobId error : string) (w : t) : t * list Action :=
  let '(deviceNode, w) := takeJob jobId w in
  let w1 :=
    set_cards (alter (fun c => setProgressVisible false (setVerificationStatus Error c))
                     deviceNode (m_deviceCards w)) w in
  (w1,
   [logMessage ("Hash failed for " +:+ deviceNode +:+ ": " +:+ error) LError]
   ++ (if m_activeHashCount w1 =? 0 then [setHashingActive false] else [])).

Definition onHashCancelled (jobId : string) (w : t) : t * list Action :=
  let '(deviceNode, w) := takeJob jobId w in
  let w1 :=
    set_cards (alter (setProgressVisible false) deviceNode (m_deviceCards w)) w in
  (w1,
   [logMessage ("Hash cancelled for " +:+ deviceNode) LInfo]
   ++ (if m_activeHashCount w1 =? 0 then [setHashingActive false] else [])).

(** The slots connected to the worker's signals. *)
Definition onWorkerSignal (s : HashWorker.Signal) (userAccepts : bool)
    (now : QDateTime.fields) (w : t) : t * list Action :=
  match s with
  | HashWorker.hashStarted jobId deviceNode => onHashStarted jobId deviceNode w
  | HashWorker.hashCompleted jobId result =>
      onHashCompleted jobId result userAccepts now w
  | HashWorker.hashFailed jobId error => onHashFailed jobId error w
  | HashWorker.hashCancelled jobId => onHashCancelled jobId w
  end.

Definition onMountRequested (deviceNode : string) : list Action :=
  [logMessage ("Mount requested: " +:+ deviceNode) LInfo; mount deviceNode].

Definition onRehashRequested (deviceNode : string) (w : t) : list Action :=
  logMessage ("Rehash requested: " +:+ deviceNode) LInfo :: startHashing deviceNode w.

End MainWindow.

(* ===================================================================== *)
(** * Vocabulary of the statements, and sample data *)
(* ===================================================================== *)

(** Two strings are equal without regard to case when their lower-case
    forms coincide. *)
Definition equal_ignoring_case (a b : string) : Prop :=
  QString.toLower a = QString.toLower b.

(** Every entry of the table is filed under the id of its record. *)
Definition keys_are_ids (m : gmap string DeviceRecord.t) : Prop :=
  map_Forall (fun k r => DeviceRecord.uniqueId r = k) m.

(** A mounted flash drive as the device monitor reports it, the moment it
    was first seen, and the record the store holds for it. *)
Definition sampleInfo : DeviceInfo.t :=
  DeviceInfo.mk "/dev/sdb1" "/dev/sdb" "S1" "Kingston" "DT100" "DATA" "vfat"
                "/run/media/user/DATA" 8000000000 true true.

Definition sampleTime : QDateTime.fields := QDateTime.mk 2024 5 17 9 30 15 250.

Definition sampleRecord : DeviceRecord.t :=
  DeviceRecord.mk "S1_Kingston_DT100" "ab12cd" "SHA256"
    (Some sampleTime) (Some sampleTime) (Some sampleTime) 1200 1 false ""
    sampleInfo.

(** An initialised store that holds this one record. *)
Definition samplePath : string := "/home/user/.config/flashsentry/devices.json".

Definition sampleStore : DatabaseManager.t :=
  DatabaseManager.mk samplePath {[ "S1_Kingston_DT100" := sampleRecord ]}
    true false true None None.

(** What a record keeps when it is written to the whitelist file and read
    back: the time stamps lose their milliseconds, and of the device
    snapshot only the members [DeviceInfo::toJson] writes survive; the
    others take their default values. *)
Definition persisted_info (d : DeviceInfo.t) : DeviceInfo.t :=
  DeviceInfo.mk (DeviceInfo.deviceNode d) "" (DeviceInfo.serial d)
    (DeviceInfo.vendor d) (DeviceInfo.model d) (DeviceInfo.label d)
    (DeviceInfo.fsType d) "" (DeviceInfo.sizeBytes d) true false.

Definition persisted (r : DeviceRecord.t) : DeviceRecord.t :=
  DeviceRecord.mk (DeviceRecord.uniqueId r) (DeviceRecord.hash r)
    (DeviceRecord.hashAlgorithm r)
    (QDateTime.truncated (DeviceRecord.firstSeen r))
    (QDateTime.truncated (DeviceRecord.lastSeen r))
    (QDateTime.truncated (DeviceRecord.lastHashed r))
    (DeviceRecord.hashDurationMs r) (DeviceRecord.trustLevel r)
    (DeviceRecord.autoMount r) (DeviceRecord.notes r)
    (persisted_info (DeviceRecord.lastKnownInfo r)).

(** The values the C++ member types can hold: [uint64_t] durations and
    sizes, an [int] trust level, time stamps within the calendar. *)
Definition representable (r : DeviceRecord.t) : Prop :=
  QDateTime.wf (DeviceRecord.firstSeen r)
  /\ QDateTime.wf (DeviceRecord.lastSeen r)
  /\ QDateTime.wf (DeviceRecord.lastHashed r)
  /\ 0 <= DeviceRecord.hashDurationMs r < 2 ^ 64
  /\ - 2 ^ 31 <= DeviceRecord.trustLevel r < 2 ^ 31
  /\ 0 <= DeviceInfo.sizeBytes (DeviceRecord.lastKnownInfo r) < 2 ^ 64.

(** The file [sampleStore] was saved to, and a later moment. *)
Definition sampleFiles : FileSystem.t :=
  {[ samplePath :=
       FileSystem.mkFile
         (QJsonDocument.toJson (DatabaseManager.document sampleTime sampleStore))
         (QDateTime.toMSecs sampleTime) true ]}.

Definition laterTime : QDateTime.fields := QDateTime.mk 2024 5 17 9 31 2 40.

(** The operating system refuses the rename; everything else succeeds. *)
Definition renameRefused : Io.t := Io.mk true true true true false true.

(** [createBackup()] called once at each of the given moments, in turn:
    the paths returned, the store and the files afterwards. *)
Fixpoint createBackups (times : list QDateTime.fields) (io : Io.t)
    (fs : FileSystem.t) (db : DatabaseManager.t)
  : list string * DatabaseManager.t * FileSystem.t :=
  match times with
  | [] => ([], db, fs)
  | now :: rest =>
      let '(path, db1, fs1) := DatabaseManager.createBackup "" io now fs db in
      let '(paths, db2, fs2) := createBackups rest io fs1 db1 in
      (path :: paths, db2, fs2)
  end.

(** A name without the characters that a name filter of [QDir] reads as
    wildcards. *)
Definition wildcardFree (s : string) : bool :=
  negb (QString.contains_char "*" s) && negb (QString.contains_char "?" s)
  && negb (QString.contains_char "[" s).

(** The backup files of the store: what [createBackup] lists next to the
    database file. *)
Definition backupFiles (db : DatabaseManager.t) (fs : FileSystem.t)
  : list (string * FileSystem.file) :=
  FileSystem.entryInfoList
    (QFileInfo.absolutePath (DatabaseManager.m_databasePath db))
    (DatabaseManager.backupFilter (DatabaseManager.m_databasePath db)) fs.

(** The operating system refuses every removal; everything else
    succeeds. *)
Definition removalRefused : Io.t := Io.mk true true true false true true.

(** The copy cannot be written; everything else succeeds. *)
Definition copyRefused : Io.t := Io.mk true true true true true false.

(** A store whose database file has a bracket in its name. *)
Definition bracketPath : string := "/home/user/.config/flashsentry/dev[1].json".

Definition bracketStore : DatabaseManager.t :=
  DatabaseManager.mk bracketPath {[ "S1_Kingston_DT100" := sampleRecord ]}
    true false true None None.

Definition bracketFiles : FileSystem.t :=
  {[ bracketPath :=
       FileSystem.mkFile
         (QJsonDocument.toJson (DatabaseManager.document sampleTime bracketStore))
         (QDateTime.toMSecs sampleTime) true ]}.

(** Moments one second apart, and moments within one second. *)
Definition atSecond (s : Z) : QDateTime.fields := QDateTime.mk 2024 5 17 10 0 s 0.

Definition atMillisecond (ms : Z) : QDateTime.fields :=
  QDateTime.mk 2024 5 17 10 0 0 ms.

Definition sixWithinOneSecond : list QDateTime.fields :=
  map atMillisecond [100; 200; 300; 400; 500; 600].

Definition sixSeconds : list QDateTime.fields := map atSecond [1; 2; 3; 4; 5; 6].

(** A job that asks for XXH3-128, and a device of three bytes that reads
    and maps without trouble. *)
Definition xxh3Job : HashWorker.HashJob :=
  HashWorker.mkJob "/dev/sdb1" HashWorker.XXH3_128 1024 true true.

Definition sha256Job : HashWorker.HashJob :=
  HashWorker.mkJob "/dev/sdc1" HashWorker.SHA256 1024 true true.

Definition xxh3State : HashWorker.JobState :=
  HashWorker.mkState "hash_1000_0" xxh3Job false 0 3.

Definition healthyOs : HashWorker.Os :=
  HashWorker.mkOs true true "" 3 true true true
    [HashWorker.ReadBytes "abc"] (fun _ _ => Some "abc") ""
    (fun _ => false) 12.

(** The same device when it cannot be opened. *)
Definition unopenableOs : HashWorker.Os :=
  HashWorker.mkOs false false "Permission denied" 3 true true true
    [HashWorker.ReadBytes "abc"] (fun _ _ => Some "abc") ""
    (fun _ => false) 12.

(** A stand-in digest for evaluating the model: the bytes themselves,
    tagged with the digest's name. *)
Definition sampleDigest (md : HashWorker.EVP_MD) (data : string) : string :=
  match md with
  | HashWorker.EVP_sha256 => "1" +:+ data
  | HashWorker.EVP_sha512 => "2" +:+ data
  | HashWorker.EVP_blake2b512 => "3" +:+ data
  end.

(** A worker limited to one job at a time, on a machine whose thread pool
    has four threads, after two [startHash] calls. *)
Definition twoJobsStarted : HashWorker.t :=
  let w0 := HashWorker.setMaxConcurrent 1 (HashWorker.new 4) in
  let w1 := (HashWorker.startHash sha256Job 1000 3 w0).1.2 in
  (HashWorker.startHash xxh3Job 1000 3 w1).1.2.

(** The main window while the sample device, known to the store, mounted
    and shown on a card, is being hashed; with the default settings
    (re-hash on eject enabled), and with modified devices blocked. *)
Definition sampleWindow : MainWindow.t :=
  MainWindow.mk AppSettings.default sampleStore
    {[ "hash_1000_0" := "/dev/sdb1" ]} 1
    {[ "/dev/sdb1" := MainWindow.mkCard sampleInfo Hashing true (Some sampleRecord) ]}
    {[ "/dev/sdb1" := sampleInfo ]}.

Definition blockingSettings : AppSettings.t :=
  AppSettings.mk true true true true true 0 "SHA256" 1024 true 1.

Definition blockingWindow : MainWindow.t :=
  MainWindow.mk blockingSettings sampleStore
    {[ "hash_1000_0" := "/dev/sdb1" ]} 1
    {[ "/dev/sdb1" := MainWindow.mkCard sampleInfo Hashing true (Some sampleRecord) ]}
    {[ "/dev/sdb1" := sampleInfo ]}.

(** A completed hash that differs from the stored [ab12cd]. *)
Definition changedResult : HashResult.t :=
  HashResult.mk "/dev/sdb1" "ff00ee" "SHA256" 8000000000 90000 true "".

(** A second drive, not yet in the store, and the record a first
    connection files for it. *)
Definition otherInfo : DeviceInfo.t :=
  DeviceInfo.mk "/dev/sdc1" "/dev/sdc" "" "SanDisk" "Ultra" "" "exfat" ""
                16000000000 true false.

Definition otherRecord : DeviceRecord.t :=
  DeviceRecord.mk "SanDisk_Ultra" "" "SHA256" (Some sampleTime) (Some sampleTime)
    None 0 0 false "" otherInfo.

(** Two states of the store hold the same ids. *)
Definition same_ids (db db' : DatabaseManager.t) : Prop :=
  DatabaseManager.deviceCount db' = DatabaseManager.deviceCount db
  /\ forall k, DatabaseManager.hasDevice k db' = DatabaseManager.hasDevice k db.

(** A copy of the saved database outside the backup directory, and the
    store after it has gained a record. *)
Definition sampleBackupPath : string := "/home/user/old.json".

Definition filesWithBackup : FileSystem.t :=
  <[ sampleBackupPath :=
       FileSystem.mkFile
         (QJsonDocument.toJson (DatabaseManager.document sampleTime sampleStore))
         (QDateTime.toMSecs sampleTime) true ]> sampleFiles.

Definition grownStore : DatabaseManager.t :=
  (DatabaseManager.addDevice otherRecord sampleStore).1.2.

(** A record [validateIntegrity] has nothing to say about. *)
Definition healthy (r : DeviceRecord.t) : Prop :=
  DeviceRecord.uniqueId r <> ""
  /\ (DeviceRecord.hash r = "" -> DeviceRecord.trustLevel r <= 0)
  /\ QDateTime.isValid (DeviceRecord.firstSeen r) = true.

(** The bytes [hashWithRead] feeds to the digest when nothing goes wrong:
    the chunks read up to the first empty read. *)
Fixpoint dataBeforeEof (rs : list HashWorker.ReadOutcome) : string :=
  match rs with
  | HashWorker.ReadBytes bytes :: rest =>
      if QString.isEmpty bytes then "" else bytes +:+ dataBeforeEof rest
  | _ => ""
  end.

(** No read fails before the end of the data. *)
Fixpoint readsSucceed (rs : list HashWorker.ReadOutcome) : bool :=
  match rs with
  | HashWorker.ReadBytes bytes :: rest =>
      QString.isEmpty bytes || readsSucceed rest
  | HashWorker.ReadFails _ :: _ => false
  | [] => true
  end.

(** The id [generateJobId] makes from the clock and the counter. *)
Definition jobIdFor (nowMs counter : Z) : string :=
  "hash_" +:+ pretty nowMs +:+ "_" +:+ pretty counter.

(** Every job on the table is filed under the id it carries, and that id
    was made from a counter value already used. *)
Definition jobs_numbered (w : HashWorker.t) : Prop :=
  0 <= HashWorker.m_jobCounter w
  /\ map_Forall
       (fun id state =>
          HashWorker.jobId state = id
          /\ exists nowMs counter,
               id = jobIdFor nowMs counter
               /\ 0 <= counter < HashWorker.m_jobCounter w)
       (HashWorker.m_jobs w).

(** A completed hash equal to the stored [ab12cd] but for its case. *)
Definition sameResult : HashResult.t :=
  HashResult.mk "/dev/sdb1" "AB12CD" "SHA256" 8000000000 90000 true "".

(** An action that detaches a device or starts a hash. *)
Definition detaches_or_hashes (a : MainWindow.Action) : Prop :=
  match a with
  | MainWindow.unmount _ | MainWindow.powerOff _ | MainWindow.startHash _ => True
  | _ => False
  end.

(** A node is enumerated when udev lists a USB storage partition with
    that device node. *)
Definition enumerated (entries : list (option DeviceMonitor.UdevDevice))
    (node : string) : Prop :=
  exists dev, Some dev ∈ entries
              /\ DeviceMonitor.isUsbStoragePartition dev = true
              /\ DeviceMonitor.devnode dev = node.

(** Whether [/proc/mounts] has a line for the node. *)
Definition mountedAt (mounts : option string) (node : string) : bool :=
  match mounts with
  | Some data =>
      match DeviceMonitor.mountLine node data with Some _ => true | None => false end
  | None => false
  end.

(** The table holds each device under its own node, and holds removable
    devices only, with a mount point only when mounted. *)
Definition keyedByNode (m : gmap string DeviceInfo.t) : Prop :=
  map_Forall (fun node info =>
                DeviceInfo.deviceNode info = node
                /\ DeviceInfo.isRemovable info = true
                /\ (DeviceInfo.isMounted info = false
                    -> DeviceInfo.mountPoint info = "")) m.

(** What a listener does to its own copy of the table on a signal. *)
Definition applySignal (m : gmap string DeviceInfo.t) (s : DeviceMonitor.Signal)
  : gmap string DeviceInfo.t :=
  match s with
  | DeviceMonitor.deviceConnected info => <[DeviceInfo.deviceNode info := info]> m
  | DeviceMonitor.deviceDisconnected node => delete node m
  | DeviceMonitor.deviceChanged info => <[DeviceInfo.deviceNode info := info]> m
  end.

(** A partition of a USB stick as udev describes it, and the mount table
    while it is mounted. *)
Definition sampleUdevDevice : DeviceMonitor.UdevDevice :=
  DeviceMonitor.mkDevice "add" "/dev/sdb1" "partition"
    [("ID_BUS", "usb"); ("ID_USB_DRIVER", "usb-storage");
     ("ID_FS_TYPE", "vfat"); ("ID_FS_LABEL", "DATA")]
    [("size", "2048")] (Some "/dev/sdb")
    (Some [("manufacturer", "Kingston "); ("product", "DT100");
           ("serial", "S1"); ("bDeviceClass", "00")]).

Definition sampleMounts : option string :=
  Some "/dev/sda1 / ext4 rw 0 0
/dev/sdb1 /run/media/user/MY\040DATA vfat rw 0 0
".

(** A reading of [toULongLong] for the samples: the value of a text of
    decimal digits, 0 for a text with another character. *)
Fixpoint decimalFrom (acc : Z) (s : string) : Z :=
  match s with
  | EmptyString => acc
  | String c s' =>
      match QDateTime.digitValue c with
      | Some d => decimalFrom (10 * acc + d) s'
      | None => 0
      end
  end.

Definition decimal (s : string) : Z := decimalFrom 0 s.

(** What the scan reports comes from a USB storage partition udev
    listed. *)
Definition reportedFrom (toULongLong : string -> Z) (mounts : option string)
    (entries : list (option DeviceMonitor.UdevDevice)) (info : DeviceInfo.t) : Prop :=
  exists dev, Some dev ∈ entries /\ DeviceMonitor.isUsbStoragePartition dev = true
              /\ info = DeviceMonitor.extractDeviceInfo toULongLong mounts dev.

(** What holds of the table, the nodes seen and the signals emitted
    after the scan has gone through [seen], from the table [m]. *)
Definition scanInv (toULongLong : string -> Z) (mounts : option string) (m : gmap string DeviceInfo.t)
    (seen : list (option DeviceMonitor.UdevDevice))
    (st : gmap string DeviceInfo.t * gset string * list DeviceMonitor.Signal) : Prop :=
  let '(mt, cur, sg) := st in
  (forall node, node ∈ cur <-> enumerated seen node)
  /\ (forall node, node ∈ cur ->
        exists i, mt !! node = Some i
                  /\ DeviceInfo.isMounted i = mountedAt mounts node)
  /\ (forall node, node ∉ cur -> mt !! node = m !! node)
  /\ (forall node i, mt !! node = Some i ->
        m !! node = Some i
        \/ (reportedFrom toULongLong mounts seen i /\ DeviceInfo.deviceNode i = node))
  /\ (forall s, s ∈ sg ->
        match s with
        | DeviceMonitor.deviceConnected info =>
            m !! DeviceInfo.deviceNode info = None
            /\ reportedFrom toULongLong mounts seen info
        | DeviceMonitor.deviceChanged info =>
            (exists known, m !! DeviceInfo.deviceNode info = Some known
                           /\ DeviceInfo.isMounted known
                              <> DeviceInfo.isMounted info)
            /\ reportedFrom toULongLong mounts seen info
        | DeviceMonitor.deviceDisconnected _ => False
        end)
  /\ (forall node, node ∈ cur -> m !! node = None ->
        exists info, DeviceMonitor.deviceConnected info ∈ sg
                     /\ DeviceInfo.deviceNode info = node)
  /\ (forall node known, node ∈ cur -> m !! node = Some known ->
        DeviceInfo.isMounted known <> mountedAt mounts node ->
        exists info, DeviceMonitor.deviceChanged info ∈ sg
                     /\ DeviceInfo.deviceNode info = node).

(* ===================================================================== *)
(** * Properties of the Qt models *)
(* ===================================================================== *)

Section DateTimeText.
Import QDateTime.

Lemma digitValue_digitChar d :
  0 <= d <= 9 -> digitValue (digitChar d) = Some d.
Proof.
  intros H.
  assert (d = 0 \/ d = 1 \/ d = 2 \/ d = 3 \/ d = 4 \/ d = 5
          \/ d = 6 \/ d = 7 \/ d = 8 \/ d = 9) as Hd by lia.
  repeat (destruct Hd as [-> | Hd]; [reflexivity |]). subst. reflexivity.
Qed.

Lemma num2_digits n :
  0 <= n <= 99 ->
  num2 (digitChar (n / 10 mod 10)) (digitChar (n mod 10)) = Some n.
Proof.
  intros H. unfold num2.
  rewrite !digitValue_digitChar by (Z.div_mod_to_equations; lia).
  f_equal. Z.div_mod_to_equations; lia.
Qed.

Lemma num4_digits n :
  0 <= n <= 9999 ->
  num4 (digitChar (n / 1000 mod 10)) (digitChar (n / 100 mod 10))
       (digitChar (n / 10 mod 10)) (digitChar (n mod 10)) = Some n.
Proof.
  intros H. unfold num4, num2.
  rewrite !digitValue_digitChar by (Z.div_mod_to_equations; lia).
  f_equal. Z.div_mod_to_equations; lia.
Qed.

Lemma in_range_bounds f :
  in_range f = true ->
  0 <= year f <= 9999 /\ 1 <= month f <= 12 /\ 1 <= day f <= 31
  /\ 0 <= hour f <= 23 /\ 0 <= minute f <= 59 /\ 0 <= second f <= 59
  /\ 0 <= msec f <= 999.
Proof.
  unfold in_range, between. intros H.
  repeat (apply andb_prop in H; destruct H as [H ?]). lia.
Qed.

(** Reading back the ISO text of a time stamp gives the stamp without its
    milliseconds. *)
Lemma fromString_toString_ISODate d :
  wf d -> fromString_ISODate (toString_ISODate d) = truncated d.
Proof.
  destruct d as [f|]; [|reflexivity].
  intros Hwf. pose proof (in_range_bounds f Hwf) as B.
  destruct f as [y mo dd h mi s ms]. cbn in B.
  unfold toString_ISODate, truncated.
  cbn [year month day hour minute second msec].
  assert (between 0 y 9999 = true) as -> by (unfold between; lia).
  unfold fromString_ISODate, pad4, pad2. cbn [list_ascii_of_string].
  cbn [Ascii.eqb Bool.eqb andb].
  rewrite num4_digits by lia. rewrite !num2_digits by lia.
  assert (in_range (mk y mo dd h mi s 0) = true) as ->; [|reflexivity].
  unfold in_range, between. cbn. lia.
Qed.

End DateTimeText.

Section CaseInsensitive.
Import QString.

Lemma nat_of_ascii_eq x y :
  Z.of_nat (nat_of_ascii x) - Z.of_nat (nat_of_ascii y) = 0 -> x = y.
Proof.
  intros H. rewrite <- (ascii_nat_embedding x), <- (ascii_nat_embedding y).
  f_equal. lia.
Qed.

(** [compare(..., Qt::CaseInsensitive) == 0] is equality of the folded
    strings. *)
Lemma compare_ci_zero a b : compare_ci a b = 0 <-> equal_ignoring_case a b.
Proof.
  unfold equal_ignoring_case. revert b.
  induction a as [|x a IH]; intros [|y b]; cbn [compare_ci toLower];
    try (split; [lia | discriminate]); [tauto |].
  destruct (Z.eqb_spec
    (Z.of_nat (nat_of_ascii (foldCase x)) - Z.of_nat (nat_of_ascii (foldCase y))) 0)
    as [E | E].
  - apply nat_of_ascii_eq in E. rewrite E, IH. split; [congruence |].
    intros H. by injection H.
  - split; [lia |]. intros H. injection H as H1 H2. rewrite H1 in E. lia.
Qed.

End CaseInsensitive.

Section StoreInvariant.
Import DatabaseManager.

Lemma keys_are_ids_insert m r :
  keys_are_ids m -> keys_are_ids (<[DeviceRecord.uniqueId r := r]> m).
Proof. intros H. by apply map_Forall_insert_2. Qed.

Lemma keys_are_ids_update m k r r' :
  keys_are_ids m -> m !! k = Some r ->
  DeviceRecord.uniqueId r' = DeviceRecord.uniqueId r ->
  keys_are_ids (<[k := r']> m).
Proof.
  intros H Hk E. apply map_Forall_insert_2; [|done].
  rewrite E. by apply (H k r).
Qed.

Lemma keys_are_ids_delete m k : keys_are_ids m -> keys_are_ids (delete k m).
Proof. intros H. by apply map_Forall_delete. Qed.

Lemma keys_are_ids_empty : keys_are_ids ∅.
Proof. apply map_Forall_empty. Qed.

Lemma markModified_devices db : m_devices (markModified db).1 = m_devices db.
Proof. reflexivity. Qed.

(** What [loadFromFile]'s loop does to an entry: it is left alone, or it
    is a record with a non-empty id filed under that id. *)
Lemma loadItems_entry items : forall m k r,
  foldl loadItem m items !! k = Some r ->
  m !! k = Some r \/ (DeviceRecord.uniqueId r = k /\ k <> "").
Proof.
  induction items as [|item items IH]; intros m k r H; cbn in H; [by left |].
  apply IH in H as [H | H]; [|by right].
  unfold loadItem in H.
  destruct (QString.isEmpty _) eqn:E; cbn in H; [by left |].
  destruct (decide (DeviceRecord.uniqueId
                      (DeviceRecord.fromJson (QJson.toObject item)) = k)) as [<- | Hne].
  - rewrite lookup_insert_eq in H. injection H as <-. right. split; [done |].
    intros E'. rewrite E' in E. discriminate.
  - rewrite lookup_insert_ne in H by done. by left.
Qed.

Lemma loadFromFile_entry fs db k r :
  m_devices (loadFromFile fs db).2 !! k = Some r ->
  m_devices db !! k = Some r \/ (DeviceRecord.uniqueId r = k /\ k <> "").
Proof.
  unfold loadFromFile.
  destruct (fs !! m_databasePath db) as [file|]; [|by left].
  destruct (QByteArray_isEmpty _); [by left |].
  destruct (QJsonDocument.fromJson _) as [err | doc]; [by left |].
  cbn. apply loadItems_entry.
Qed.

Lemma restoreItems_keys items : forall m,
  keys_are_ids m -> keys_are_ids (foldl restoreItem m items).
Proof.
  induction items as [|item items IH]; intros m H; cbn; [done |].
  apply IH. by apply keys_are_ids_insert.
Qed.

Lemma importItems_keys merge items : forall acc,
  keys_are_ids acc.1 -> keys_are_ids (foldl (importItem merge) acc items).1.
Proof.
  induction items as [|item items IH]; intros [m n] H; cbn; [done |].
  apply IH. cbn in H. unfold importItem.
  destruct (m !! _); [destruct merge |]; cbn; try done;
    by apply keys_are_ids_insert.
Qed.

Lemma createBackup_devices p io now fs db :
  m_devices (createBackup p io now fs db).1.2 = m_devices db.
Proof.
  unfold createBackup.
  destruct (m_initialized db); cbn; [|done].
  destruct (FileSystem.exists_ _ _); [|done].
  destruct (FileSystem.copy _ _ _ _ _); [|done].
  by destruct (removeOldBackups _ _ _ _).
Qed.

End StoreInvariant.

(* ===================================================================== *)
(** * The whitelist store *)
(* ===================================================================== *)

Section Store.
Import DatabaseManager.

(** C7.  For a device id in the store, [verifyHash] answers [true] exactly
    when the stored hash and the candidate are equal without regard to
    case; and when it answers [false] while the stored hash is not empty,
    it emits [hashMismatch] with the id, the stored (expected) hash and
    the candidate (actual) hash. *)
Theorem verifyHash_case_insensitive_and_mismatch_signal
    (db : t) (uniqueId candidate : string) (r : DeviceRecord.t) :
  m_devices db !! uniqueId = Some r ->
  ((verifyHash uniqueId candidate db).1 = true
     <-> equal_ignoring_case (DeviceRecord.hash r) candidate)
  /\ ((verifyHash uniqueId candidate db).1 = false ->
      DeviceRecord.hash r <> "" ->
      (verifyHash uniqueId candidate db).2
      = [hashMismatch uniqueId (DeviceRecord.hash r) candidate])
  /\ ((verifyHash uniqueId candidate db).1 = true ->
      (verifyHash uniqueId candidate db).2 = []).
Proof.
  intros Hr. unfold verifyHash. rewrite Hr. cbn [fst snd].
  split; [|split].
  - rewrite <- compare_ci_zero. apply Z.eqb_eq.
  - intros -> Hne. destruct (DeviceRecord.hash r); [done | reflexivity].
  - by intros ->.
Qed.

Lemma verifyHash_witness :
  m_devices sampleStore !! "S1_Kingston_DT100" = Some sampleRecord
  /\ (verifyHash "S1_Kingston_DT100" "AB12CE" sampleStore).2
     = [hashMismatch "S1_Kingston_DT100" "ab12cd" "AB12CE"].
Proof.
  split; [reflexivity |].
  apply (verifyHash_case_insensitive_and_mismatch_signal
           sampleStore "S1_Kingston_DT100" "AB12CE" sampleRecord);
    [reflexivity | reflexivity | discriminate].
Defined.

(** C10.  In a table whose entries are filed under their record's id,
    [loadFromFile] keeps that property and only ever adds records with a
    non-empty id; [addDevice], [updateDevice], [upsertDevice],
    [updateHash], [removeDevice], [importFromFile] and
    [restoreFromBackup] keep it as well. *)
Theorem table_keys_are_record_ids (db : t) :
  keys_are_ids (m_devices db) ->
  (forall fs, keys_are_ids (m_devices (loadFromFile fs db).2))
  /\ (forall fs k r, m_devices (loadFromFile fs db).2 !! k = Some r ->
        m_devices db !! k = Some r \/ (DeviceRecord.uniqueId r = k /\ k <> ""))
  /\ (forall record, keys_are_ids (m_devices (addDevice record db).1.2))
  /\ (forall record, keys_are_ids (m_devices (updateDevice record db).1.2))
  /\ (forall record, keys_are_ids (m_devices (upsertDevice record db).1))
  /\ (forall id hash algorithm duration now,
        keys_are_ids (m_devices (updateHash id hash algorithm duration now db).1.2))
  /\ (forall id, keys_are_ids (m_devices (removeDevice id db).1.2))
  /\ (forall path merge fs,
        keys_are_ids (m_devices (importFromFile path merge fs db).1.2))
  /\ (forall path io now fs,
        keys_are_ids (m_devices (restoreFromBackup path io now fs db).1.1.2)).
Proof.
  intros Inv. repeat split.
  - intros fs k r H. apply loadFromFile_entry in H as [H | [H _]]; [|done].
    by apply (Inv k r).
  - intros fs k r. apply loadFromFile_entry.
  - intros record. unfold addDevice. destruct (hasDevice _ _); [done |].
    by apply keys_are_ids_insert.
  - intros record. unfold updateDevice. destruct (hasDevice _ _); [|done].
    by apply keys_are_ids_insert.
  - intros record. by apply keys_are_ids_insert.
  - intros id hash algorithm duration now. unfold updateHash.
    destruct (m_devices db !! id) as [r|] eqn:E; [|done].
    by apply (keys_are_ids_update _ _ r).
  - intros id. unfold removeDevice. destruct (hasDevice _ _); [|done].
    by apply keys_are_ids_delete.
  - intros path merge fs. unfold importFromFile.
    destruct (fs !! path) as [file|]; [|done].
    destruct (QJsonDocument.fromJson _) as [err | doc]; [done |].
    pose proof (importItems_keys merge
      (QJson.toArray (QJson.get "devices" (QJsonDocument.object doc)))
      (if negb merge then ∅ else m_devices db, 0)) as H.
    destruct (foldl _ _ _) as [m n]. cbn in H.
    assert (keys_are_ids m) as Hm.
    { apply H. destruct merge; [done | apply keys_are_ids_empty]. }
    by destruct (0 <? n).
  - intros path io now fs. unfold restoreFromBackup.
    destruct (FileSystem.exists_ path fs); [|done].
    pose proof (createBackup_devices "" io now fs db) as Hb.
    destruct (createBackup "" io now fs db) as [[ret db1] fs1]. cbn in Hb.
    destruct (fs1 !! path) as [file|]; [|cbn; by rewrite Hb].
    destruct (QJsonDocument.fromJson _) as [err | doc]; [cbn; by rewrite Hb |].
    destruct (writeToFile _ _ _ _) as [[ok fs2] sigs].
    destruct ok; cbn; apply restoreItems_keys, keys_are_ids_empty.
Qed.

(** A store constructed and initialised from any file has its entries
    filed under their ids, none of them empty. *)
Lemma initialize_establishes_keys path configDir io fs :
  keys_are_ids (m_devices (initialize path configDir io fs new).1.2)
  /\ m_devices (initialize path configDir io fs new).1.2 !! "" = None.
Proof.
  unfold initialize.
  destruct (Io.mkpathOk io); cbn [negb]; [|split; [apply map_Forall_empty | done]].
  destruct (FileSystem.exists_ _ _); [|split; [apply map_Forall_empty | done]].
  set (db1 := set_databasePath _ new).
  pose proof (fun k r => loadFromFile_entry fs db1 k r) as Hload.
  destruct (loadFromFile fs db1) as [ok dbl]. cbn [fst snd] in *.
  destruct ok; cbn [fst snd m_devices set_modified set_initialized set_devices];
    [|split; [apply map_Forall_empty | done]].
  split.
  - intros k r H. by apply Hload in H as [H | [H _]].
  - destruct (m_devices dbl !! "") as [r|] eqn:E; [|done].
    by apply Hload in E as [E | [_ E]].
Qed.

Lemma table_keys_are_record_ids_witness :
  keys_are_ids (m_devices sampleStore)
  /\ keys_are_ids (m_devices (removeDevice "S1_Kingston_DT100" sampleStore).1.2).
Proof.
  assert (keys_are_ids (m_devices sampleStore)) as H.
  { apply map_Forall_insert_2; [reflexivity | apply map_Forall_empty]. }
  split; [exact H |].
  apply (table_keys_are_record_ids sampleStore H).
Defined.

End Store.

Section AtomicWrite.
Import DatabaseManager.

Lemma tempPath_differs (p : string) : p +:+ ".tmp" <> p.
Proof.
  induction p as [|c p IH]; cbn; [discriminate |].
  intros H. injection H as H. by apply IH.
Qed.

(** A temporary file that cannot be opened leaves every file as it was. *)
Lemma writeToFile_open_failure io now fs db :
  Io.tempOpenOk io = false ->
  writeToFile io now fs db = (false, fs, [databaseError "Failed to write database"]).
Proof. intros H. unfold writeToFile. by rewrite H. Qed.

(** A short write leaves the database file as it was. *)
Lemma writeToFile_short_write io now fs db :
  Io.tempOpenOk io = true -> Io.writeComplete io = false ->
  (writeToFile io now fs db).1.1 = false
  /\ (writeToFile io now fs db).1.2 !! m_databasePath db = fs !! m_databasePath db.
Proof.
  intros H1 H2. unfold writeToFile. rewrite H1, H2. cbn. split; [done |].
  apply lookup_delete_ne, tempPath_differs.
Qed.

(** When the destination is removed and the rename then fails, the
    database file is gone. *)
Lemma writeToFile_rename_failure io now fs db :
  Io.tempOpenOk io = true -> Io.writeComplete io = true ->
  Io.removeOk io = true -> Io.renameOk io = false ->
  (writeToFile io now fs db).1.1 = false
  /\ (writeToFile io now fs db).1.2 !! m_databasePath db = None.
Proof.
  intros H1 H2 H3 H4. unfold writeToFile. rewrite H1, H2, H3, H4. cbn.
  split; [done |].
  destruct (FileSystem.exists_ _ _) eqn:E; [apply lookup_delete_eq |].
  unfold FileSystem.exists_ in E.
  by destruct (_ !! m_databasePath db).
Qed.

(** C1, at the input where it fails.  The store was saved before; a new
    save writes the temporary file completely, removes the destination,
    and the rename is refused.  [writeToFile] reports failure and the
    previously saved database file no longer exists. *)
Theorem writeToFile_refused_rename_deletes_saved_database :
  FileSystem.exists_ samplePath sampleFiles = true
  /\ (writeToFile renameRefused laterTime sampleFiles sampleStore).1.1 = false
  /\ FileSystem.exists_ samplePath
       (writeToFile renameRefused laterTime sampleFiles sampleStore).1.2 = false
  /\ (writeToFile renameRefused laterTime sampleFiles sampleStore).2
     = [databaseError "Failed to finalize database write"].
Proof. vm_compute. repeat split. Qed.

End AtomicWrite.

Section RoundTrip.
Import DatabaseManager.

Lemma get_set_eq key v o : QJson.get key (QJson.set key v o) = v.
Proof.
  induction o as [|[k x] o IH]; cbn; [by rewrite String.eqb_refl |].
  destruct (String.eqb k key) eqn:E; cbn; [by rewrite String.eqb_refl |].
  by rewrite E.
Qed.

Lemma to_uint64_to_qint64 u : 0 <= u < 2 ^ 64 -> to_uint64 (to_qint64 u) = u.
Proof.
  intros H. unfold to_uint64, to_qint64.
  destruct (Z.ltb_spec u (2 ^ 63)).
  - apply Z.mod_small. lia.
  - replace (u - 2 ^ 64) with (u + (-1) * 2 ^ 64) by lia.
    rewrite Z.mod_add by lia. apply Z.mod_small. lia.
Qed.

Lemma toInt_int n : - 2 ^ 31 <= n < 2 ^ 31 -> QJson.toInt (QJson.Integer n) = n.
Proof.
  intros H. unfold QJson.toInt.
  destruct (Z.leb_spec (- 2 ^ 31) n); [|lia].
  destruct (Z.ltb_spec n (2 ^ 31)); [done | lia].
Qed.

Lemma DeviceInfo_fromJson_toJson d :
  0 <= DeviceInfo.sizeBytes d < 2 ^ 64 ->
  DeviceInfo.fromJson (DeviceInfo.toJson d) = persisted_info d.
Proof.
  intros H. unfold DeviceInfo.fromJson, DeviceInfo.toJson, persisted_info.
  cbn. by rewrite to_uint64_to_qint64.
Qed.

(** Writing a record and reading it back gives its persisted form. *)
Lemma DeviceRecord_fromJson_toJson r :
  representable r -> DeviceRecord.fromJson (DeviceRecord.toJson r) = persisted r.
Proof.
  intros (H1 & H2 & H3 & H4 & H5 & H6).
  unfold DeviceRecord.fromJson, DeviceRecord.toJson, persisted.
  cbn [QJson.set QJson.get String.eqb Ascii.eqb Bool.eqb
       QJson.toString QJson.toInteger QJson.toBool QJson.toObject].
  rewrite !fromString_toString_ISODate by done.
  rewrite to_uint64_to_qint64, toInt_int by done.
  by rewrite DeviceInfo_fromJson_toJson.
Qed.

Lemma isEmpty_true s : QString.isEmpty s = true <-> s = "".
Proof. destruct s; cbn; split; congruence. Qed.

(** Loading the array written for the entries [l] of a table. *)
Lemma loadItems_written (l : list (string * DeviceRecord.t)) :
  forall (acc : gmap string DeviceRecord.t) (i : string),
  NoDup l.*1 ->
  Forall (fun kr => DeviceRecord.uniqueId kr.2 = kr.1 /\ representable kr.2) l ->
  foldl loadItem acc
    (map (fun record => QJson.Object (DeviceRecord.toJson record)) l.*2) !! i
  = match (list_to_map l : gmap string DeviceRecord.t) !! i with
    | Some r => if QString.isEmpty i then acc !! i else Some (persisted r)
    | None => acc !! i
    end.
Proof.
  induction l as [|[k r] l IH]; intros acc i Hnd Hall; [done |].
  rewrite !fmap_cons in *. cbn [map foldl list_to_map foldr fst snd uncurry].
  apply NoDup_cons in Hnd as [Hk Hnd].
  apply Forall_cons in Hall as [[Hid Hrep] Hall]. cbn in Hid, Hrep.
  rewrite IH by done.
  unfold loadItem at 1 2. cbn [QJson.toObject].
  rewrite !DeviceRecord_fromJson_toJson by done.
  change (DeviceRecord.uniqueId (persisted r)) with (DeviceRecord.uniqueId r).
  rewrite Hid. cbn in Hk.
  destruct (decide (k = i)) as [-> | Hne].
  - rewrite lookup_insert_eq.
    rewrite (not_elem_of_list_to_map_1 _ i) by done.
    destruct (QString.isEmpty i); cbn; [done | by rewrite lookup_insert_eq].
  - rewrite (lookup_insert_ne _ k i) by done.
    destruct (QString.isEmpty k); cbn; [done | by rewrite lookup_insert_ne].
Qed.

Lemma writeToFile_success io now fs db :
  (writeToFile io now fs db).1.1 = true ->
  (writeToFile io now fs db).1.2 !! m_databasePath db
  = Some (FileSystem.mkFile (QJsonDocument.toJson (document now db))
            (QDateTime.toMSecs now) true).
Proof.
  unfold writeToFile.
  destruct (Io.tempOpenOk io); cbn; [|done].
  destruct (Io.writeComplete io); cbn; [|done].
  destruct (Io.renameOk io && _); cbn; [|done].
  intros _. apply lookup_insert_eq.
Qed.

(** C9, as the code has it.  When [save()] succeeds on an initialised
    store whose entries are filed under their ids and hold representable
    values, [reload()] succeeds and the table it loads holds, for every
    record with a non-empty id, that record's persisted form: all members
    unchanged except that time stamps are cut to whole seconds and the
    snapshot's [parentDevice], [mountPoint], [isRemovable] and
    [isMounted] take their defaults.  Records with an empty id are not
    loaded. *)
Theorem save_then_reload_gives_persisted_records
    (io : Io.t) (now : QDateTime.fields) (fs : FileSystem.t) (db : t) :
  m_initialized db = true ->
  keys_are_ids (m_devices db) ->
  map_Forall (fun _ r => representable r) (m_devices db) ->
  (save io now fs db).1.1.1 = true ->
  (reload (save io now fs db).1.2 (save io now fs db).1.1.2).1.1 = true
  /\ m_devices (reload (save io now fs db).1.2 (save io now fs db).1.1.2).1.2
     = persisted <$> filter (fun kr => kr.1 <> "") (m_devices db).
Proof.
  intros Hinit Hkeys Hrep. unfold save. rewrite Hinit. cbn [negb].
  pose proof (writeToFile_success io now fs db) as Hfile.
  destruct (writeToFile io now fs db) as [[ok fs1] sigs]. cbn [fst snd] in Hfile.
  destruct ok; cbn [fst snd]; [intros _ | discriminate].
  specialize (Hfile eq_refl).
  unfold reload, loadFromFile. cbn [m_initialized set_lastSaved set_modified
    set_devices negb m_databasePath m_devices].
  rewrite Hfile. cbn [FileSystem.data QJsonDocument.toJson QByteArray_isEmpty
    QJsonDocument.fromJson QJsonDocument.object QJson.toObject].
  unfold document. rewrite get_set_eq. cbn [QJson.toArray fst snd
    set_modified set_devices m_devices].
  rewrite Hinit. cbn [negb fst snd set_modified set_devices m_devices].
  split; [done |].
  apply map_eq. intros i.
  rewrite loadItems_written.
  - rewrite list_to_map_to_list, lookup_fmap, lookup_empty.
    destruct (m_devices db !! i) as [r|] eqn:Hi.
    + destruct (QString.isEmpty i) eqn:Ei.
      * apply isEmpty_true in Ei.
        rewrite (proj2 (map_lookup_filter_None _ _ _)); [done |].
        right. intros x _. cbn. congruence.
      * rewrite (map_lookup_filter_Some_2 _ _ i r); [done | done |].
        cbn. intros ->. discriminate.
    + rewrite (proj2 (map_lookup_filter_None _ _ _)); [done | by left].
  - apply NoDup_fst_map_to_list.
  - apply Forall_forall. intros [k r] Hin.
    apply elem_of_map_to_list in Hin. cbn.
    split; [by apply (Hkeys k r) | by apply (Hrep k r)].
Qed.

Lemma sampleStore_keys : keys_are_ids (m_devices sampleStore).
Proof. apply map_Forall_insert_2; [reflexivity | apply map_Forall_empty]. Qed.

Lemma sampleRecord_representable : representable sampleRecord.
Proof. repeat split; first [reflexivity | discriminate]. Qed.

Lemma save_then_reload_witness :
  m_devices (reload (save Io.allOk laterTime sampleFiles sampleStore).1.2
                    (save Io.allOk laterTime sampleFiles sampleStore).1.1.2).1.2
  = persisted <$> filter (fun kr => kr.1 <> "") (m_devices sampleStore).
Proof.
  apply (save_then_reload_gives_persisted_records
           Io.allOk laterTime sampleFiles sampleStore).
  - reflexivity.
  - apply sampleStore_keys.
  - apply map_Forall_insert_2;
      [apply sampleRecord_representable | apply map_Forall_empty].
  - vm_compute. reflexivity.
Defined.

(** C9 as stated fails: a record whose snapshot carries a parent device
    and a mount point, and whose time stamps carry milliseconds, does not
    come back identical from [save()] followed by [reload()]. *)
Lemma save_then_reload_not_identical :
  let saved := save Io.allOk laterTime sampleFiles sampleStore in
  let reloaded := reload saved.1.2 saved.1.1.2 in
  saved.1.1.1 = true
  /\ reloaded.1.1 = true
  /\ getDevice "S1_Kingston_DT100" reloaded.1.2 = Some (persisted sampleRecord)
  /\ DeviceInfo.mountPoint (DeviceRecord.lastKnownInfo (persisted sampleRecord))
     <> DeviceInfo.mountPoint (DeviceRecord.lastKnownInfo sampleRecord)
  /\ m_devices reloaded.1.2 <> m_devices sampleStore.
Proof.
  cbv zeta. split; [by vm_compute |]. split; [by vm_compute |].
  split; [by vm_compute |]. split; [discriminate |].
  intros H. apply (f_equal (fun m => m !! "S1_Kingston_DT100")) in H.
  vm_compute in H. discriminate.
Qed.

End RoundTrip.

Section FileOrder.
Import FileSystem.

Lemma string_leb_trans a b c :
  String.leb a b = true -> String.leb b c = true -> String.leb a c = true.
Proof.
  intros H1 H2. apply Is_true_true.
  apply Is_true_true in H1, H2.
  exact (transitivity (R := String.le) H1 H2).
Qed.

Lemma newerFirst_cases a b :
  newerFirst a b <->
  lastModified b.2 < lastModified a.2
  \/ (lastModified a.2 = lastModified b.2
      /\ String.leb (QFileInfo.fileName a.1) (QFileInfo.fileName b.1) = true).
Proof.
  unfold newerFirst, newerFirstb.
  rewrite orb_true_iff, andb_true_iff, Z.ltb_lt, Z.eqb_eq. tauto.
Qed.

#[local] Instance newerFirst_total : Total newerFirst.
Proof.
  intros a b. rewrite !newerFirst_cases.
  destruct (Z.lt_trichotomy (lastModified a.2) (lastModified b.2)) as [H | [H | H]];
    [tauto | | tauto].
  destruct (String.leb_total (QFileInfo.fileName a.1) (QFileInfo.fileName b.1));
    [left | right]; right; split; done.
Qed.

#[local] Instance newerFirst_trans : Transitive newerFirst.
Proof.
  intros a b c. rewrite !newerFirst_cases.
  intros [H1 | [H1 L1]] [H2 | [H2 L2]]; try (left; lia).
  right. split; [lia |]. by apply (string_leb_trans _ (QFileInfo.fileName b.1)).
Qed.

Lemma entryInfoList_sorted dir nameFilter fs :
  StronglySorted newerFirst (entryInfoList dir nameFilter fs).
Proof. apply StronglySorted_merge_sort; apply _. Qed.

Lemma entryInfoList_perm dir nameFilter fs :
  entryInfoList dir nameFilter fs
  ≡ₚ filter (fun e => listed dir nameFilter e = true) (map_to_list fs).
Proof. apply merge_sort_Permutation. Qed.

End FileOrder.

Section PathText.
Import QString QFileInfo.

Lemma app_cons x (a b : string) : String x a +:+ b = String x (a +:+ b).
Proof. reflexivity. Qed.

Lemma app_empty (b : string) : "" +:+ b = b.
Proof. reflexivity. Qed.

Lemma append_assoc (a b c : string) : (a +:+ b) +:+ c = a +:+ (b +:+ c).
Proof.
  induction a as [|x a IH]; [done |]. by rewrite !app_cons, IH.
Qed.

Lemma contains_char_app c a b :
  contains_char c (a +:+ b) = contains_char c a || contains_char c b.
Proof.
  induction a as [|x a IH]; [done |].
  rewrite app_cons. cbn. by rewrite IH, orb_assoc.
Qed.

Lemma afterLast_absent c s : contains_char c s = false -> afterLast c s = None.
Proof.
  induction s as [|x s IH]; cbn; [done |].
  intros H. apply orb_false_elim in H as [H1 H2]. by rewrite IH, H1.
Qed.

Lemma beforeLast_absent c s : contains_char c s = false -> beforeLast c s = None.
Proof.
  induction s as [|x s IH]; cbn; [done |].
  intros H. apply orb_false_elim in H as [H1 H2]. by rewrite IH, H1.
Qed.

Lemma afterLast_None c s : afterLast c s = None -> contains_char c s = false.
Proof.
  induction s as [|x s IH]; cbn; [done |].
  destruct (afterLast c s); [done |].
  destruct (Ascii.eqb x c); [done |]. intros _. by rewrite IH.
Qed.

(** What follows the last [c] holds no [c], and no character that the
    whole string does not hold. *)
Lemma afterLast_Some c s : forall r,
  afterLast c s = Some r ->
  contains_char c r = false
  /\ (forall d, contains_char d s = false -> contains_char d r = false).
Proof.
  induction s as [|x s IH]; cbn; [done |]. intros r.
  destruct (afterLast c s) as [r'|] eqn:E.
  - intros [= <-]. destruct (IH r' eq_refl) as [H1 H2]. split; [done |].
    intros d H. apply orb_false_elim in H as [_ H]. by apply H2.
  - destruct (Ascii.eqb x c); [|done]. intros [= <-].
    split; [by apply afterLast_None |].
    intros d H. by apply orb_false_elim in H as [_ H].
Qed.

Lemma beforeFirst_keeps c d s :
  contains_char c s = false -> contains_char c (beforeFirst d s) = false.
Proof.
  induction s as [|x s IH]; cbn; [done |].
  intros H. apply orb_false_elim in H as [H1 H2].
  destruct (Ascii.eqb x d); cbn; [done |]. by rewrite H1, IH.
Qed.

Lemma fileName_no_slash p : contains_char "/" (fileName p) = false.
Proof.
  unfold fileName. destruct (afterLast "/" p) as [r|] eqn:E.
  - by apply afterLast_Some in E as [E _].
  - by apply afterLast_None.
Qed.

Lemma baseName_no_slash p : contains_char "/" (baseName p) = false.
Proof. apply beforeFirst_keeps, fileName_no_slash. Qed.

Lemma suffix_no_slash p : contains_char "/" (suffix p) = false.
Proof.
  unfold suffix. destruct (afterLast "." (fileName p)) as [r|] eqn:E; [|done].
  apply afterLast_Some in E as [_ E]. apply E, fileName_no_slash.
Qed.

Lemma digitChar_not_slash d : Ascii.eqb (QDateTime.digitChar d) "/" = false.
Proof.
  destruct d as [|p|p]; [done | | done].
  do 4 (try (destruct p as [p|p|]; try done)).
Qed.

Lemma backupStamp_no_slash now :
  contains_char "/" (QDateTime.toString_backupStamp now) = false.
Proof.
  unfold QDateTime.toString_backupStamp, QDateTime.pad4, QDateTime.pad2.
  cbn [contains_char]. by rewrite !digitChar_not_slash.
Qed.

Lemma beforeLast_entry d name :
  contains_char "/" name = false ->
  beforeLast "/" (d +:+ String "/" name) = Some d.
Proof.
  intros H. induction d as [|x d IH]; rewrite ?app_cons, ?app_empty; cbn.
  - by rewrite beforeLast_absent.
  - by rewrite IH.
Qed.

Lemma afterLast_entry d name :
  contains_char "/" name = false ->
  afterLast "/" (d +:+ String "/" name) = Some name.
Proof.
  intros H. induction d as [|x d IH]; rewrite ?app_cons, ?app_empty; cbn.
  - by rewrite afterLast_absent.
  - by rewrite IH.
Qed.

Lemma stripPrefix_app p r : FileSystem.stripPrefix p (p +:+ r) = Some r.
Proof.
  induction p as [|x p IH]; rewrite ?app_cons, ?app_empty; cbn;
    [by destruct r |].
  by rewrite Ascii.eqb_refl.
Qed.

Lemma stripPrefix_Some p : forall s r,
  FileSystem.stripPrefix p s = Some r -> s = p +:+ r.
Proof.
  induction p as [|x p IH]; intros [|y s] r; cbn; try done.
  - by intros [= <-].
  - by intros [= <-].
  - destruct (Ascii.eqb_spec x y) as [<- |]; [|done].
    intros H. by rewrite app_cons, (IH s r).
Qed.

Lemma entryName_entry d name :
  contains_char "/" name = false ->
  FileSystem.entryName d (d +:+ String "/" name) = Some name.
Proof.
  intros H. unfold FileSystem.entryName.
  change (String "/" name) with ("/" +:+ name).
  by rewrite <- append_assoc, stripPrefix_app, H.
Qed.

Lemma entryName_Some d p name :
  FileSystem.entryName d p = Some name ->
  p = d +:+ String "/" name /\ fileName p = name.
Proof.
  unfold FileSystem.entryName.
  destruct (FileSystem.stripPrefix _ p) as [n|] eqn:E; [|done].
  destruct (contains_char "/" n) eqn:C; [done |]. intros [= <-].
  apply stripPrefix_Some in E. rewrite append_assoc in E.
  change ("/" +:+ n) with (String "/" n) in E.
  split; [done |]. unfold fileName. by rewrite E, afterLast_entry.
Qed.

Lemma toLower_app a b : toLower (a +:+ b) = toLower a +:+ toLower b.
Proof.
  induction a as [|x a IH]; [done |].
  rewrite app_cons. cbn. by rewrite IH.
Qed.

Lemma startsWith_app p r : startsWith p (p +:+ r) = true.
Proof.
  induction p as [|x p IH]; rewrite ?app_cons, ?app_empty; cbn;
    [by destruct r |].
  by rewrite Ascii.eqb_refl.
Qed.

Lemma anyText_matches_all name : QDir.matchTokens [QDir.AnyText] name = true.
Proof. induction name as [|c name IH]; [done |]. cbn in *. exact IH. Qed.

(** A filter made of a text without wildcards and a final [*] matches
    the names that start with the text, without regard to case. *)
Lemma scan_wildcardFree lit :
  wildcardFree lit = true ->
  exists p, QDir.scan QDir.Outside (lit +:+ "*") = Some p
            /\ forall name, QDir.matchTokens p name
                            = startsWith (toLower lit) (toLower name).
Proof.
  unfold wildcardFree. induction lit as [|x lit IH]; intros Hfree.
  - exists [QDir.AnyText]. split; [done |]. intros name.
    rewrite anyText_matches_all. by destruct name.
  - cbn [contains_char] in Hfree. rewrite app_cons. cbn [QDir.scan].
    destruct (Ascii.eqb x "*"); [done |].
    destruct (Ascii.eqb x "?"); [by rewrite andb_false_r in Hfree |].
    destruct (Ascii.eqb x "["); [by rewrite andb_false_r in Hfree |].
    cbn [orb] in Hfree. destruct (IH Hfree) as (p & -> & Hp).
    exists (QDir.Lit x :: p). split; [done |].
    intros [|c name]; [done |]. cbn. by rewrite Hp.
Qed.

Lemma matches_wildcardFree lit name :
  wildcardFree lit = true ->
  QDir.matches (lit +:+ "*") name = startsWith (toLower lit) (toLower name).
Proof.
  intros H. unfold QDir.matches.
  by destruct (scan_wildcardFree lit H) as (p & -> & ->).
Qed.

Lemma wildcardFree_app a b :
  wildcardFree (a +:+ b) = wildcardFree a && wildcardFree b.
Proof.
  unfold wildcardFree. rewrite !contains_char_app.
  by destruct (contains_char "*" a), (contains_char "?" a), (contains_char "[" a),
    (contains_char "*" b), (contains_char "?" b), (contains_char "[" b).
Qed.

Lemma foldCase_dot x : foldCase x = "."%char -> x = "."%char.
Proof.
  destruct x as [[] [] [] [] [] [] [] []]; vm_compute; intros H;
    first [reflexivity | discriminate H].
Qed.

(** A name that starts, without regard to case, with a text that does
    not start with a dot is not the name of a hidden file. *)
Lemma not_hidden prefix name :
  prefix <> "" -> startsWith "." prefix = false ->
  startsWith (toLower prefix) (toLower name) = true ->
  startsWith "." name = false.
Proof.
  destruct prefix as [|x prefix]; [done |]. intros _.
  destruct name as [|y name]; [done |]. cbn [startsWith toLower].
  rewrite !andb_true_r. intros Hx Hxy.
  apply andb_true_iff in Hxy as [Hxy _]. apply Ascii.eqb_eq in Hxy.
  destruct (Ascii.eqb_spec "." y) as [<- |]; [|done].
  apply foldCase_dot in Hxy. subst x. by rewrite Ascii.eqb_refl in Hx.
Qed.

Lemma baseName_not_hidden p r :
  r <> "" -> startsWith "." r = false ->
  baseName p +:+ r <> "" /\ startsWith "." (baseName p +:+ r) = false.
Proof.
  intros Hr Hdot. unfold baseName.
  destruct (fileName p) as [|x s]; cbn [beforeFirst].
  - by rewrite app_empty.
  - destruct (Ascii.eqb_spec x ".") as [-> | Hx]; [by rewrite app_empty |].
    rewrite app_cons. split; [done |]. cbn [startsWith].
    rewrite andb_true_r. destruct (Ascii.eqb_spec "." x); congruence.
Qed.

(** For a database whose base name has no wildcard, the filter of the
    rotation lists the names that start with the base name and
    [_backup_]. *)
Lemma listed_backupFilter dir p e :
  wildcardFree (baseName p) = true ->
  FileSystem.listed dir (DatabaseManager.backupFilter p) e
  = match FileSystem.entryName dir e.1 with
    | Some name =>
        startsWith (toLower (baseName p +:+ "_backup_")) (toLower name)
    | None => false
    end.
Proof.
  intros Hfree. unfold FileSystem.listed, DatabaseManager.backupFilter.
  destruct (FileSystem.entryName dir e.1) as [name|]; [|done].
  change "_backup_*" with ("_backup_" +:+ "*").
  rewrite <- append_assoc, matches_wildcardFree
    by (rewrite wildcardFree_app, Hfree; reflexivity).
  destruct (startsWith (toLower _) (toLower name)) eqn:E;
    [|by rewrite andb_false_r].
  destruct (baseName_not_hidden p "_backup_") as [Hne Hdot]; [done | done |].
  by rewrite (not_hidden _ name Hne Hdot E).
Qed.

(** The path [createBackup] derives lies next to the database file and,
    when the base name has no wildcard, its name passes the filter of the
    rotation. *)
Lemma backupPathFor_dir p now :
  absolutePath (DatabaseManager.backupPathFor p now) = absolutePath p.
Proof.
  unfold DatabaseManager.backupPathFor.
  set (name := baseName p +:+ "_backup_" +:+ QDateTime.toString_backupStamp now
               +:+ "." +:+ suffix p).
  assert (contains_char "/" name = false) as Hname.
  { unfold name. rewrite !contains_char_app.
    by rewrite baseName_no_slash, backupStamp_no_slash, suffix_no_slash. }
  change ("/" +:+ name) with (String "/" name).
  unfold absolutePath at 1. by rewrite beforeLast_entry.
Qed.

Lemma backupPathFor_listed p now f :
  wildcardFree (baseName p) = true ->
  absolutePath (DatabaseManager.backupPathFor p now) = absolutePath p
  /\ FileSystem.listed (absolutePath p) (DatabaseManager.backupFilter p)
       (DatabaseManager.backupPathFor p now, f) = true.
Proof.
  intros Hfree. split; [apply backupPathFor_dir |].
  rewrite listed_backupFilter by done.
  unfold DatabaseManager.backupPathFor.
  set (name := baseName p +:+ "_backup_" +:+ QDateTime.toString_backupStamp now
               +:+ "." +:+ suffix p).
  assert (contains_char "/" name = false) as Hname.
  { unfold name. rewrite !contains_char_app.
    by rewrite baseName_no_slash, backupStamp_no_slash, suffix_no_slash. }
  change ("/" +:+ name) with (String "/" name).
  cbn [fst]. rewrite entryName_entry by done.
  unfold name. rewrite <- (append_assoc (baseName p) "_backup_").
  by rewrite (toLower_app (baseName p +:+ "_backup_")), startsWith_app.
Qed.

End PathText.

Section BackupNames.
Import QString QFileInfo QDateTime.

Lemma pad2_inj n m r r' :
  0 <= n <= 99 -> 0 <= m <= 99 -> pad2 n r = pad2 m r' -> n = m /\ r = r'.
Proof.
  unfold pad2. intros Hn Hm [= H1 H2 H3].
  apply (f_equal digitValue) in H1, H2.
  rewrite !digitValue_digitChar in H1, H2 by (Z.div_mod_to_equations; lia).
  injection H1 as H1. injection H2 as H2.
  split; [|done]. Z.div_mod_to_equations; lia.
Qed.

Lemma pad4_inj n m r r' :
  0 <= n <= 9999 -> 0 <= m <= 9999 -> pad4 n r = pad4 m r' -> n = m /\ r = r'.
Proof.
  unfold pad4, pad2. intros Hn Hm [= H1 H2 H3 H4 H5].
  apply (f_equal digitValue) in H1, H2, H3, H4.
  rewrite !digitValue_digitChar in H1, H2, H3, H4 by (Z.div_mod_to_equations; lia).
  injection H1 as H1. injection H2 as H2. injection H3 as H3. injection H4 as H4.
  split; [|done]. Z.div_mod_to_equations; lia.
Qed.

Lemma string_tail_inj c d (a b : string) : String c a = String d b -> a = b.
Proof. by intros [= _ ->]. Qed.

Lemma backupStamp_app f rest :
  toString_backupStamp f +:+ rest
  = pad4 (year f) (pad2 (month f) (pad2 (day f)
      (String "_" (pad2 (hour f) (pad2 (minute f) (pad2 (second f) rest)))))).
Proof. reflexivity. Qed.

(** Backups made in different seconds get different stamps. *)
Lemma backupStamp_inj f g r r' :
  in_range f = true -> in_range g = true ->
  toString_backupStamp f +:+ r = toString_backupStamp g +:+ r' ->
  toSecs f = toSecs g.
Proof.
  intros Hf Hg. apply in_range_bounds in Hf, Hg.
  rewrite !backupStamp_app. intros H.
  apply pad4_inj in H as [Hy H]; [|lia|lia].
  apply pad2_inj in H as [Hmo H]; [|lia|lia].
  apply pad2_inj in H as [Hd H]; [|lia|lia].
  apply string_tail_inj in H.
  apply pad2_inj in H as [Hh H]; [|lia|lia].
  apply pad2_inj in H as [Hmi H]; [|lia|lia].
  apply pad2_inj in H as [Hs H]; [|lia|lia].
  unfold toSecs. by rewrite Hy, Hmo, Hd, Hh, Hmi, Hs.
Qed.

Lemma backupPathFor_inj p f g :
  in_range f = true -> in_range g = true ->
  DatabaseManager.backupPathFor p f = DatabaseManager.backupPathFor p g ->
  toSecs f = toSecs g.
Proof.
  intros Hf Hg H. unfold DatabaseManager.backupPathFor in H.
  do 4 apply String.app_inj in H.
  exact (backupStamp_inj f g _ _ Hf Hg H).
Qed.

Lemma backupPathFor_nonempty p now : DatabaseManager.backupPathFor p now <> "".
Proof.
  unfold DatabaseManager.backupPathFor. by destruct (absolutePath p).
Qed.

Lemma own_name_no_backup s :
  startsWith (toLower (beforeFirst "." s +:+ "_backup_")) (toLower s) = false.
Proof.
  induction s as [|x s IH]; [done |]. cbn [beforeFirst].
  destruct (Ascii.eqb_spec x ".") as [-> | Hx]; [done |].
  rewrite app_cons. cbn [toLower startsWith].
  by rewrite Ascii.eqb_refl, IH.
Qed.

(** The database file itself is not one of its backups, in whatever
    directory they are listed, when its base name has no wildcard. *)
Lemma database_not_listed dir p f :
  wildcardFree (baseName p) = true ->
  FileSystem.listed dir (DatabaseManager.backupFilter p) (p, f) = false.
Proof.
  intros Hfree. rewrite listed_backupFilter by done. cbn [fst].
  destruct (FileSystem.entryName dir p) as [name|] eqn:E; [|done].
  apply entryName_Some in E as [_ <-].
  apply own_name_no_backup.
Qed.

End BackupNames.

Section BackupRotation.
Import FileSystem DatabaseManager.

Variables dir nameFilter : string.

Local Abbreviation is_listed :=
  (fun e : string * file => listed dir nameFilter e = true).

Lemma listed_same_name (e1 e2 : string * file) :
  listed dir nameFilter e1 = true -> listed dir nameFilter e2 = true ->
  QFileInfo.fileName e1.1 = QFileInfo.fileName e2.1 -> e1.1 = e2.1.
Proof.
  unfold listed. intros H1 H2 E.
  destruct (entryName dir e1.1) as [n1|] eqn:E1; [|done].
  destruct (entryName dir e2.1) as [n2|] eqn:E2; [|done].
  apply entryName_Some in E1 as [P1 F1]. apply entryName_Some in E2 as [P2 F2].
  rewrite F1, F2 in E. by rewrite P1, P2, E.
Qed.

(** The listing is the only newest-first arrangement of the listed
    files. *)
Lemma entryInfoList_unique fs (l : list (string * file)) :
  StronglySorted newerFirst l ->
  l ≡ₚ filter is_listed (map_to_list fs) ->
  l = entryInfoList dir nameFilter fs.
Proof.
  intros Hs Hp.
  apply (StronglySorted_unique_strong newerFirst); [| done | |].
  - intros x1 x2 H1 H2 R12 R21.
    rewrite Hp in H1. rewrite entryInfoList_perm in H2.
    apply list_elem_of_filter in H1 as [L1 M1].
    apply list_elem_of_filter in H2 as [L2 M2].
    apply newerFirst_cases in R12, R21.
    assert (x1.1 = x2.1) as Hpath.
    { apply listed_same_name; [done | done |].
      apply String.leb_antisym; [destruct R12 as [? | [_ ?]]
                                | destruct R21 as [? | [_ ?]]]; try done; lia. }
    destruct x1 as [p1 f1], x2 as [p2 f2]. cbn in Hpath. subst p2.
    apply elem_of_map_to_list in M1, M2. congruence.
  - apply entryInfoList_sorted.
  - by rewrite entryInfoList_perm.
Qed.

(** A new file that is newer than every listed one goes to the front. *)
Lemma entryInfoList_insert fs path f :
  fs !! path = None ->
  listed dir nameFilter (path, f) = true ->
  Forall (fun e => lastModified e.2 < lastModified f) (entryInfoList dir nameFilter fs) ->
  entryInfoList dir nameFilter (<[path := f]> fs)
  = (path, f) :: entryInfoList dir nameFilter fs.
Proof.
  intros Hfresh Hl Hnew. symmetry. apply entryInfoList_unique.
  - apply SSorted_cons; [apply entryInfoList_sorted |].
    eapply Forall_impl; [exact Hnew |].
    intros e He. apply newerFirst_cases. by left.
  - rewrite map_to_list_insert by done.
    rewrite filter_cons_True by done.
    by rewrite entryInfoList_perm.
Qed.

Lemma takeLast_Some {A} (l rest : list A) (x : A) :
  takeLast l = Some (rest, x) -> l = rest ++ [x].
Proof.
  unfold takeLast. destruct (rev l) as [|y r] eqn:E; [done |].
  intros [= <- <-]. rewrite <- (rev_involutive l), E. reflexivity.
Qed.

Lemma takeLast_None {A} (l : list A) : takeLast l = None -> l = [].
Proof.
  unfold takeLast. destruct (rev l) as [|y r] eqn:E; [|done].
  intros _. by rewrite <- (rev_involutive l), E.
Qed.

(** The rotation loop, when the removals succeed, removes the tail of the
    newest-first listing, oldest file first, and leaves its first
    [MAX_BACKUP_COUNT] entries. *)
Lemma removeOldBackups_spec : forall fuel backups fs,
  (length backups - MAX_BACKUP_COUNT <= fuel)%nat ->
  StronglySorted newerFirst backups ->
  backups ≡ₚ filter is_listed (map_to_list fs) ->
  entryInfoList dir nameFilter (removeOldBackups true fuel backups fs).2
  = take MAX_BACKUP_COUNT backups
  /\ (removeOldBackups true fuel backups fs).1
     = (reverse (drop MAX_BACKUP_COUNT backups)).*1.
Proof.
  assert (forall backups fs, (length backups <= MAX_BACKUP_COUNT)%nat ->
            StronglySorted newerFirst backups ->
            backups ≡ₚ filter is_listed (map_to_list fs) ->
            entryInfoList dir nameFilter fs = take MAX_BACKUP_COUNT backups
            /\ @nil string = (reverse (drop MAX_BACKUP_COUNT backups)).*1) as Hdone.
  { intros backups fs Hlen Hs Hp.
    rewrite take_ge, drop_ge by done. split; [|done].
    symmetry. by apply entryInfoList_unique. }
  induction fuel as [|fuel IH]; intros backups fs Hfuel Hs Hp.
  - cbn. apply Hdone; [lia | done | done].
  - cbn [removeOldBackups].
    destruct (Nat.ltb_spec MAX_BACKUP_COUNT (length backups)) as [Hmore | Hfew];
      [|by apply Hdone].
    destruct (takeLast backups) as [[rest last]|] eqn:Et.
    + apply takeLast_Some in Et. subst backups.
      rewrite length_app in Hmore, Hfuel. cbn in Hmore, Hfuel.
      assert (last ∈ filter is_listed (map_to_list fs)) as Hin.
      { rewrite <- Hp. apply elem_of_app. right. apply list_elem_of_singleton. done. }
      apply list_elem_of_filter in Hin as [Hl Hm].
      destruct last as [k x]. apply elem_of_map_to_list in Hm. cbn [fst snd].
      specialize (IH rest (delete k fs)).
      destruct (removeOldBackups true fuel rest (delete k fs)) as [removed fs'].
      cbn [fst snd] in *.
      destruct IH as [IH1 IH2].
      * lia.
      * by apply StronglySorted_app_1_l in Hs.
      * apply (Permutation_cons_inv (a := (k, x))).
        rewrite <- filter_cons_True by done.
        rewrite (map_to_list_delete fs k x) by done.
        rewrite <- Hp. by rewrite Permutation_app_comm.
      * rewrite take_app_le, drop_app_le by (unfold MAX_BACKUP_COUNT in *; lia).
        rewrite reverse_app, IH1, IH2. done.
    + apply takeLast_None in Et. subst. cbn in Hmore. unfold MAX_BACKUP_COUNT in *. lia.
Qed.

End BackupRotation.

Section SixBackups.
Import FileSystem DatabaseManager.

(** The rotation calls [QFile::remove] on the old end of the listing it
    is given, oldest entry first, whether or not the removals succeed. *)
Lemma removeOldBackups_order ok : forall fuel backups files,
  (length backups <= fuel)%nat ->
  (removeOldBackups ok fuel backups files).1
  = (reverse (drop MAX_BACKUP_COUNT backups)).*1.
Proof.
  induction fuel as [|fuel IH]; intros backups files Hfuel; cbn [removeOldBackups].
  - destruct backups; [done | cbn in Hfuel; lia].
  - destruct (Nat.ltb_spec MAX_BACKUP_COUNT (length backups)) as [Hmore | Hfew];
      [|by rewrite drop_ge].
    destruct (takeLast backups) as [[rest last]|] eqn:Et.
    + apply takeLast_Some in Et. subst backups.
      rewrite length_app in Hmore, Hfuel. cbn in Hmore, Hfuel.
      specialize (IH rest (if ok then delete last.1 files else files)).
      destruct (removeOldBackups ok fuel rest _) as [removed fs'].
      cbn [fst snd] in *.
      rewrite drop_app_le by (unfold MAX_BACKUP_COUNT in *; lia).
      rewrite reverse_app. cbn. f_equal. apply IH. lia.
    + apply takeLast_None in Et. subst. cbn in Hmore.
      unfold MAX_BACKUP_COUNT in *. lia.
Qed.

(** The rotation touches nothing but the files it was given. *)
Lemma removeOldBackups_keeps ok q : forall fuel backups files,
  (forall e, e ∈ backups -> e.1 <> q) ->
  (removeOldBackups ok fuel backups files).2 !! q = files !! q.
Proof.
  induction fuel as [|fuel IH]; intros backups files Hq; cbn [removeOldBackups];
    [done |].
  destruct (_ <? _)%nat; [|done].
  destruct (takeLast backups) as [[rest last]|] eqn:Et; [|done].
  apply takeLast_Some in Et. subst backups.
  specialize (IH rest (if ok then delete last.1 files else files)).
  destruct (removeOldBackups ok fuel rest _) as [removed fs'].
  cbn [fst snd] in *. rewrite IH.
  - destruct ok; [|done].
    apply lookup_delete_ne, Hq, elem_of_app. right. by apply list_elem_of_singleton.
  - intros e He. apply Hq, elem_of_app. by left.
Qed.

Lemma removeOldBackups_adds_nothing ok q : forall fuel backups files,
  files !! q = None -> (removeOldBackups ok fuel backups files).2 !! q = None.
Proof.
  induction fuel as [|fuel IH]; intros backups files Hq; cbn [removeOldBackups];
    [done |].
  destruct (_ <? _)%nat; [|done].
  destruct (takeLast backups) as [[rest last]|] eqn:Et; [|done].
  specialize (IH rest (if ok then delete last.1 files else files)).
  destruct (removeOldBackups ok fuel rest _) as [removed fs'].
  cbn [fst snd] in *. apply IH. destruct ok; [|done].
  destruct (decide (last.1 = q)) as [-> | Hne];
    [apply lookup_delete_eq | by rewrite lookup_delete_ne].
Qed.

(** When every removal is refused the rotation leaves the files as they
    are. *)
Lemma removeOldBackups_refused : forall fuel backups files,
  (removeOldBackups false fuel backups files).2 = files.
Proof.
  induction fuel as [|fuel IH]; intros backups files; cbn [removeOldBackups];
    [done |].
  destruct (_ <? _)%nat; [|done].
  destruct (takeLast backups) as [[rest last]|]; [|done].
  specialize (IH rest files).
  by destruct (removeOldBackups false fuel rest files) as [removed fs'].
Qed.

(** One successful [createBackup()] for a database whose base name has no
    wildcard, when the removals succeed: the listing afterwards is the
    listing with the new backup, cut to [MAX_BACKUP_COUNT] entries. *)
Lemma createBackup_listing io now fs db :
  wildcardFree (QFileInfo.baseName (m_databasePath db)) = true ->
  Io.removeOk io = true ->
  (createBackup "" io now fs db).1.1 <> "" ->
  (createBackup "" io now fs db).1.1 = backupPathFor (m_databasePath db) now
  /\ m_databasePath (createBackup "" io now fs db).1.2 = m_databasePath db
  /\ exists f,
       lastModified f = QDateTime.toMSecs now
       /\ fs !! backupPathFor (m_databasePath db) now = None
       /\ backupFiles db (createBackup "" io now fs db).2
          = take MAX_BACKUP_COUNT
              (backupFiles db (<[backupPathFor (m_databasePath db) now := f]> fs)).
Proof.
  intros Hfree Hremove.
  unfold createBackup, backupsIn, backupFiles. rewrite Hremove.
  destruct (m_initialized db); cbn [negb QString.isEmpty fst snd]; [|done].
  destruct (exists_ _ _); [|done].
  unfold copy.
  destruct (fs !! m_databasePath db) as [f0|]; [|done].
  destruct (fs !! backupPathFor _ _) eqn:Hfresh; [done |].
  destruct (Io.copyOk io); [|done].
  intros _.
  set (dest := backupPathFor (m_databasePath db) now) in *.
  set (f := mkFile (data f0) (QDateTime.toMSecs now) (ownerOnly f0)).
  assert (QFileInfo.absolutePath dest = QFileInfo.absolutePath (m_databasePath db))
    as Hdir by apply backupPathFor_dir.
  rewrite Hdir.
  set (backups := entryInfoList _ _ (<[dest := f]> fs)).
  pose proof (removeOldBackups_spec
                (QFileInfo.absolutePath (m_databasePath db))
                (backupFilter (m_databasePath db))
                (length backups) backups (<[dest := f]> fs)) as Hloop.
  destruct (removeOldBackups _ _ _ _) as [removed fs2]. cbn [fst snd] in *.
  split; [done |]. split; [done |]. exists f. split; [done |]. split; [done |].
  apply Hloop.
  - lia.
  - apply entryInfoList_sorted.
  - apply entryInfoList_perm.
Qed.

(** Such a call leaves one backup more than before, and never more than
    [MAX_BACKUP_COUNT]. *)
Lemma createBackup_count io now fs db :
  wildcardFree (QFileInfo.baseName (m_databasePath db)) = true ->
  Io.removeOk io = true ->
  (createBackup "" io now fs db).1.1 <> "" ->
  m_databasePath (createBackup "" io now fs db).1.2 = m_databasePath db
  /\ length (backupFiles db (createBackup "" io now fs db).2)
     = Nat.min MAX_BACKUP_COUNT (S (length (backupFiles db fs))).
Proof.
  intros Hfree Hremove Hok.
  destruct (createBackup_listing io now fs db Hfree Hremove Hok)
    as (_ & Hpath & f & _ & Hfresh & ->).
  split; [done |]. rewrite length_take. f_equal.
  unfold backupFiles. rewrite !entryInfoList_perm.
  rewrite map_to_list_insert by done.
  rewrite filter_cons_True; [done |].
  by destruct (backupPathFor_listed (m_databasePath db) now f Hfree) as [_ ?].
Qed.

(** Calls that each return a path leave as many backups as there were
    and were made, up to [MAX_BACKUP_COUNT]. *)
Lemma createBackups_count io : forall times t fs db,
  wildcardFree (QFileInfo.baseName (m_databasePath db)) = true ->
  Io.removeOk io = true ->
  Forall (fun path => path <> "") (createBackups (t :: times) io fs db).1.1 ->
  length (backupFiles db (createBackups (t :: times) io fs db).2)
  = Nat.min MAX_BACKUP_COUNT (S (length times) + length (backupFiles db fs)).
Proof.
  induction times as [|t' times IH]; intros t fs db Hfree Hremove Hok.
  - cbn [createBackups] in *.
    pose proof (createBackup_count io t fs db Hfree Hremove) as Hstep.
    destruct (createBackup "" io t fs db) as [[p1 db1] fs1]. cbn [fst snd] in *.
    apply Forall_cons in Hok as [Hp _]. by destruct (Hstep Hp) as [_ ->].
  - change (createBackups (t :: t' :: times) io fs db)
      with (let '(path, db1, fs1) := createBackup "" io t fs db in
            let '(paths, db2, fs2) := createBackups (t' :: times) io fs1 db1 in
            (path :: paths, db2, fs2)) in *.
    pose proof (createBackup_count io t fs db Hfree Hremove) as Hstep.
    destruct (createBackup "" io t fs db) as [[p1 db1] fs1]. cbn [fst snd] in *.
    specialize (IH t' fs1 db1).
    destruct (createBackups (t' :: times) io fs1 db1) as [[ps db2] fs2].
    cbn [fst snd] in *.
    apply Forall_cons in Hok as [Hp Hok].
    destruct (Hstep Hp) as [Hpath Hlen].
    unfold backupFiles in *. rewrite Hpath in IH.
    rewrite IH, Hlen by done. cbn [length]. unfold MAX_BACKUP_COUNT. lia.
Qed.

(** One successful [createBackup()], made later than every backup on
    disk: the new backup heads the listing, which is cut to
    [MAX_BACKUP_COUNT] entries. *)
Lemma createBackup_step io now fs db :
  wildcardFree (QFileInfo.baseName (m_databasePath db)) = true ->
  Io.removeOk io = true ->
  (createBackup "" io now fs db).1.1 <> "" ->
  Forall (fun e => lastModified e.2 < QDateTime.toMSecs now) (backupFiles db fs) ->
  (createBackup "" io now fs db).1.1 = backupPathFor (m_databasePath db) now
  /\ m_databasePath (createBackup "" io now fs db).1.2 = m_databasePath db
  /\ exists f,
       lastModified f = QDateTime.toMSecs now
       /\ backupFiles db (createBackup "" io now fs db).2
          = take MAX_BACKUP_COUNT
              ((backupPathFor (m_databasePath db) now, f) :: backupFiles db fs).
Proof.
  intros Hfree Hremove Hok Hnew.
  destruct (createBackup_listing io now fs db Hfree Hremove Hok)
    as (Hp & Hpath & f & Hf & Hfresh & Hl).
  split; [done |]. split; [done |]. exists f. split; [done |].
  rewrite Hl. f_equal. unfold backupFiles in *.
  apply entryInfoList_insert; [done | | by rewrite Hf].
  by destruct (backupPathFor_listed (m_databasePath db) now f Hfree) as [_ ?].
Qed.

Lemma older_after_step (t t' : Z) e (l : list (string * file)) :
  t < t' -> lastModified e.2 = t ->
  Forall (fun e => lastModified e.2 < t) l ->
  Forall (fun e => lastModified e.2 < t') (take MAX_BACKUP_COUNT (e :: l)).
Proof.
  intros Ht He Hl. apply Forall_take, Forall_cons. split; [lia |].
  eapply Forall_impl; [exact Hl |]. cbn. intros; lia.
Qed.

(** Six calls of [createBackup()] that each return a path, made at
    increasing times later than every backup already on disk, leave
    the backups of the last five calls, newest first. *)
Lemma six_returned_backups_leave_the_latest_five
    (io : Io.t) (fs : FileSystem.t) (db : t) (t1 t2 t3 t4 t5 t6 : QDateTime.fields) :
  let run := createBackups [t1; t2; t3; t4; t5; t6] io fs db in
  wildcardFree (QFileInfo.baseName (m_databasePath db)) = true ->
  Io.removeOk io = true ->
  Forall (fun path => path <> "") run.1.1 ->
  QDateTime.toMSecs t1 < QDateTime.toMSecs t2 ->
  QDateTime.toMSecs t2 < QDateTime.toMSecs t3 ->
  QDateTime.toMSecs t3 < QDateTime.toMSecs t4 ->
  QDateTime.toMSecs t4 < QDateTime.toMSecs t5 ->
  QDateTime.toMSecs t5 < QDateTime.toMSecs t6 ->
  Forall (fun e => lastModified e.2 < QDateTime.toMSecs t1) (backupFiles db fs) ->
  (backupFiles db run.2).*1 = reverse (drop 1 run.1.1)
  /\ map (fun e => lastModified e.2) (backupFiles db run.2)
     = map QDateTime.toMSecs [t6; t5; t4; t3; t2].
Proof.
  cbv zeta. cbn [createBackups].
  intros Hfree Hremove Hok H12 H23 H34 H45 H56 Hold.
  pose proof (createBackup_step io t1 fs db) as S1.
  destruct (createBackup "" io t1 fs db) as [[p1 db1] fs1].
  pose proof (createBackup_step io t2 fs1 db1) as S2.
  destruct (createBackup "" io t2 fs1 db1) as [[p2 db2] fs2].
  pose proof (createBackup_step io t3 fs2 db2) as S3.
  destruct (createBackup "" io t3 fs2 db2) as [[p3 db3] fs3].
  pose proof (createBackup_step io t4 fs3 db3) as S4.
  destruct (createBackup "" io t4 fs3 db3) as [[p4 db4] fs4].
  pose proof (createBackup_step io t5 fs4 db4) as S5.
  destruct (createBackup "" io t5 fs4 db4) as [[p5 db5] fs5].
  pose proof (createBackup_step io t6 fs5 db5) as S6.
  destruct (createBackup "" io t6 fs5 db5) as [[p6 db6] fs6].
  cbn [fst snd] in *.
  repeat (apply Forall_cons in Hok as [? Hok]).
  unfold backupFiles in *.
  destruct S1 as (-> & E1 & f1 & M1 & L1); [done | done | done | done |].
  rewrite E1 in *.
  assert (Forall (fun e => lastModified e.2 < QDateTime.toMSecs t2)
            (entryInfoList (QFileInfo.absolutePath (m_databasePath db))
               (backupFilter (m_databasePath db)) fs1)) as F1.
  { rewrite L1. by apply (older_after_step (QDateTime.toMSecs t1)). }
  destruct S2 as (-> & E2 & f2 & M2 & L2); [done | done | done | done |].
  rewrite E2 in *.
  assert (Forall (fun e => lastModified e.2 < QDateTime.toMSecs t3)
            (entryInfoList (QFileInfo.absolutePath (m_databasePath db))
               (backupFilter (m_databasePath db)) fs2)) as F2.
  { rewrite L2. by apply (older_after_step (QDateTime.toMSecs t2)). }
  destruct S3 as (-> & E3 & f3 & M3 & L3); [done | done | done | done |].
  rewrite E3 in *.
  assert (Forall (fun e => lastModified e.2 < QDateTime.toMSecs t4)
            (entryInfoList (QFileInfo.absolutePath (m_databasePath db))
               (backupFilter (m_databasePath db)) fs3)) as F3.
  { rewrite L3. by apply (older_after_step (QDateTime.toMSecs t3)). }
  destruct S4 as (-> & E4 & f4 & M4 & L4); [done | done | done | done |].
  rewrite E4 in *.
  assert (Forall (fun e => lastModified e.2 < QDateTime.toMSecs t5)
            (entryInfoList (QFileInfo.absolutePath (m_databasePath db))
               (backupFilter (m_databasePath db)) fs4)) as F4.
  { rewrite L4. by apply (older_after_step (QDateTime.toMSecs t4)). }
  destruct S5 as (-> & E5 & f5 & M5 & L5); [done | done | done | done |].
  rewrite E5 in *.
  assert (Forall (fun e => lastModified e.2 < QDateTime.toMSecs t6)
            (entryInfoList (QFileInfo.absolutePath (m_databasePath db))
               (backupFilter (m_databasePath db)) fs5)) as F5.
  { rewrite L5. by apply (older_after_step (QDateTime.toMSecs t5)). }
  destruct S6 as (-> & E6 & f6 & M6 & L6); [done | done | done | done |].
  rewrite L6, L5, L4, L3, L2, L1. cbn [take MAX_BACKUP_COUNT].
  split; [done |]. cbn. by rewrite M2, M3, M4, M5, M6.
Qed.

(** [createBackup()] succeeds on an initialised store whose database file
    exists, when the copy can be written and the name it derives is free.
    No file appears other than the backup, and the database file stays
    when its base name has no wildcard. *)
Lemma createBackup_succeeds io now fs db f0 :
  m_initialized db = true ->
  fs !! m_databasePath db = Some f0 ->
  fs !! backupPathFor (m_databasePath db) now = None ->
  Io.copyOk io = true ->
  (createBackup "" io now fs db).1.1 = backupPathFor (m_databasePath db) now
  /\ m_initialized (createBackup "" io now fs db).1.2 = true
  /\ m_databasePath (createBackup "" io now fs db).1.2 = m_databasePath db
  /\ (wildcardFree (QFileInfo.baseName (m_databasePath db)) = true ->
      (createBackup "" io now fs db).2 !! m_databasePath db = Some f0)
  /\ (forall q, q <> backupPathFor (m_databasePath db) now -> fs !! q = None ->
        (createBackup "" io now fs db).2 !! q = None).
Proof.
  intros Hinit Hdb Hfresh Hcopy.
  unfold createBackup, copy, exists_, backupsIn.
  rewrite Hinit, Hdb, Hcopy. cbn [negb QString.isEmpty]. rewrite Hfresh.
  set (dest := backupPathFor (m_databasePath db) now) in *.
  set (f := mkFile (data f0) (QDateTime.toMSecs now) (ownerOnly f0)).
  set (backups := entryInfoList _ _ _).
  pose proof (removeOldBackups_keeps (Io.removeOk io) (m_databasePath db)
                (length backups) backups (<[dest := f]> fs)) as Hkeep.
  pose proof (fun q => removeOldBackups_adds_nothing (Io.removeOk io) q
                         (length backups) backups (<[dest := f]> fs)) as Hnone.
  destruct (removeOldBackups _ _ _ _) as [removed fs2]. cbn [fst snd] in *.
  assert (dest <> m_databasePath db) as Hne by (intros E; congruence).
  repeat split; try done.
  - intros Hfree. rewrite Hkeep; [by rewrite lookup_insert_ne |].
    intros [q g] He E. cbn in E. subst q.
    unfold backups in He. rewrite entryInfoList_perm in He.
    apply list_elem_of_filter in He as [Hl _].
    by rewrite database_not_listed in Hl.
  - intros q Hq Hfs. apply Hnone. by rewrite lookup_insert_ne.
Qed.

(** Calls whose derived names are all different and all free succeed one
    after the other. *)
Lemma createBackups_all_succeed io : forall times fs db f0,
  m_initialized db = true ->
  fs !! m_databasePath db = Some f0 ->
  wildcardFree (QFileInfo.baseName (m_databasePath db)) = true ->
  Io.copyOk io = true ->
  NoDup (map (backupPathFor (m_databasePath db)) times) ->
  Forall (fun t => fs !! backupPathFor (m_databasePath db) t = None) times ->
  (createBackups times io fs db).1.1 = map (backupPathFor (m_databasePath db)) times.
Proof.
  induction times as [|t times IH]; intros fs db f0 Hinit Hdb Hplain Hcopy Hnd Hfree;
    [done |].
  cbn [createBackups map] in *.
  apply NoDup_cons in Hnd as [Hnew Hnd].
  apply Forall_cons in Hfree as [Hfresh Hfree].
  destruct (createBackup_succeeds io t fs db f0 Hinit Hdb Hfresh Hcopy)
    as (Hp & Hinit' & Hpath & Hdb' & Hnone).
  specialize (Hdb' Hplain).
  destruct (createBackup "" io t fs db) as [[p1 db1] fs1]. cbn [fst snd] in *.
  specialize (IH fs1 db1 f0 Hinit'). rewrite Hpath in IH.
  destruct (createBackups times io fs1 db1) as [[ps db2] fs2]. cbn [fst snd] in *.
  rewrite Hp. f_equal. apply IH; try done.
  apply Forall_forall. intros t' Ht'.
  apply Hnone; [|by apply (proj1 (Forall_forall _ _) Hfree)].
  intros E. apply Hnew. rewrite <- E. apply list_elem_of_fmap. by exists t'.
Qed.

(** Backups made in different clock seconds get different names. *)
Lemma backupPaths_NoDup p : forall times,
  Forall (fun t => QDateTime.in_range t = true) times ->
  NoDup (map QDateTime.toSecs times) ->
  NoDup (map (backupPathFor p) times).
Proof.
  induction times as [|t times IH]; intros Hrange Hnd; [apply NoDup_nil_2 |].
  cbn [map] in *.
  apply Forall_cons in Hrange as [Ht Hrange].
  apply NoDup_cons in Hnd as [Hnew Hnd].
  apply NoDup_cons. split; [|by apply IH].
  intros Hin. apply Hnew.
  apply list_elem_of_fmap in Hin as (t' & E & Ht').
  apply list_elem_of_fmap. exists t'. split; [|done].
  apply (backupPathFor_inj p); [done | | done].
  by apply (proj1 (Forall_forall _ _) Hrange).
Qed.




(** It fails, too, when the operating system refuses the removals, whose
    result [createBackup] does not look at: six calls in six successive
    seconds then leave six backups. *)
Lemma six_backups_with_refused_removals_leave_six :
  let run := createBackups sixSeconds removalRefused sampleFiles sampleStore in
  Forall (fun path => path <> "") run.1.1
  /\ length (backupFiles sampleStore run.2) = 6%nat.
Proof.
  vm_compute. split; [|reflexivity].
  repeat (apply Forall_cons; split; [discriminate |]). apply Forall_nil_2.
Qed.

(** When the copies cannot be written there is no backup at all, and
    when the six names are taken already ([QFile::copy] does not
    overwrite) the six files that were there stay. *)
Lemma six_backups_with_refused_copies_leave_none :
  let run := createBackups sixSeconds copyRefused sampleFiles sampleStore in
  run.1.1 = [""; ""; ""; ""; ""; ""]
  /\ backupFiles sampleStore run.2 = [].
Proof. by vm_compute. Qed.

Lemma six_backups_with_taken_names_leave_six :
  let taken := (createBackups sixSeconds removalRefused sampleFiles sampleStore).2 in
  let run := createBackups sixSeconds Io.allOk taken sampleStore in
  run.1.1 = [""; ""; ""; ""; ""; ""]
  /\ length (backupFiles sampleStore run.2) = 6%nat.
Proof. by vm_compute. Qed.

(** And it fails for a database file whose base name holds a wildcard:
    the filter [dev[1]_backup_*] asks for a name that starts with [dev1],
    so the rotation sees none of the six backups it made and removes
    none. *)
Lemma six_backups_of_a_wildcard_name_leave_six :
  let run := createBackups sixSeconds Io.allOk bracketFiles bracketStore in
  m_initialized bracketStore = true
  /\ exists_ (m_databasePath bracketStore) bracketFiles = true
  /\ Forall (fun path => exists_ path run.2 = true) run.1.1
  /\ NoDup run.1.1
  /\ length run.1.1 = 6%nat
  /\ backupFiles bracketStore run.2 = [].
Proof.
  vm_compute. split; [done |]. split; [done |]. split; [|split; [|done]].
  - repeat (apply Forall_cons; split; [reflexivity |]). apply Forall_nil_2.
  - repeat (apply NoDup_cons; split;
            [rewrite ?elem_of_cons, elem_of_nil; intros H;
             repeat (destruct H as [H | H]); discriminate || done |]).
    apply NoDup_nil_2.
Qed.

End SixBackups.

(* ===================================================================== *)
(** * The integrity hasher *)
(* ===================================================================== *)

Section Hasher.
Import HashWorker.

(** The bound [hashWithMmap] gives its loop is never the reason the loop
    stops. *)
Lemma mmapLoop_enough_fuel os deviceSize : forall fuel n data offset,
  deviceSize - offset <= Z.of_nat fuel * chunkSize ->
  mmapLoop fuel os deviceSize n data offset <> Unfinished.
Proof.
  unfold chunkSize.
  induction fuel as [|fuel IH]; intros n data offset Hfuel; cbn [mmapLoop].
  - destruct (Z.ltb_spec offset deviceSize); [lia | done].
  - destruct (Z.ltb_spec offset deviceSize); [|done].
    destruct (cancelledAt os n); [done |].
    destruct (mapChunk os offset _); [|done].
    apply IH. unfold chunkSize. lia.
Qed.

Lemma chunkCount_enough deviceSize :
  deviceSize - 0 <= Z.of_nat (chunkCount deviceSize) * chunkSize.
Proof.
  unfold chunkCount, chunkSize.
  destruct (Z.le_gt_cases 0 deviceSize).
  - rewrite Z2Nat.id by (Z.div_mod_to_equations; lia).
    Z.div_mod_to_equations; lia.
  - lia.
Qed.

(** The memory-map loop runs to its end, to a cancellation or to a failed
    mapping; it never stops for lack of iterations. *)
Lemma mmapLoop_total os deviceSize :
  mmapLoop (chunkCount deviceSize) os deviceSize 0 "" 0 <> Unfinished.
Proof. apply mmapLoop_enough_fuel, chunkCount_enough. Qed.

Lemma readLoop_total os : forall rs n data total,
  readLoop os rs n data total <> Unfinished.
Proof.
  induction rs as [|[bytes | error] rs IH]; intros n data total; cbn; try done.
  destruct (QString.isEmpty bytes); [done |].
  destruct (cancelledAt os n); [done | apply IH].
Qed.

Variable EVP_Digest : EVP_MD -> string -> string.

(** What the buffered-read path returns for a job that asks for
    XXH3-128: the name it reports, and the result when it succeeds. *)
Lemma hashWithRead_xxh3 os state :
  algorithm (config state) = XXH3_128 ->
  let r := hashWithRead EVP_Digest os state in
  let sha256 data total :=
    HashResult.mk (deviceNode (config state)) (toHex (EVP_Digest EVP_sha256 data))
      "SHA256" total (elapsedMs os) true "" in
  HashResult.algorithm r
  = (if (openDirectOk os || openOk os) && ctxNewOk os then "SHA256" else "XXH3-128")
  /\ (forall data total,
        openDirectOk os || openOk os = true -> ctxNewOk os = true ->
        digestInitOk os = true -> memalignOk os = true ->
        readLoop os (reads os) 0 "" 0 = Finished data total ->
        r = sha256 data total)
  /\ (HashResult.success r = true ->
      exists data total,
        readLoop os (reads os) 0 "" 0 = Finished data total /\ r = sha256 data total).
Proof.
  intros Halg. cbv zeta. unfold hashWithRead. rewrite Halg. cbn [selectDigest].
  destruct (openDirectOk os), (openOk os), (ctxNewOk os); cbn [negb andb orb];
    try (split; [done | split; [done | discriminate]]);
    destruct (digestInitOk os); cbn [negb];
    try (split; [done | split; [done | discriminate]]);
    destruct (memalignOk os); cbn [negb];
    try (split; [done | split; [done | discriminate]]);
    destruct (readLoop os (reads os) 0 "" 0) as [data total| | |];
    try (split; [done | split; [done | discriminate]]);
    (split; [done |]; split;
     [by intros d t _ _ _ _ [= <- <-] | intros _; by exists data, total]).
Qed.

Lemma hashWithMmap_xxh3 os state :
  algorithm (config state) = XXH3_128 ->
  let r := hashWithMmap EVP_Digest os state in
  let deviceSize :=
    if totalBytes state =? 0 then sizeOfDevice os else totalBytes state in
  let sha256 data total :=
    HashResult.mk (deviceNode (config state)) (toHex (EVP_Digest EVP_sha256 data))
      "SHA256" total (elapsedMs os) true "" in
  HashResult.algorithm r
  = (if openOk os && negb (deviceSize =? 0) && ctxNewOk os
     then "SHA256" else "XXH3-128")
  /\ (forall data total,
        openOk os = true -> deviceSize <> 0 -> ctxNewOk os = true ->
        digestInitOk os = true ->
        mmapLoop (chunkCount deviceSize) os deviceSize 0 "" 0 = Finished data total ->
        r = sha256 data total)
  /\ (HashResult.success r = true ->
      exists data total,
        mmapLoop (chunkCount deviceSize) os deviceSize 0 "" 0 = Finished data total
        /\ r = sha256 data total).
Proof.
  intros Halg. unfold hashWithMmap. rewrite Halg. cbn [selectDigest].
  set (deviceSize := if totalBytes state =? 0 then sizeOfDevice os
                     else totalBytes state).
  cbv zeta.
  destruct (openOk os); cbn [negb andb];
    [|split; [done | split; [done | discriminate]]].
  destruct (Z.eqb_spec deviceSize 0) as [Hz | Hz]; cbn [negb andb];
    [split; [done | split; [done | discriminate]] |].
  destruct (ctxNewOk os); cbn [negb];
    [|split; [done | split; [done | discriminate]]].
  destruct (digestInitOk os); cbn [negb];
    [|split; [done | split; [done | discriminate]]].
  destruct (mmapLoop _ os deviceSize 0 "" 0) as [data total| | |];
    try (split; [done | split; [done | discriminate]]).
  split; [done |]. split.
  - by intros d t _ _ _ _ [= <- <-].
  - intros _. by exists data, total.
Qed.


End Hasher.

Section HasherJobs.
Import HashWorker.



(** C6.  When the completion of a job whose cancellation flag is set is
    processed, the only signal emitted is [hashCancelled] (neither
    [hashFailed] nor [hashCompleted], whatever the future holds), and the
    job is no longer in the set of active jobs. *)
Theorem cancelled_job_reports_cancelled
    (w : t) (id : string) (state : JobState) (outcome : FutureOutcome) :
  m_jobs w !! id = Some state ->
  cancelled state = true ->
  (onJobFinished id outcome w).2 = [hashCancelled id]
  /\ m_jobs (onJobFinished id outcome w).1 = delete id (m_jobs w)
  /\ isRunning id (onJobFinished id outcome w).1 = false.
Proof.
  intros Hjob Hc. unfold onJobFinished, isRunning. rewrite Hjob, Hc.
  cbn [fst snd m_jobs]. by rewrite lookup_delete_eq.
Qed.

(** A job cancelled through [cancelHash] has its flag set. *)
Lemma cancelHash_sets_flag w id state :
  m_jobs w !! id = Some state ->
  (cancelHash id w).1 = true
  /\ m_jobs (cancelHash id w).2 !! id = Some (set_cancelled true state).
Proof.
  intros H. unfold cancelHash. rewrite H. cbn. by rewrite lookup_insert_eq.
Qed.

Lemma cancelled_job_witness :
  let w := (cancelHash "hash_1000_1" twoJobsStarted).2 in
  (onJobFinished "hash_1000_1"
     (Returned (hashWithRead sampleDigest healthyOs xxh3State)) w).2
  = [hashCancelled "hash_1000_1"].
Proof.
  cbv zeta.
  apply (cancelled_job_reports_cancelled _ "hash_1000_1"
           (set_cancelled true (mkState "hash_1000_1" xxh3Job false 0 3))).
  - by vm_compute.
  - reflexivity.
Defined.

(** [startHash] hands the job to the thread pool without looking at the
    configured maximum. *)
Lemma startHash_ignores_maxConcurrent job nowMs deviceSize max w :
  globalPool (startHash job nowMs deviceSize (setMaxConcurrent max w)).1.2
  = globalPool (startHash job nowMs deviceSize w).1.2.
Proof. reflexivity. Qed.

(** C4, at the input where it fails.  With the maximum set to one, on a
    machine whose thread pool has four threads, two [startHash] calls
    leave two jobs executing at the same time. *)
Theorem two_jobs_run_despite_maximum_of_one :
  m_maxConcurrent twoJobsStarted = 1
  /\ running (globalPool twoJobsStarted) = ["hash_1000_0"; "hash_1000_1"]
  /\ waiting (globalPool twoJobsStarted) = []
  /\ m_maxConcurrent twoJobsStarted
     < Z.of_nat (length (running (globalPool twoJobsStarted))).
Proof. by vm_compute. Qed.

End HasherJobs.

(* ===================================================================== *)
(** * Orchestration *)
(* ===================================================================== *)

Section Orchestration.
Import MainWindow.

Lemma isEmpty_false s : s <> "" -> QString.isEmpty s = false.
Proof. by destruct s. Qed.

(** Membership in an explicit list of actions. *)
Ltac in_actions :=
  repeat first [rewrite elem_of_app | rewrite elem_of_cons | rewrite elem_of_nil];
  first [by intuition | intuition discriminate].

(** C2.  A hash completes for a connected device that the store knows
    with a non-empty hash [H1], and the fresh hash [H2] differs from [H1]
    without regard to case.  Then the device's card, if it has one, is set
    to [Modified] and the tray is notified of [Modified]; the store emits
    [hashMismatch] with [H1] as expected and [H2] as actual; the alert is
    logged at the security level and shown with the same two hashes; and
    when [blockModifiedDevices] is set no mount is requested and the store
    is left as it was. *)
Theorem modified_device_is_flagged_and_blocked
    (w : t) (jobId deviceNode : string) (info : DeviceInfo.t)
    (record : DeviceRecord.t) (result : HashResult.t)
    (userAccepts : bool) (now : QDateTime.fields) :
  m_hashJobDevices w !! jobId = Some deviceNode ->
  deviceNode <> "" ->
  connected w !! deviceNode = Some info ->
  DatabaseManager.m_devices (m_database w) !! DeviceInfo.uniqueId info = Some record ->
  DeviceRecord.hash record <> "" ->
  ~ equal_ignoring_case (DeviceRecord.hash record) (HashResult.hash result) ->
  let out := onHashCompleted jobId result userAccepts now w in
  (m_status <$> (m_deviceCards out.1 !! deviceNode))
    = ((fun _ => Modified) <$> (m_deviceCards w !! deviceNode))
  /\ notifyVerificationResult (DeviceInfo.displayName info) Modified ∈ out.2
  /\ databaseSignal
       (DatabaseManager.hashMismatch (DeviceInfo.uniqueId info)
          (DeviceRecord.hash record) (HashResult.hash result)) ∈ out.2
  /\ logMessage ("ALERT: " +:+ DeviceInfo.displayName info +:+ " - hash MISMATCH!")
       LSecurity ∈ out.2
  /\ modifiedDeviceAlert info (DeviceRecord.hash record) (HashResult.hash result)
       (negb (AppSettings.blockModifiedDevices (m_settings w))) ∈ out.2
  /\ (AppSettings.blockModifiedDevices (m_settings w) = true ->
      (forall node, mount node ∉ out.2) /\ m_database out.1 = m_database w).
Proof.
  intros Hjob Hnode Hconn Hrec Hhash Hdiff.
  assert ((QString.compare_ci (DeviceRecord.hash record) (HashResult.hash result) =? 0)
          = false) as Hcmp.
  { apply Z.eqb_neq. by rewrite compare_ci_zero. }
  cbv zeta. unfold onHashCompleted, takeJob. rewrite Hjob. cbn [from_option id].
  rewrite (isEmpty_false deviceNode) by done.
  cbn [connected m_database]. rewrite Hconn.
  unfold DatabaseManager.getDevice, DatabaseManager.verifyHash.
  rewrite Hrec, (isEmpty_false (DeviceRecord.hash record)) by done.
  rewrite Hcmp. cbn [negb andb].
  unfold showModifiedDeviceAlert. cbn [m_settings set_cards m_database].
  destruct (AppSettings.blockModifiedDevices (m_settings w)) eqn:Hblock.
  - cbn [fst snd m_deviceCards set_cards flat_map onDatabaseSignal app
         m_activeHashCount negb].
    rewrite lookup_alter_eq. split; [by destruct (m_deviceCards w !! deviceNode) |].
    do 4 (split; [in_actions |]).
    intros _. split; [|done].
    intros node. destruct (Z.max 0 _ =? 0); in_actions.
  - destruct userAccepts.
    + unfold DatabaseManager.updateHash. cbn [m_database]. rewrite Hrec.
      cbn [fst snd m_deviceCards set_cards set_database flat_map app
           onDatabaseSignal m_activeHashCount negb DatabaseManager.markModified].
      rewrite lookup_alter_eq. split; [by destruct (m_deviceCards w !! deviceNode) |].
      do 4 (split; [in_actions |]). discriminate.
    + cbn [fst snd m_deviceCards set_cards flat_map onDatabaseSignal app
           m_activeHashCount negb].
      rewrite lookup_alter_eq. split; [by destruct (m_deviceCards w !! deviceNode) |].
      do 4 (split; [in_actions |]). discriminate.
Qed.

Lemma modified_device_witness :
  (mount "/dev/sdb1" ∉ (onHashCompleted "hash_1000_0" changedResult true laterTime
                          blockingWindow).2)
  /\ (m_status <$> (m_deviceCards
                      (onHashCompleted "hash_1000_0" changedResult true laterTime
                         blockingWindow).1 !! "/dev/sdb1")) = Some Modified.
Proof.
  destruct (modified_device_is_flagged_and_blocked blockingWindow "hash_1000_0"
              "/dev/sdb1" sampleInfo sampleRecord changedResult true laterTime)
    as (Hstatus & _ & _ & _ & _ & Hblock).
  - reflexivity.
  - discriminate.
  - reflexivity.
  - reflexivity.
  - discriminate.
  - intros H. vm_compute in H. discriminate.
  - split; [apply (Hblock eq_refl) | exact Hstatus].
Defined.

(** The unmount handler defers to a re-hash when the setting is on: it
    starts the hash and issues no unmount itself. *)
Lemma onUnmountRequested_rehashes w deviceNode dev :
  connected w !! deviceNode = Some dev ->
  AppSettings.autoHashOnEject (m_settings w) = true ->
  onUnmountRequested deviceNode w
  = logMessage ("Re-hashing before unmount: " +:+ deviceNode) LInfo
    :: startHashing deviceNode w.
Proof. intros H1 H2. unfold onUnmountRequested. by rewrite H1, H2. Qed.

(** The eject handler never starts a hash and always powers the device
    off, whatever the settings say. *)
Lemma onEjectRequested_never_rehashes w deviceNode dev :
  connected w !! deviceNode = Some dev ->
  (forall job, startHash job ∉ onEjectRequested deviceNode w)
  /\ powerOff deviceNode ∈ onEjectRequested deviceNode w.
Proof.
  intros H. unfold onEjectRequested. rewrite H.
  split; [intros job |]; destruct (DeviceInfo.isMounted dev); cbn [app]; in_actions.
Qed.

(** C5, at the input where it fails.  Re-hash on eject is enabled, the
    device is known to the store, connected and mounted.  An eject request
    issues the unmount and the power-off at once; no hash is started. *)
Theorem eject_proceeds_without_rehash :
  AppSettings.autoHashOnEject (m_settings sampleWindow) = true
  /\ DatabaseManager.hasDevice (DeviceInfo.uniqueId sampleInfo)
       (m_database sampleWindow) = true
  /\ connected sampleWindow !! "/dev/sdb1" = Some sampleInfo
  /\ onEjectRequested "/dev/sdb1" sampleWindow
     = [logMessage "Eject requested: DATA" LInfo;
        unmount "/dev/sdb1"; powerOff "/dev/sdb1"].
Proof. by vm_compute. Qed.

End Orchestration.

(* ===================================================================== *)
(** * The store's operations on records *)
(* ===================================================================== *)

Section StoreOperations.
Import DatabaseManager.

Lemma hasDevice_false id db : hasDevice id db = false <-> m_devices db !! id = None.
Proof. unfold hasDevice. destruct (m_devices db !! id); split; congruence. Qed.

Lemma hasDevice_true id db : hasDevice id db = true <-> is_Some (m_devices db !! id).
Proof.
  unfold hasDevice. destruct (m_devices db !! id); split; try done;
    by intros [? ?].
Qed.

Lemma addDevice_new db record :
  hasDevice (DeviceRecord.uniqueId record) db = false ->
  addDevice record db
  = (true,
     set_modified true
       (set_devices (<[DeviceRecord.uniqueId record := record]> (m_devices db)) db),
     (if m_autoSave db then [queuedSave] else [])
     ++ [deviceAdded (DeviceRecord.uniqueId record)]).
Proof. intros H. unfold addDevice. by rewrite H. Qed.

(** X1.  [addDevice] of a record whose id the store does not hold
    succeeds: [getDevice] then returns that record for its id and answers
    as before for every other id, the count grows by one, the store is
    marked modified, and [deviceAdded] follows the queued save, if any.
    Adding the same record again is refused: the store stays as it is and
    nothing is emitted. *)
Theorem addDevice_files_new_record (db : t) (record : DeviceRecord.t) :
  hasDevice (DeviceRecord.uniqueId record) db = false ->
  let out := addDevice record db in
  out.1.1 = true
  /\ getDevice (DeviceRecord.uniqueId record) out.1.2 = Some record
  /\ (forall k, k <> DeviceRecord.uniqueId record ->
        getDevice k out.1.2 = getDevice k db)
  /\ deviceCount out.1.2 = deviceCount db + 1
  /\ hasUnsavedChanges out.1.2 = true
  /\ out.2 = (if m_autoSave db then [queuedSave] else [])
             ++ [deviceAdded (DeviceRecord.uniqueId record)]
  /\ addDevice record out.1.2 = (false, out.1.2, []).
Proof.
  intros Hnew. cbv zeta. rewrite (addDevice_new db record Hnew).
  apply hasDevice_false in Hnew. cbn [fst snd].
  unfold getDevice, deviceCount, hasUnsavedChanges.
  cbn [m_devices set_devices set_modified m_modified].
  split; [done |]. split; [apply lookup_insert_eq |].
  split; [intros k Hk; by apply lookup_insert_ne |].
  split; [rewrite map_size_insert_None by done; lia |].
  split; [done |]. split; [done |].
  unfold addDevice, hasDevice. cbn [m_devices set_devices set_modified].
  by rewrite lookup_insert_eq.
Qed.

Lemma addDevice_files_new_record_witness :
  getDevice "SanDisk_Ultra" (addDevice otherRecord sampleStore).1.2 = Some otherRecord
  /\ deviceCount (addDevice otherRecord sampleStore).1.2 = 2.
Proof.
  destruct (addDevice_files_new_record sampleStore otherRecord)
    as (_ & Hget & _ & Hcount & _); [reflexivity |].
  split; [exact Hget | exact Hcount].
Defined.

(** The loop of [removeDevices]. *)
Lemma removeEach_spec ids : forall m,
  (removeEach ids m).1 = filter (fun kr => kr.1 ∉ ids) m
  /\ NoDup (removeEach ids m).2
  /\ (forall id, id ∈ (removeEach ids m).2 <-> id ∈ ids /\ is_Some (m !! id))
  /\ size m = (size (removeEach ids m).1 + length (removeEach ids m).2)%nat.
Proof.
  induction ids as [|id ids IH]; intros m; cbn [removeEach].
  - cbn [fst snd length]. split; [|split; [constructor | split; [|lia]]].
    + symmetry. apply map_filter_id. intros i x _. cbn. apply not_elem_of_nil.
    + intros id. rewrite elem_of_nil. tauto.
  - destruct (m !! id) as [x|] eqn:Hid.
    + specialize (IH (delete id m)).
      destruct (removeEach ids (delete id m)) as [m' r]. cbn [fst snd] in *.
      destruct IH as (IH1 & IH2 & IH3 & IH4).
      split; [|split; [|split]].
      * rewrite IH1. apply map_eq. intros k. apply option_eq. intros v.
        rewrite !map_lookup_filter_Some, lookup_delete_Some. cbn.
        rewrite not_elem_of_cons. intuition congruence.
      * apply NoDup_cons. split; [|done].
        rewrite IH3, lookup_delete_eq. intros [_ [? ?]]. done.
      * intros k. rewrite elem_of_cons, IH3, elem_of_cons.
        destruct (decide (k = id)) as [-> | Hne].
        -- rewrite Hid. split; [intros _ | by left].
           split; [by left | by eexists].
        -- rewrite lookup_delete_ne by done. intuition congruence.
      * rewrite map_size_delete_Some in IH4 by done. cbn [length].
        assert (size m <> 0%nat).
        { apply map_size_ne_0_lookup_2 with id. done. }
        lia.
    + specialize (IH m). destruct IH as (IH1 & IH2 & IH3 & IH4).
      split; [|split; [done | split; [|done]]].
      * rewrite IH1. apply map_eq. intros k. apply option_eq. intros v.
        rewrite !map_lookup_filter_Some. cbn. rewrite not_elem_of_cons.
        split; [|intuition congruence].
        intros [Hk Hn]. split; [done |]. split; [|done]. intros ->. congruence.
      * intros k. rewrite IH3, elem_of_cons. split; [intuition congruence |].
        intros [[-> | Hin] Hs]; [|done]. rewrite Hid in Hs. by destruct Hs.
Qed.

Lemma set_devices_same db : set_devices (m_devices db) db = db.
Proof. by destruct db. Qed.

(** X2.  [removeDevices] removes exactly the listed ids the store holds:
    the table afterwards is the table without the listed ids, the number
    returned is the number of records the table lost (an id listed twice
    counts once), [deviceRemoved] is emitted once for each id removed and
    for no other, and when nothing is removed the store is left as it is,
    not marked modified, with no signal. *)
Theorem removeDevices_removes_listed_ids (db : t) (ids : list string) :
  let out := removeDevices ids db in
  m_devices out.1.2 = filter (fun kr => kr.1 ∉ ids) (m_devices db)
  /\ out.1.1 = deviceCount db - deviceCount out.1.2
  /\ (forall id, deviceRemoved id ∈ out.2 <-> id ∈ ids /\ hasDevice id db = true)
  /\ NoDup out.2
  /\ (out.1.1 = 0 -> out = (0, db, [])).
Proof.
  cbv zeta. unfold removeDevices.
  destruct (removeEach_spec ids (m_devices db)) as (H1 & H2 & H3 & H4).
  destruct (removeEach ids (m_devices db)) as [m r]. cbn [fst snd] in *.
  unfold deviceCount.
  destruct r as [|id0 r].
  - change (0 <? Z.of_nat (length (@nil string))) with false.
    cbn [length fst snd map app m_devices set_devices].
    cbn [length] in H4.
    assert (m = m_devices db) as Hm.
    { subst m. apply map_filter_id. intros i x Hi Hin. cbn in Hin.
      assert (i ∈ @nil string) as Hnil by (apply H3; split; [done | by eexists]).
      by apply elem_of_nil in Hnil. }
    rewrite Hm in *. clear Hm m.
    split; [done |]. split; [cbn; lia |]. split; [|split; [constructor |]].

    + intros id. rewrite elem_of_nil. split; [done |].
      intros [Hin Hhas]. apply hasDevice_true in Hhas.
      apply (elem_of_nil id), H3. done.
    + intros _. by rewrite set_devices_same.
  - replace (0 <? Z.of_nat (length (id0 :: r))) with true
      by (symmetry; apply Z.ltb_lt; cbn [length]; lia).
    cbn [markModified fst snd m_devices set_devices set_modified].
    split; [done |]. split; [lia |]. split; [|split].
    + intros id. rewrite elem_of_app, hasDevice_true, <- H3.
      rewrite list_elem_of_fmap.
      split.
      * intros [Hq | (y & [= ->] & Hy)]; [|done].
        destruct (m_autoSave _); [|by apply elem_of_nil in Hq].
        apply list_elem_of_singleton in Hq. discriminate.
      * intros Hin. right. by exists id.
    + apply NoDup_app. split; [|split].
      * destruct (m_autoSave _); [apply NoDup_singleton | constructor].
      * intros s Hq Hs. apply list_elem_of_fmap in Hs as (y & -> & _).
        destruct (m_autoSave _); [|by apply elem_of_nil in Hq].
        apply list_elem_of_singleton in Hq. discriminate.
      * apply NoDup_fmap_2; [|done]. by intros a b [= ->].
    + cbn [length]. lia.
Qed.


(** [clearAllDevices] empties the table and marks the store modified
    even when the table was empty already; [deviceRemoved] is emitted
    exactly once for every id the store held and for no other. *)
Theorem clearAllDevices_signals_every_id (db : t) :
  let out := clearAllDevices db in
  m_devices out.1 = ∅
  /\ deviceCount out.1 = 0
  /\ hasUnsavedChanges out.1 = true
  /\ (forall id, deviceRemoved id ∈ out.2 <-> hasDevice id db = true)
  /\ NoDup out.2
  /\ Z.of_nat (length out.2) = deviceCount db + (if m_autoSave db then 1 else 0).
Proof.
  cbv zeta. unfold clearAllDevices, deviceCount, hasUnsavedChanges.
  cbn [markModified fst snd m_devices set_devices set_modified m_modified m_autoSave].
  split; [done |]. split; [by rewrite map_size_empty |]. split; [done |].
  assert (forall s, s ∈ (if m_autoSave db then [queuedSave] else []) ->
                    s = queuedSave) as Hq.
  { intros s Hs. destruct (m_autoSave db); [|by apply elem_of_nil in Hs].
    by apply list_elem_of_singleton in Hs. }
  split; [|split].
  - intros id. rewrite elem_of_app, hasDevice_true, list_elem_of_fmap. split.
    + intros [H | (y & [= ->] & Hy)]; [by apply Hq in H |].
      apply list_elem_of_fmap in Hy as ([k r] & -> & Hkr).
      apply elem_of_map_to_list in Hkr. by eexists.
    + intros [r Hr]. right. exists id. split; [done |].
      apply list_elem_of_fmap. exists (id, r). split; [done |].
      by apply elem_of_map_to_list.
  - apply NoDup_app. split; [|split].
    + destruct (m_autoSave db); [apply NoDup_singleton | constructor].
    + intros s H Hs. apply Hq in H. subst s.
      apply list_elem_of_fmap in Hs as (y & [=] & _).
    + apply NoDup_fmap_2; [by intros a b [= ->] | apply NoDup_fst_map_to_list].
  - rewrite length_app, length_map, length_fmap, length_map_to_list.
    destruct (m_autoSave db); cbn [length]; lia.
Qed.

(** X3.  After [updateHash] on a known id, the record carries the new
    hash, algorithm, duration and hashing time and is otherwise as before;
    [getHash] returns the new hash (nothing when it is empty);
    [verifyHash] accepts the new hash without a mismatch signal and accepts
    a candidate exactly when it equals the new hash without regard to case;
    every other record is untouched and [deviceUpdated] is emitted. *)
Theorem updateHash_then_verifyHash
    (db : t) (id hash algorithm : string) (durationMs : Z)
    (now : QDateTime.fields) (r : DeviceRecord.t) :
  m_devices db !! id = Some r ->
  let out := updateHash id hash algorithm durationMs now db in
  out.1.1 = true
  /\ getDevice id out.1.2
     = Some (DeviceRecord.with_hash hash algorithm durationMs (Some now) r)
  /\ getHash id out.1.2 = (if QString.isEmpty hash then None else Some hash)
  /\ verifyHash id hash out.1.2 = (true, [])
  /\ (forall candidate,
        (verifyHash id candidate out.1.2).1 = true
        <-> equal_ignoring_case hash candidate)
  /\ (forall k, k <> id -> getDevice k out.1.2 = getDevice k db)
  /\ deviceUpdated id ∈ out.2.
Proof.
  intros Hr. cbv zeta. unfold updateHash. rewrite Hr.
  cbn [markModified fst snd]. unfold getDevice, getHash, verifyHash.
  cbn [m_devices set_devices set_modified]. rewrite lookup_insert_eq.
  cbn [DeviceRecord.hash DeviceRecord.with_hash].
  assert ((QString.compare_ci hash hash =? 0) = true) as Hsame.
  { apply Z.eqb_eq, compare_ci_zero. reflexivity. }
  split; [done |]. split; [done |]. split; [by destruct (QString.isEmpty hash) |].
  split; [by rewrite Hsame |].
  split; [intros candidate; cbn [fst]; by rewrite Z.eqb_eq, compare_ci_zero |].
  split; [intros k Hk; by apply lookup_insert_ne |].
  apply elem_of_app. right. by apply list_elem_of_singleton.
Qed.

Lemma updateHash_then_verifyHash_witness :
  verifyHash "S1_Kingston_DT100" "ff00ee"
    (updateHash "S1_Kingston_DT100" "ff00ee" "SHA256" 90000 laterTime sampleStore).1.2
  = (true, []).
Proof.
  apply (updateHash_then_verifyHash sampleStore "S1_Kingston_DT100" "ff00ee" "SHA256"
           90000 laterTime sampleRecord).
  reflexivity.
Defined.

Lemma removeEach_absent ids m :
  Forall (fun i => m !! i = None) ids -> removeEach ids m = (m, []).
Proof.
  induction 1 as [|i ids Hi _ IH]; cbn [removeEach]; [done |]. by rewrite Hi.
Qed.

(** For an id the store does not hold, every lookup answers
    "nothing" and every update is refused: [getDevice] and [getHash] return
    nothing, [verifyHash] answers [false] and raises no [hashMismatch],
    and [updateDevice], [removeDevice], [removeDevices], [updateHash],
    [setTrustLevel], [setAutoMount] and [updateLastSeen] return failure,
    leave the store exactly as it was (not marked modified) and emit no
    signal. *)
Theorem unknown_id_changes_nothing (db : t) (id : string) :
  hasDevice id db = false ->
  getDevice id db = None
  /\ getHash id db = None
  /\ (forall hash, verifyHash id hash db = (false, []))
  /\ (forall record, DeviceRecord.uniqueId record = id ->
        updateDevice record db = (false, db, []))
  /\ removeDevice id db = (false, db, [])
  /\ (forall ids, Forall (fun i => hasDevice i db = false) ids ->
        removeDevices ids db = (0, db, []))
  /\ (forall hash algorithm durationMs now,
        updateHash id hash algorithm durationMs now db = (false, db, []))
  /\ (forall level, setTrustLevel id level db = (false, db, []))
  /\ (forall autoMount, setAutoMount id autoMount db = (false, db, []))
  /\ (forall now, updateLastSeen id now db = (false, db, [])).
Proof.
  intros Hno. pose proof Hno as Hnone. apply hasDevice_false in Hnone.
  unfold getDevice, getHash, verifyHash, updateDevice, removeDevice, updateHash,
    setTrustLevel, setAutoMount, updateLastSeen.
  rewrite Hnone, Hno. cbn [negb].
  repeat split; try done.
  - intros record ->. by rewrite Hno.
  - intros ids Hall. unfold removeDevices.
    rewrite removeEach_absent.
    + cbn. by rewrite set_devices_same.
    + eapply Forall_impl; [exact Hall |]. intros i. apply hasDevice_false.
Qed.

Lemma unknown_id_changes_nothing_witness :
  verifyHash "SanDisk_Ultra" "ff00ee" sampleStore = (false, [])
  /\ removeDevice "SanDisk_Ultra" sampleStore = (false, sampleStore, []).
Proof.
  destruct (unknown_id_changes_nothing sampleStore "SanDisk_Ultra")
    as (_ & _ & Hverify & _ & Hremove & _); [reflexivity |].
  split; [apply Hverify | exact Hremove].
Defined.

Lemma insert_present_size {A} (m : gmap string A) id x :
  is_Some (m !! id) -> size (<[id := x]> m) = size m.
Proof. apply map_size_insert_Some. Qed.

Lemma insert_present_has (m : gmap string DeviceRecord.t) id x k :
  is_Some (m !! id) -> is_Some (<[id := x]> m !! k) <-> is_Some (m !! k).
Proof.
  intros H. destruct (decide (id = k)) as [-> | Hne].
  - rewrite lookup_insert_eq. split; [done | by eexists].
  - by rewrite lookup_insert_ne.
Qed.

Lemma same_ids_refl db : same_ids db db.
Proof. by split. Qed.

Lemma same_ids_insert db id x q :
  is_Some (m_devices db !! id) ->
  same_ids db (set_modified q (set_devices (<[id := x]> (m_devices db)) db)).
Proof.
  intros H. split.
  - unfold deviceCount. cbn [m_devices set_devices set_modified].
    by rewrite insert_present_size.
  - intros k. unfold hasDevice. cbn [m_devices set_devices set_modified].
    pose proof (insert_present_has (m_devices db) id x k H) as Hk.
    destruct (<[id:=x]> (m_devices db) !! k), (m_devices db !! k); try done.
    + destruct Hk as [Hk _]. destruct Hk as [? ?]; [by eexists | done].
    + destruct Hk as [_ Hk]. destruct Hk as [? ?]; [by eexists | done].
Qed.

(** X4.  The update operations never add or remove a device: after
    [updateDevice], [updateHash], [setTrustLevel], [setAutoMount] and
    [updateLastSeen] the store holds the same ids and as many records as
    before, whether or not the id is known.  The four operations addressed
    by id change the record of that id only, each in its own members, and
    the record keeps its id; [updateLastSeen] never emits
    [deviceUpdated]. *)
Theorem updates_keep_the_set_of_ids (db : t) (id : string) :
  (forall record, same_ids db (updateDevice record db).1.2)
  /\ (forall hash algorithm durationMs now,
        let out := updateHash id hash algorithm durationMs now db in
        same_ids db out.1.2
        /\ (forall k, k <> id -> getDevice k out.1.2 = getDevice k db)
        /\ (DeviceRecord.uniqueId <$> getDevice id out.1.2)
           = (DeviceRecord.uniqueId <$> getDevice id db))
  /\ (forall level,
        let out := setTrustLevel id level db in
        same_ids db out.1.2
        /\ (forall k, k <> id -> getDevice k out.1.2 = getDevice k db)
        /\ (DeviceRecord.with_trustLevel level <$> getDevice id db)
           = getDevice id out.1.2)
  /\ (forall autoMount,
        let out := setAutoMount id autoMount db in
        same_ids db out.1.2
        /\ (forall k, k <> id -> getDevice k out.1.2 = getDevice k db)
        /\ (DeviceRecord.with_autoMount autoMount <$> getDevice id db)
           = getDevice id out.1.2)
  /\ (forall now,
        let out := updateLastSeen id now db in
        same_ids db out.1.2
        /\ (forall k, k <> id -> getDevice k out.1.2 = getDevice k db)
        /\ (DeviceRecord.with_lastSeen (Some now) <$> getDevice id db)
           = getDevice id out.1.2
        /\ (forall k, deviceUpdated k ∉ out.2)).
Proof.
  split; [|split; [|split; [|split]]].
  - intros record. unfold updateDevice.
    destruct (hasDevice (DeviceRecord.uniqueId record) db) eqn:E;
      cbn [negb fst snd markModified]; [|apply same_ids_refl].
    apply same_ids_insert. by apply hasDevice_true.
  - intros hash algorithm durationMs now. cbv zeta. unfold updateHash, getDevice.
    destruct (m_devices db !! id) as [r|] eqn:E;
      cbn [fst snd markModified]; [|by rewrite E; split; [apply same_ids_refl |]].
    split; [apply same_ids_insert; by rewrite E |].
    cbn [m_devices set_devices set_modified].
    split; [intros k Hk; by apply lookup_insert_ne |].
    by rewrite lookup_insert_eq.
  - intros level. cbv zeta. unfold setTrustLevel, getDevice.
    destruct (m_devices db !! id) as [r|] eqn:E;
      cbn [fst snd markModified]; [|by rewrite E; split; [apply same_ids_refl |]].
    split; [apply same_ids_insert; by rewrite E |].
    cbn [m_devices set_devices set_modified].
    split; [intros k Hk; by apply lookup_insert_ne |].
    by rewrite lookup_insert_eq.
  - intros autoMount. cbv zeta. unfold setAutoMount, getDevice.
    destruct (m_devices db !! id) as [r|] eqn:E;
      cbn [fst snd markModified]; [|by rewrite E; split; [apply same_ids_refl |]].
    split; [apply same_ids_insert; by rewrite E |].
    cbn [m_devices set_devices set_modified].
    split; [intros k Hk; by apply lookup_insert_ne |].
    by rewrite lookup_insert_eq.
  - intros now. cbv zeta. unfold updateLastSeen, getDevice.
    destruct (m_devices db !! id) as [r|] eqn:E; cbn [fst snd markModified].
    + split; [apply same_ids_insert; by rewrite E |].
      cbn [m_devices set_devices set_modified].
      split; [intros k Hk; by apply lookup_insert_ne |].
      split; [by rewrite lookup_insert_eq |].
      intros k Hk. destruct (m_autoSave _); [|by apply elem_of_nil in Hk].
      by apply list_elem_of_singleton in Hk.
    + rewrite E. split; [apply same_ids_refl |]. split; [done |]. split; [done |].
      intros k Hk. by apply elem_of_nil in Hk.
Qed.

End StoreOperations.

Section StorePersistence.
Import DatabaseManager.

Lemma writeToFile_signals io now fs db :
  ((writeToFile io now fs db).1.1 = true -> (writeToFile io now fs db).2 = [])
  /\ ((writeToFile io now fs db).1.1 = false ->
      exists message, (writeToFile io now fs db).2 = [databaseError message]).
Proof.
  unfold writeToFile.
  destruct (Io.tempOpenOk io); cbn [negb fst snd]; [|split; [done | by eexists]].
  destruct (Io.writeComplete io); cbn [negb fst snd]; [|split; [done | by eexists]].
  destruct (Io.renameOk io && _); cbn [fst snd]; split; try done; by eexists.
Qed.

(** X5.  [save] never changes the table.  When it succeeds the store was
    initialised, the modified flag is cleared, the time of the save is
    recorded, [databaseSaved] is the only signal, and the database file
    holds the serialised table with owner-only permissions.  When it fails
    the store is exactly as before (in particular still marked modified)
    and the only signal is one [databaseError].  When the store is not
    initialised, or the temporary file cannot be opened or written in
    full, [save] fails and the database file is as it was. *)
Theorem save_clears_the_dirty_flag_only_on_success
    (io : Io.t) (now : QDateTime.fields) (fs : FileSystem.t) (db : t) :
  let out := save io now fs db in
  m_devices out.1.1.2 = m_devices db
  /\ (out.1.1.1 = true ->
      m_initialized db = true
      /\ hasUnsavedChanges out.1.1.2 = false
      /\ m_lastSaved out.1.1.2 = Some now
      /\ out.2 = [databaseSaved]
      /\ out.1.2 !! m_databasePath db
         = Some (FileSystem.mkFile (QJsonDocument.toJson (document now db))
                   (QDateTime.toMSecs now) true))
  /\ (out.1.1.1 = false ->
      out.1.1.2 = db /\ exists message, out.2 = [databaseError message])
  /\ (m_initialized db = false \/ Io.tempOpenOk io = false
      \/ Io.writeComplete io = false ->
      out.1.1.1 = false
      /\ out.1.2 !! m_databasePath db = fs !! m_databasePath db).
Proof.
  cbv zeta. unfold save.
  destruct (m_initialized db) eqn:Hinit; cbn [negb].
  - pose proof (writeToFile_success io now fs db) as Hfile.
    pose proof (writeToFile_signals io now fs db) as [Hs1 Hs2].
    pose proof (writeToFile_open_failure io now fs db) as Hopen.
    pose proof (writeToFile_short_write io now fs db) as Hshort.
    destruct (writeToFile io now fs db) as [[ok fs1] sigs]. cbn [fst snd] in *.
    destruct ok; cbn [fst snd].
    + split; [done |]. split; [|split; [done |]].
      * intros _. rewrite Hs1 by done. by rewrite Hfile.
      * intros [H | [H | H]]; [done | |].
        -- specialize (Hopen H). by injection Hopen.
        -- destruct (Io.tempOpenOk io) eqn:E.
           ++ by destruct (Hshort eq_refl H).
           ++ specialize (Hopen eq_refl). by injection Hopen.
    + split; [done |]. split; [done |]. split; [by split; [|apply Hs2] |].
      intros [H | [H | H]]; [done | |]; (split; [done |]).
      * specialize (Hopen H). by injection Hopen as <- _.
      * destruct (Io.tempOpenOk io) eqn:E.
        -- by destruct (Hshort eq_refl H).
        -- specialize (Hopen eq_refl). by injection Hopen as <- _.
  - split; [done |]. split; [done |]. split; [by split; [|eexists] |]. done.
Qed.

Lemma save_witness_short_write :
  let io := Io.mk true true false true true true in
  (save io laterTime sampleFiles sampleStore).1.1.1 = false
  /\ (save io laterTime sampleFiles sampleStore).1.2 !! samplePath
     = sampleFiles !! samplePath.
Proof.
  cbv zeta.
  apply (save_clears_the_dirty_flag_only_on_success
           (Io.mk true true false true true true) laterTime sampleFiles sampleStore).
  right. right. reflexivity.
Defined.

(** X6.  [reload] clears the table before it reads the file, so a reload
    that fails (the file is missing or is not JSON) leaves an initialised
    store with an empty table, emits nothing and keeps the modified flag
    as it was.  A reload that succeeds clears the modified flag, emits
    [databaseLoaded] with the new count, and every record it holds is
    filed under its own, non-empty id. *)
Theorem reload_failure_empties_the_table (fs : FileSystem.t) (db : t) :
  m_initialized db = true ->
  let out := reload fs db in
  (out.1.1 = false ->
     m_devices out.1.2 = ∅
     /\ out.2 = []
     /\ hasUnsavedChanges out.1.2 = hasUnsavedChanges db
     /\ (fs !! m_databasePath db = None
         \/ exists f bytes, fs !! m_databasePath db = Some f
                            /\ FileSystem.data f = Raw bytes /\ bytes <> ""))
  /\ (out.1.1 = true ->
      hasUnsavedChanges out.1.2 = false
      /\ out.2 = [databaseLoaded (deviceCount out.1.2)]
      /\ (forall k r, getDevice k out.1.2 = Some r ->
            DeviceRecord.uniqueId r = k /\ k <> "")).
Proof.
  intros Hinit. cbv zeta. unfold reload, getDevice. rewrite Hinit. cbn [negb].
  pose proof (fun k r => loadFromFile_entry fs (set_devices ∅ db) k r) as Hentry.
  unfold loadFromFile in *. cbn [m_databasePath set_devices m_devices] in *.
  destruct (fs !! m_databasePath db) as [f|] eqn:Hf; cbn [fst snd] in *.
  - destruct (FileSystem.data f) as [bytes | doc] eqn:Hd;
      cbn [QByteArray_isEmpty QJsonDocument.fromJson] in *.
    + destruct bytes as [|c bytes]; cbn [QString.isEmpty fst snd] in *.
      * split; [done |]. intros _. split; [done |]. split; [done |].
        intros k r Hk. by apply (Hentry k r) in Hk as [Hk | Hk].
      * split; [|done]. intros _. split; [done |]. split; [done |].
        split; [done |]. right. exists f, (String c bytes). by rewrite Hd.
    + cbn [fst snd] in *. split; [done |]. intros _. split; [done |].
      split; [done |]. intros k r Hk. by apply (Hentry k r) in Hk as [Hk | Hk].
  - split; [|done]. intros _. split; [done |]. split; [done |]. split; [done |].
    by left.
Qed.

Lemma reload_failure_witness :
  m_devices (reload ∅ sampleStore).1.2 = ∅ /\ (reload ∅ sampleStore).1.1 = false.
Proof.
  destruct (reload_failure_empties_the_table ∅ sampleStore eq_refl) as [Hfail _].
  split; [apply Hfail |]; reflexivity.
Defined.


(** [initialize] fails only when the database directory cannot be
    made, and then only the path is set and [databaseError] is emitted.
    Otherwise it succeeds, the store is initialised and not modified, and
    [databaseLoaded] with the count is the last signal: with no database
    file the table is as it was; with a file that is not JSON the table
    is emptied and [databaseError] precedes [databaseLoaded 0]. *)
Theorem initialize_survives_an_unreadable_file
    (path configDir : string) (io : Io.t) (fs : FileSystem.t) (db : t) :
  let p := if QString.isEmpty path then defaultDatabasePath configDir else path in
  let out := initialize path configDir io fs db in
  m_databasePath out.1.2 = p
  /\ out.1.1 = Io.mkpathOk io
  /\ (Io.mkpathOk io = false ->
      out.1.2 = set_databasePath p db
      /\ out.2 = [databaseError "Failed to create database directory"])
  /\ (Io.mkpathOk io = true ->
      m_initialized out.1.2 = true
      /\ hasUnsavedChanges out.1.2 = false
      /\ last out.2 = Some (databaseLoaded (deviceCount out.1.2))
      /\ (fs !! p = None ->
          m_devices out.1.2 = m_devices db
          /\ out.2 = [databaseLoaded (deviceCount db)])
      /\ (forall f bytes,
            fs !! p = Some f -> FileSystem.data f = Raw bytes -> bytes <> "" ->
            m_devices out.1.2 = ∅
            /\ out.2 = [databaseError "Failed to load database, creating new one";
                        databaseLoaded 0])).
Proof.
  cbv zeta. unfold initialize.
  set (p := if QString.isEmpty path then defaultDatabasePath configDir else path).
  destruct (Io.mkpathOk io); cbn [negb fst snd].
  2: { split; [done |]. split; [done |]. split; [done |]. done. }
  unfold FileSystem.exists_, loadFromFile. cbn [m_databasePath set_databasePath].
  destruct (fs !! p) as [f|] eqn:Hf.
  - destruct (FileSystem.data f) as [bytes | doc] eqn:Hd;
      cbn [QByteArray_isEmpty QJsonDocument.fromJson].
    + destruct bytes as [|c bytes]; cbn [QString.isEmpty fst snd];
        (split; [done |]); (split; [done |]); (split; [done |]); intros _;
        (split; [done |]); (split; [done |]); (split; [done |]);
        (split; [done |]); intros f' bytes' [= <-]; rewrite Hd; intros [= <-];
        done.
    + cbn [fst snd]. split; [done |]. split; [done |]. split; [done |]. intros _.
      split; [done |]. split; [done |]. split; [done |]. split; [done |].
      intros f' bytes' [= <-]. rewrite Hd. done.
  - cbn [fst snd]. split; [done |]. split; [done |]. split; [done |]. intros _.
    split; [done |]. split; [done |]. split; [done |]. split; [done |]. done.
Qed.

Lemma initialize_unreadable_file_witness :
  let fs : FileSystem.t := {[ samplePath := FileSystem.mkFile (Raw "{oops") 0 true ]} in
  m_devices (initialize samplePath "" Io.allOk fs new).1.2 = ∅
  /\ (initialize samplePath "" Io.allOk fs new).1.1 = true.
Proof.
  cbv zeta.
  destruct (initialize_survives_an_unreadable_file samplePath "" Io.allOk
              {[ samplePath := FileSystem.mkFile (Raw "{oops") 0 true ]} new)
    as (_ & Hret & _ & Hok).
  split; [|exact Hret].
  destruct (Hok eq_refl) as (_ & _ & _ & _ & Hraw).
  apply (Hraw (FileSystem.mkFile (Raw "{oops") 0 true) "{oops");
    [reflexivity | reflexivity | discriminate].
Defined.

(** The loop of [importFromFile] when it merges. *)
Lemma importItems_merge items : forall m n,
  (forall k r, m !! k = Some r ->
     (foldl (importItem true) (m, n) items).1 !! k = Some r)
  /\ Z.of_nat (size (foldl (importItem true) (m, n) items).1)
     = Z.of_nat (size m) + ((foldl (importItem true) (m, n) items).2 - n)
  /\ n <= (foldl (importItem true) (m, n) items).2.
Proof.
  induction items as [|item items IH]; intros m n; cbn [foldl fst snd].
  - split; [done |]. lia.
  - unfold importItem at 2 4 6 8.
    set (record := DeviceRecord.fromJson (QJson.toObject item)).
    destruct (m !! DeviceRecord.uniqueId record) as [old|] eqn:E; cbn [negb].
    + apply IH.
    + destruct (IH (<[DeviceRecord.uniqueId record := record]> m) (n + 1))
        as (I1 & I2 & I3).
      split; [|split].
      * intros k r Hk. apply I1. rewrite lookup_insert_ne; [done |].
        intros <-. congruence.
      * rewrite I2, map_size_insert_None by done. lia.
      * lia.
Qed.

(** X7.  [importFromFile] in merge mode never overwrites or removes a
    record the store holds.  It returns -1 exactly when the file is missing
    or is not JSON, and then emits one [databaseError]; otherwise the
    number returned is the number of records the table gained.  When
    nothing is imported the store is exactly as before. *)
Theorem importFromFile_merge_keeps_existing_records
    (path : string) (fs : FileSystem.t) (db : t) :
  let out := importFromFile path true fs db in
  (forall k r, getDevice k db = Some r -> getDevice k out.1.2 = Some r)
  /\ (out.1.1 = -1
      \/ (0 <= out.1.1 /\ deviceCount out.1.2 = deviceCount db + out.1.1))
  /\ (out.1.1 <= 0 -> out.1.2 = db)
  /\ (out.1.1 = -1 <->
      fs !! path = None
      \/ exists f bytes, fs !! path = Some f /\ FileSystem.data f = Raw bytes)
  /\ (out.1.1 = -1 -> exists message, out.2 = [databaseError message]).
Proof.
  cbv zeta. unfold importFromFile, getDevice, deviceCount.
  destruct (fs !! path) as [f|] eqn:Hf; cbn [fst snd].
  2: { split; [done |]. split; [by left |]. split; [done |].
       split; [by split; [left |] |]. intros _. by eexists. }
  destruct (FileSystem.data f) as [bytes | doc] eqn:Hd; cbn [QJsonDocument.fromJson].
  { cbn [fst snd]. split; [done |]. split; [by left |]. split; [done |].
    split; [|intros _; by eexists].
    split; [|done]. intros _. right. by exists f, bytes. }
  cbn [negb].
  destruct (importItems_merge
              (QJson.toArray (QJson.get "devices" (QJsonDocument.object doc)))
              (m_devices db) 0) as (I1 & I2 & I3).
  destruct (foldl _ _ _) as [m imported]. cbn [fst snd] in *.
  destruct (Z.ltb_spec 0 imported) as [Hpos | Hzero]; cbn [markModified fst snd].
  - cbn [m_devices set_modified set_devices].
    split; [done |]. split; [right; lia |]. split; [lia |].
    split; [|lia]. split; [lia |].
    intros [? | (f' & bytes' & [= <-] & Hraw)]; [done | congruence].
  - cbn [m_devices set_devices].
    assert (imported = 0) as -> by lia.
    split; [done |]. split; [right; lia |].
    split.
    + intros _. assert (m_devices db = m) as <-; [|apply set_devices_same].
      apply map_subseteq_size_eq; [|lia].
      apply map_subseteq_spec. exact I1.
    + split; [|done]. split; [done |].
      intros [? | (f' & bytes' & [= <-] & Hraw)]; [done | congruence].
Qed.


(** The loop of [importFromFile] when it replaces is the loop of
    [restoreFromBackup]. *)
Lemma importItems_replace items : forall m n,
  foldl (importItem false) (m, n) items
  = (foldl restoreItem m items, n + Z.of_nat (length items)).
Proof.
  induction items as [|item items IH]; intros m n; cbn [foldl length].
  - f_equal. lia.
  - assert (importItem false (m, n) item = (restoreItem m item, n + 1)) as ->.
    { unfold importItem, restoreItem. by destruct (m !! _). }
    rewrite IH. f_equal. lia.
Qed.

(** Restoring the array written for the entries [l] of a table. *)
Lemma restoreItems_written (l : list (string * DeviceRecord.t)) :
  forall (acc : gmap string DeviceRecord.t) (i : string),
  NoDup l.*1 ->
  Forall (fun kr => DeviceRecord.uniqueId kr.2 = kr.1 /\ representable kr.2) l ->
  foldl restoreItem acc
    (map (fun record => QJson.Object (DeviceRecord.toJson record)) l.*2) !! i
  = match (list_to_map l : gmap string DeviceRecord.t) !! i with
    | Some r => Some (persisted r)
    | None => acc !! i
    end.
Proof.
  induction l as [|[k r] l IH]; intros acc i Hnd Hall; [done |].
  rewrite !fmap_cons in *. cbn [map foldl list_to_map foldr fst snd uncurry].
  apply NoDup_cons in Hnd as [Hk Hnd].
  apply Forall_cons in Hall as [[Hid Hrep] Hall]. cbn in Hid, Hrep.
  rewrite IH by done.
  unfold restoreItem at 1. cbn [QJson.toObject].
  rewrite !DeviceRecord_fromJson_toJson by done.
  change (DeviceRecord.uniqueId (persisted r)) with (DeviceRecord.uniqueId r).
  rewrite Hid. cbn in Hk.
  destruct (decide (k = i)) as [-> | Hne].
  - rewrite lookup_insert_eq.
    rewrite (not_elem_of_list_to_map_1 _ i) by done.
    by rewrite lookup_insert_eq.
  - rewrite (lookup_insert_ne _ k i) by done.
    by rewrite (lookup_insert_ne _ k i).
Qed.

Lemma restoreItems_document now db :
  keys_are_ids (m_devices db) ->
  map_Forall (fun _ r => representable r) (m_devices db) ->
  foldl restoreItem ∅
    (QJson.toArray (QJson.get "devices" (document now db)))
  = persisted <$> m_devices db.
Proof.
  intros Hkeys Hrep. unfold document. rewrite get_set_eq. cbn [QJson.toArray].
  apply map_eq. intros i. rewrite restoreItems_written.
  - rewrite list_to_map_to_list, lookup_fmap, lookup_empty.
    by destruct (m_devices db !! i).
  - apply NoDup_fst_map_to_list.
  - apply Forall_forall. intros [k r] Hin.
    apply elem_of_map_to_list in Hin. cbn.
    split; [by apply (Hkeys k r) | by apply (Hrep k r)].
Qed.

Lemma restoreItems_exportDocument now db :
  keys_are_ids (m_devices db) ->
  map_Forall (fun _ r => representable r) (m_devices db) ->
  foldl restoreItem ∅
    (QJson.toArray (QJson.get "devices" (exportDocument now db)))
  = persisted <$> m_devices db.
Proof.
  intros Hkeys Hrep.
  assert (QJson.get "devices" (exportDocument now db)
          = QJson.get "devices" (document now db)) as ->.
  { unfold exportDocument, document. by rewrite !get_set_eq. }
  by apply restoreItems_document.
Qed.

(** X8.  A table exported with [exportToFile] and imported into any
    store with [importFromFile] in replace mode comes back as the persisted
    form of every record, under the same ids; the number returned is the
    number of records exported, and the export touches no other file.
    Unlike [reload], the import keeps a record whose id is empty. *)
Theorem export_then_import_gives_persisted_records
    (path : string) (prettyPrint : bool) (now : QDateTime.fields)
    (fs : FileSystem.t) (db other : t) :
  keys_are_ids (m_devices db) ->
  map_Forall (fun _ r => representable r) (m_devices db) ->
  let exported := exportToFile path prettyPrint WriteCompletes now fs db in
  let out := importFromFile path false exported.2 other in
  exported.1 = true
  /\ out.1.1 = deviceCount db
  /\ m_devices out.1.2 = persisted <$> m_devices db
  /\ (forall q, q <> path -> exported.2 !! q = fs !! q).
Proof.
  intros Hkeys Hrep. cbv zeta. unfold exportToFile, importFromFile.
  cbn [fst snd]. rewrite lookup_insert_eq.
  cbn [FileSystem.data QJsonDocument.toJson QJsonDocument.fromJson
       QJsonDocument.object QJson.toObject negb].
  rewrite importItems_replace, restoreItems_exportDocument by done.
  assert (length (QJson.toArray (QJson.get "devices" (exportDocument now db)))
          = size (m_devices db)) as ->.
  { unfold exportDocument. rewrite get_set_eq. cbn [QJson.toArray].
    by rewrite length_map, length_fmap, length_map_to_list. }
  split; [done |].
  split; [by destruct (0 <? 0 + _) |].
  split; [by destruct (0 <? 0 + _) |].
  intros q Hq. by apply lookup_insert_ne.
Qed.

Lemma export_then_import_witness :
  let exported := exportToFile "/tmp/export.json" true WriteCompletes laterTime
                    sampleFiles sampleStore in
  m_devices (importFromFile "/tmp/export.json" false exported.2 new).1.2
  = persisted <$> m_devices sampleStore.
Proof.
  cbv zeta.
  apply (export_then_import_gives_persisted_records "/tmp/export.json" true laterTime
           sampleFiles sampleStore new).
  - apply sampleStore_keys.
  - apply map_Forall_insert_2;
      [apply sampleRecord_representable | apply map_Forall_empty].
Defined.


(** The rotation loop only removes files. *)
Lemma removeOldBackups_sub ok q f : forall fuel backups files,
  (removeOldBackups ok fuel backups files).2 !! q = Some f -> files !! q = Some f.
Proof.
  induction fuel as [|fuel IH]; intros backups files; cbn [removeOldBackups];
    [done |].
  destruct (MAX_BACKUP_COUNT <? length backups)%nat; [|done].
  destruct (takeLast backups) as [[rest last]|]; [|done].
  specialize (IH rest (if ok then delete last.1 files else files)).
  destruct (removeOldBackups ok fuel rest _) as [removed fs'].
  cbn [fst snd] in *. intros H. apply IH in H.
  destruct ok; [|done].
  apply lookup_delete_Some in H. tauto.
Qed.

(** A file that was there before [createBackup] is unchanged if it is still
    there afterwards. *)
Lemma createBackup_kept_file p io now fs db q f f0 :
  (createBackup p io now fs db).2 !! q = Some f ->
  fs !! q = Some f0 -> f = f0.
Proof.
  unfold createBackup.
  destruct (m_initialized db); cbn [negb fst snd]; [|congruence].
  destruct (FileSystem.exists_ _ _); [|cbn; congruence].
  unfold FileSystem.copy.
  destruct (fs !! m_databasePath db) as [fd|]; [|cbn; congruence].
  destruct (fs !! (if QString.isEmpty p then _ else p)) eqn:Hd; [cbn; congruence |].
  destruct (Io.copyOk io); [|cbn; congruence].
  set (dest := if QString.isEmpty p then _ else p) in *.
  destruct (removeOldBackups _ _ _ _) as [removed fs2] eqn:Hrot. cbn [fst snd].
  intros Hq Hsome.
  assert (fs2 = (removeOldBackups (Io.removeOk io)
                   (length (backupsIn dest (<[dest := FileSystem.mkFile
                      (FileSystem.data fd) (QDateTime.toMSecs now)
                      (FileSystem.ownerOnly fd)]> fs) db))
                   (backupsIn dest (<[dest := FileSystem.mkFile
                      (FileSystem.data fd) (QDateTime.toMSecs now)
                      (FileSystem.ownerOnly fd)]> fs) db)
                   (<[dest := FileSystem.mkFile
                      (FileSystem.data fd) (QDateTime.toMSecs now)
                      (FileSystem.ownerOnly fd)]> fs)).2) as E by (by rewrite Hrot).
  rewrite E in Hq. apply removeOldBackups_sub in Hq.
  destruct (decide (dest = q)) as [<- | Hne]; [congruence |].
  rewrite lookup_insert_ne in Hq by done. congruence.
Qed.

Lemma createBackup_path p io now fs db :
  m_databasePath (createBackup p io now fs db).1.2 = m_databasePath db
  /\ m_modified (createBackup p io now fs db).1.2 = m_modified db.
Proof.
  unfold createBackup.
  destruct (m_initialized db); cbn [negb fst snd]; [|done].
  destruct (FileSystem.exists_ _ _); [|done].
  destruct (FileSystem.copy _ _ _ _ _); [|done].
  by destruct (removeOldBackups _ _ _ _).
Qed.

(** X9.  [restoreFromBackup] from a file that holds a saved table (and
    that is still there once the safety backup of the current state has
    been made) replaces the table by the persisted form of the saved
    records, whatever the store held before.  When it returns [true] the
    database file holds the restored table, the store is not marked
    modified and [databaseLoaded] is emitted; when writing the database
    file fails it returns [false] with the restored table in memory,
    marked modified. *)
Theorem restoreFromBackup_brings_back_the_backed_up_records
    (backupPath : string) (io : Io.t) (now then_ : QDateTime.fields)
    (fs : FileSystem.t) (db saved : t) (file : FileSystem.file) :
  keys_are_ids (m_devices saved) ->
  map_Forall (fun _ r => representable r) (m_devices saved) ->
  FileSystem.exists_ backupPath fs = true ->
  (createBackup "" io now fs db).2 !! backupPath = Some file ->
  FileSystem.data file = QJsonDocument.toJson (document then_ saved) ->
  let out := restoreFromBackup backupPath io now fs db in
  m_devices out.1.1.2 = persisted <$> m_devices saved
  /\ (out.1.1.1 = true ->
      hasUnsavedChanges out.1.1.2 = false
      /\ out.2 = [databaseLoaded (deviceCount saved)]
      /\ out.1.2 !! m_databasePath db
         = Some (FileSystem.mkFile
                   (QJsonDocument.toJson (document now out.1.1.2))
                   (QDateTime.toMSecs now) true))
  /\ (out.1.1.1 = false ->
      hasUnsavedChanges out.1.1.2 = true
      /\ last out.2 = Some (databaseError "Failed to save restored database")).
Proof.
  intros Hkeys Hrep Hex Hfile Hdata. cbv zeta. unfold restoreFromBackup.
  rewrite Hex. cbn [negb].
  pose proof (createBackup_path "" io now fs db) as [Hpath _].
  destruct (createBackup "" io now fs db) as [[ret db1] fs1]. cbn [fst snd] in *.
  rewrite Hfile, Hdata.
  cbn [QJsonDocument.toJson QJsonDocument.fromJson QJsonDocument.object QJson.toObject].
  rewrite restoreItems_document by done.
  set (db2 := set_modified true (set_devices (persisted <$> m_devices saved) db1)).
  pose proof (writeToFile_success io now fs1 db2) as Hw.
  pose proof (writeToFile_signals io now fs1 db2) as [Hs1 Hs2].
  destruct (writeToFile io now fs1 db2) as [[ok fs2] sigs]. cbn [fst snd] in *.
  destruct ok; cbn [negb fst snd].
  - split; [done |]. split; [|done]. intros _. split; [done |].
    rewrite Hs1 by done. split.
    + unfold deviceCount. cbn. by rewrite map_size_fmap.
    + rewrite <- Hpath. exact (Hw eq_refl).
  - split; [done |]. split; [done |]. intros _. split; [done |].
    destruct (Hs2 eq_refl) as [message ->]. done.
Qed.


Lemma restoreFromBackup_witness :
  m_devices (restoreFromBackup sampleBackupPath Io.allOk laterTime
               filesWithBackup grownStore).1.1.2
  = persisted <$> m_devices sampleStore.
Proof.
  apply (restoreFromBackup_brings_back_the_backed_up_records sampleBackupPath
           Io.allOk laterTime sampleTime filesWithBackup grownStore sampleStore
           (FileSystem.mkFile
              (QJsonDocument.toJson (DatabaseManager.document sampleTime sampleStore))
              (QDateTime.toMSecs sampleTime) true)).
  - apply sampleStore_keys.
  - apply map_Forall_insert_2;
      [apply sampleRecord_representable | apply map_Forall_empty].
  - reflexivity.
  - by vm_compute.
  - reflexivity.
Defined.

(** [restoreFromBackup] from a path that does not exist, or from a
    file that is not JSON, returns [false], leaves the table and the
    modified flag as they were and emits one [databaseError]; when the
    path does not exist nothing at all happens (no safety backup is
    made). *)
Theorem restoreFromBackup_refuses_a_bad_backup
    (backupPath : string) (io : Io.t) (now : QDateTime.fields)
    (fs : FileSystem.t) (db : t) :
  (fs !! backupPath = None
   \/ exists f bytes, fs !! backupPath = Some f /\ FileSystem.data f = Raw bytes) ->
  let out := restoreFromBackup backupPath io now fs db in
  out.1.1.1 = false
  /\ m_devices out.1.1.2 = m_devices db
  /\ hasUnsavedChanges out.1.1.2 = hasUnsavedChanges db
  /\ (exists message, out.2 = [databaseError message])
  /\ (fs !! backupPath = None ->
      out = (false, db, fs,
             [databaseError ("Backup file not found: " +:+ backupPath)])).
Proof.
  intros Hbad. cbv zeta. unfold restoreFromBackup, FileSystem.exists_.
  destruct (fs !! backupPath) as [f0|] eqn:Hf; cbn [negb fst snd].
  2: { split; [done |]. split; [done |]. split; [done |]. split; [by eexists |]. done. }
  destruct Hbad as [? | (f & bytes & [= <-] & Hraw)]; [done |].
  pose proof (createBackup_devices "" io now fs db) as Hdev.
  pose proof (createBackup_path "" io now fs db) as [_ Hmod].
  pose proof (fun f => createBackup_kept_file "" io now fs db backupPath f f0) as Hkept.
  destruct (createBackup "" io now fs db) as [[ret db1] fs1]. cbn [fst snd] in *.
  unfold hasUnsavedChanges.
  destruct (fs1 !! backupPath) as [f1|] eqn:Hf1.
  - rewrite (Hkept f1 eq_refl Hf), Hraw. cbn [QJsonDocument.fromJson fst snd].
    split; [done |]. split; [done |]. split; [done |]. split; [by eexists |]. done.
  - cbn [fst snd]. split; [done |]. split; [done |]. split; [done |].
    split; [by eexists |]. done.
Qed.

Lemma restoreFromBackup_refuses_witness :
  (restoreFromBackup sampleBackupPath Io.allOk laterTime sampleFiles sampleStore).1.1.1
  = false.
Proof.
  apply (restoreFromBackup_refuses_a_bad_backup sampleBackupPath Io.allOk laterTime
           sampleFiles sampleStore).
  left. reflexivity.
Defined.

End StorePersistence.

Section StoreMaintenance.
Import DatabaseManager.

Lemma recordIssues_nil r : recordIssues r = [] <-> healthy r.
Proof.
  unfold recordIssues, healthy.
  destruct (QString.isEmpty (DeviceRecord.uniqueId r)) eqn:E1.
  { split; [done |]. intros [H _]. apply isEmpty_true in E1. done. }
  assert (DeviceRecord.uniqueId r <> "") as Hid.
  { intros H. apply isEmpty_true in H. congruence. }
  destruct (QString.isEmpty (DeviceRecord.hash r)) eqn:E2.
  - apply isEmpty_true in E2.
    destruct (Z.ltb_spec 0 (DeviceRecord.trustLevel r)); cbn [andb app].
    + split; [done |]. intros (_ & H' & _). specialize (H' E2). lia.
    + destruct (QDateTime.isValid _); cbn [negb app].
      * split; [|done]. intros _. split; [done |]. split; [intros; lia | done].
      * split; [done |]. intros (_ & _ & ?). done.
  - assert (DeviceRecord.hash r <> "") as Hh.
    { intros H. apply isEmpty_true in H. congruence. }
    cbn [andb app].
    destruct (QDateTime.isValid _); cbn [negb app].
    + split; [|done]. intros _. split; [done |]. split; [done | done].
    + split; [done |]. intros (_ & _ & ?). done.
Qed.

Lemma recordIssues_empty_id r :
  "Found device with empty unique ID" ∈ recordIssues r
  <-> DeviceRecord.uniqueId r = "".
Proof.
  unfold recordIssues. rewrite !elem_of_app.
  destruct (QString.isEmpty (DeviceRecord.uniqueId r)) eqn:E.
  - apply isEmpty_true in E. split; [done |]. intros _. left. by left.
  - split.
    + intros [H | [H | H]].
      * by apply elem_of_nil in H.
      * destruct (_ && _); [|by apply elem_of_nil in H].
        apply list_elem_of_singleton in H. discriminate.
      * destruct (negb _); [|by apply elem_of_nil in H].
        apply list_elem_of_singleton in H. discriminate.
    + intros H. apply isEmpty_true in H. congruence.
Qed.

Lemma validateIntegrity_elem issue db :
  issue ∈ validateIntegrity db
  <-> exists k r, m_devices db !! k = Some r /\ issue ∈ recordIssues r.
Proof.
  unfold validateIntegrity. rewrite list_elem_of_In, in_flat_map. split.
  - intros (r & Hr & Hi). apply list_elem_of_In, list_elem_of_fmap in Hr
      as ([k r'] & -> & Hkr). apply elem_of_map_to_list in Hkr.
    exists k, r'. split; [done |]. by apply list_elem_of_In.
  - intros (k & r & Hk & Hi). exists r. split; [|by apply list_elem_of_In].
    apply list_elem_of_In, list_elem_of_fmap. exists (k, r). split; [done |].
    by apply elem_of_map_to_list.
Qed.

(** X10.  [validateIntegrity] reports nothing exactly when every record has
    a non-empty id, a valid first-seen date and, if it is trusted, a hash.
    It reports an empty id exactly when some record has one, and at most
    three issues for each record.  A store initialised from any file never
    holds a record with an empty id, so that issue is never reported for
    it. *)
Theorem validateIntegrity_reports_nothing_iff_healthy (db : t) :
  (validateIntegrity db = [] <-> map_Forall (fun _ r => healthy r) (m_devices db))
  /\ ("Found device with empty unique ID" ∈ validateIntegrity db
      <-> exists k r, m_devices db !! k = Some r /\ DeviceRecord.uniqueId r = "")
  /\ (length (validateIntegrity db) <= 3 * size (m_devices db))%nat
  /\ (forall path configDir io fs,
        "Found device with empty unique ID"
        ∉ validateIntegrity (initialize path configDir io fs new).1.2).
Proof.
  split; [|split; [|split]].
  - split.
    + intros Hnil k r Hk. apply recordIssues_nil.
      destruct (recordIssues r) as [|issue l] eqn:E; [done |].
      assert (issue ∈ validateIntegrity db) as Hin.
      { apply validateIntegrity_elem. exists k, r. split; [done |].
        rewrite E. by left. }
      rewrite Hnil in Hin. by apply elem_of_nil in Hin.
    + intros Hall. destruct (validateIntegrity db) as [|issue l] eqn:E; [done |].
      assert (issue ∈ validateIntegrity db) as Hin by (rewrite E; by left).
      apply validateIntegrity_elem in Hin as (k & r & Hk & Hi).
      apply Hall in Hk. apply recordIssues_nil in Hk. rewrite Hk in Hi.
      by apply elem_of_nil in Hi.
  - rewrite validateIntegrity_elem. split.
    + intros (k & r & Hk & Hi). exists k, r. by rewrite <- recordIssues_empty_id.
    + intros (k & r & Hk & Hi). exists k, r. by rewrite recordIssues_empty_id.
  - unfold validateIntegrity. rewrite <- length_map_to_list.
    rewrite <- (length_fmap snd (map_to_list (m_devices db))).
    induction ((map_to_list (m_devices db)).*2) as [|r l IH]; [done |].
    cbn [flat_map length]. rewrite length_app.
    assert (length (recordIssues r) <= 3)%nat; [|lia].
    unfold recordIssues. rewrite !length_app.
    destruct (QString.isEmpty (DeviceRecord.uniqueId r)), (_ && _), (negb _);
      cbn [length]; lia.
  - intros path configDir io fs Hin.
    apply validateIntegrity_elem in Hin as (k & r & Hk & Hi).
    apply recordIssues_empty_id in Hi.
    destruct (initialize_establishes_keys path configDir io fs) as [Hkeys Hno].
    pose proof (Hkeys k r Hk) as Hid. cbn in Hid.
    rewrite Hi in Hid. subst k. congruence.
Qed.

Lemma foldl_delete_lookup {A} (ids : list string) : forall (m : gmap string A) k,
  foldl (fun m id => delete id m) m ids !! k
  = if decide (k ∈ ids) then None else m !! k.
Proof.
  induction ids as [|id ids IH]; intros m k; cbn [foldl].
  - destruct (decide _) as [H|]; [by apply elem_of_nil in H | done].
  - rewrite IH. destruct (decide (k ∈ ids)) as [H | H].
    + rewrite decide_True; [done | by right].
    + destruct (decide (k = id)) as [-> | Hne].
      * rewrite lookup_delete_eq. rewrite decide_True; [done | by left].
      * rewrite lookup_delete_ne by done. rewrite decide_False; [done |].
        rewrite elem_of_cons. tauto.
Qed.

Lemma compact_table db :
  m_devices (compact db).1
  = filter (fun kr => DeviceRecord.uniqueId kr.2 <> "") (m_devices db).
Proof.
  unfold compact.
  set (toRemove := (filter _ (map_to_list (m_devices db))).*1).
  assert (m_devices (set_devices (foldl (fun m id => delete id m) (m_devices db)
                                    toRemove) db)
          = filter (fun kr => DeviceRecord.uniqueId kr.2 <> "") (m_devices db)) as H.
  { cbn [m_devices set_devices]. apply map_eq. intros k.
    rewrite foldl_delete_lookup.
    destruct (decide (k ∈ toRemove)) as [Hin | Hout].
    - apply list_elem_of_fmap in Hin as ([k' r] & -> & Hin).
      apply list_elem_of_filter in Hin as [He Hin]. cbn in He.
      apply elem_of_map_to_list in Hin. apply isEmpty_true in He.
      symmetry. apply map_lookup_filter_None. right. intros r' Hr'. cbn.
      cbn in Hr'. rewrite Hin in Hr'. injection Hr' as <-. tauto.
    - destruct (m_devices db !! k) as [r|] eqn:Hk.
      + symmetry. apply map_lookup_filter_Some. split; [done |]. cbn.
        intros He. apply Hout. apply list_elem_of_fmap. exists (k, r).
        split; [done |]. apply list_elem_of_filter. split.
        * cbn. by apply isEmpty_true.
        * by apply elem_of_map_to_list.
      + symmetry. apply map_lookup_filter_None. by left. }
  destruct (negb _); [|done]. by rewrite markModified_devices.
Qed.

Lemma compact_clean (d : t) :
  (forall k r, m_devices d !! k = Some r -> DeviceRecord.uniqueId r <> "") ->
  compact d = (d, []).
Proof.
  intros Hd. unfold compact.
  assert (filter (fun kr : string * DeviceRecord.t =>
                    QString.isEmpty (DeviceRecord.uniqueId kr.2) = true)
                 (map_to_list (m_devices d)) = []) as ->.
  { destruct (filter _ _) as [|[k r] l] eqn:E; [done |].
    assert ((k, r) ∈ (k, r) :: l) as Hin by (by left).
    rewrite <- E in Hin. apply list_elem_of_filter in Hin as [He Hin].
    apply elem_of_map_to_list in Hin. apply Hd in Hin.
    cbn in He. apply isEmpty_true in He. done. }
  cbn. by rewrite set_devices_same.
Qed.

(** X11.  [compact] removes exactly the records whose id is empty and
    leaves every other record as it is.  Afterwards [validateIntegrity]
    reports no empty id, and a second [compact] changes nothing and does
    not mark the store modified; when no record has an empty id the store
    is left exactly as it was.  When a record is removed the store is
    marked modified.  In a table filed by id the only entry removed is
    the one under the empty key. *)
Theorem compact_removes_the_records_without_id (db : t) :
  let out := compact db in
  m_devices out.1 = filter (fun kr => DeviceRecord.uniqueId kr.2 <> "") (m_devices db)
  /\ ("Found device with empty unique ID" ∉ validateIntegrity out.1)
  /\ compact out.1 = (out.1, [])
  /\ ((forall k r, m_devices db !! k = Some r -> DeviceRecord.uniqueId r <> "") ->
      out = (db, []))
  /\ ((exists k r, m_devices db !! k = Some r /\ DeviceRecord.uniqueId r = "") ->
      hasUnsavedChanges out.1 = true)
  /\ (keys_are_ids (m_devices db) -> m_devices out.1 = delete "" (m_devices db)).
Proof.
  cbv zeta. pose proof (compact_table db) as Htable.
  assert (forall k r, m_devices (compact db).1 !! k = Some r ->
                      DeviceRecord.uniqueId r <> "") as Hafter.
  { intros k r. rewrite Htable. intros H.
    by apply map_lookup_filter_Some_1_2 in H. }
  split; [done |]. split; [|split; [|split; [|split]]].
  - intros Hin. apply validateIntegrity_elem in Hin as (k & r & Hk & Hi).
    apply recordIssues_empty_id in Hi. by apply Hafter in Hk.
  - by apply compact_clean.
  - apply compact_clean.
  - intros (k & r & Hk & Hid). unfold compact, hasUnsavedChanges.
    destruct (filter _ (map_to_list (m_devices db))) as [|kr l] eqn:E.
    + exfalso. assert ((k, r) ∈ @nil (string * DeviceRecord.t)) as Hin.
      { rewrite <- E. apply list_elem_of_filter. split.
        - cbn. by apply isEmpty_true.
        - by apply elem_of_map_to_list. }
      by apply elem_of_nil in Hin.
    + done.
  - intros Hkeys. rewrite Htable. apply map_eq. intros k.
    destruct (decide (k = "")) as [-> | Hne].
    + rewrite lookup_delete_eq. apply map_lookup_filter_None. right.
      intros r Hr. cbn. apply Hkeys in Hr. cbn in Hr. tauto.
    + rewrite lookup_delete_ne by done.
      destruct (m_devices db !! k) as [r|] eqn:Hk.
      * apply map_lookup_filter_Some. split; [done |]. cbn.
        apply Hkeys in Hk. cbn in Hk. congruence.
      * apply map_lookup_filter_None. by left.
Qed.

(** The loop of [getStats]. *)
Lemma countRecord_bounds l : forall s,
  let s' := foldl countRecord s l in
  Stats.totalDevices s' = Stats.totalDevices s
  /\ Stats.lastModified s' = Stats.lastModified s
  /\ Stats.lastBackup s' = Stats.lastBackup s
  /\ Stats.fileSizeBytes s' = Stats.fileSizeBytes s
  /\ Stats.trustedDevices s
     <= Stats.trustedDevices s' <= Stats.trustedDevices s + Z.of_nat (length l)
  /\ Stats.autoMountDevices s
     <= Stats.autoMountDevices s' <= Stats.autoMountDevices s + Z.of_nat (length l)
  /\ (Forall (fun r => DeviceRecord.trustLevel r <= 0) l ->
      Stats.trustedDevices s' = Stats.trustedDevices s)
  /\ (Forall (fun r => 0 < DeviceRecord.trustLevel r) l ->
      Stats.trustedDevices s' = Stats.trustedDevices s + Z.of_nat (length l)).
Proof.
  induction l as [|r l IH]; intros s; cbv zeta; cbn [foldl length].
  - repeat split; lia.
  - specialize (IH (countRecord s r)). cbv zeta in IH.
    destruct IH as (I1 & I2 & I3 & I4 & I5 & I6 & I7 & I8).
    assert (Stats.totalDevices (countRecord s r) = Stats.totalDevices s
            /\ Stats.lastModified (countRecord s r) = Stats.lastModified s
            /\ Stats.lastBackup (countRecord s r) = Stats.lastBackup s
            /\ Stats.fileSizeBytes (countRecord s r) = Stats.fileSizeBytes s
            /\ Stats.trustedDevices (countRecord s r)
               = Stats.trustedDevices s
                 + (if 0 <? DeviceRecord.trustLevel r then 1 else 0)
            /\ Stats.autoMountDevices (countRecord s r)
               = Stats.autoMountDevices s
                 + (if DeviceRecord.autoMount r then 1 else 0))
      as (C1 & C2 & C3 & C4 & C5 & C6).
    { unfold countRecord.
      destruct (0 <? DeviceRecord.trustLevel r), (DeviceRecord.autoMount r);
        cbn; repeat split; lia. }
    rewrite I1, I2, I3, I4, C1, C2, C3, C4.
    split; [done |]. split; [done |]. split; [done |]. split; [done |].
    split; [destruct (0 <? DeviceRecord.trustLevel r); lia |].
    split; [destruct (DeviceRecord.autoMount r); lia |].
    split.
    + intros Hall. apply Forall_cons in Hall as [Hr Hall]. rewrite (I7 Hall), C5.
      destruct (Z.ltb_spec 0 (DeviceRecord.trustLevel r)); lia.
    + intros Hall. apply Forall_cons in Hall as [Hr Hall]. rewrite (I8 Hall), C5.
      destruct (Z.ltb_spec 0 (DeviceRecord.trustLevel r)); lia.
Qed.

(** The statistics [getStats] reports are consistent: the total is
    the number of records, the numbers of trusted and of auto-mounted
    devices lie between zero and the total, the times are those of the
    last save and the last backup, and the file size is zero while there
    is no database file.  When no record has a positive trust level no
    device counts as trusted; when all have, every device does. *)
Theorem getStats_counts_are_bounded_by_the_total
    (fileSize : Z) (fs : FileSystem.t) (db : t) :
  let stats := getStats fileSize fs db in
  Stats.totalDevices stats = deviceCount db
  /\ 0 <= Stats.trustedDevices stats <= Stats.totalDevices stats
  /\ 0 <= Stats.autoMountDevices stats <= Stats.totalDevices stats
  /\ Stats.lastModified stats = m_lastSaved db
  /\ Stats.lastBackup stats = m_lastBackup db
  /\ (FileSystem.exists_ (m_databasePath db) fs = false -> Stats.fileSizeBytes stats = 0)
  /\ (map_Forall (fun _ r => DeviceRecord.trustLevel r <= 0) (m_devices db) ->
      Stats.trustedDevices stats = 0)
  /\ (map_Forall (fun _ r => 0 < DeviceRecord.trustLevel r) (m_devices db) ->
      Stats.trustedDevices stats = Stats.totalDevices stats).
Proof.
  cbv zeta. unfold getStats.
  destruct (countRecord_bounds (map_to_list (m_devices db)).*2
              (Stats.mk (deviceCount db) 0 0 (m_lastSaved db) (m_lastBackup db) 0))
    as (I1 & I2 & I3 & I4 & I5 & I6 & I7 & I8).
  cbv zeta in *. cbn [Stats.totalDevices Stats.trustedDevices Stats.autoMountDevices
    Stats.lastModified Stats.lastBackup Stats.fileSizeBytes] in *.
  rewrite length_fmap, length_map_to_list in *.
  assert (forall P : DeviceRecord.t -> Prop,
            map_Forall (fun _ r => P r) (m_devices db) ->
            Forall P (map_to_list (m_devices db)).*2) as Hall.
  { intros P HP. apply Forall_forall. intros r Hr.
    apply list_elem_of_fmap in Hr as ([k r'] & -> & Hkr).
    apply elem_of_map_to_list in Hkr. by apply HP in Hkr. }
  unfold deviceCount in *.
  destruct (FileSystem.exists_ _ _);
    cbn [Stats.totalDevices Stats.trustedDevices Stats.autoMountDevices
         Stats.lastModified Stats.lastBackup Stats.fileSizeBytes];
    rewrite ?I1, ?I2, ?I3, ?I4;
    (split; [done |]); (split; [lia |]); (split; [lia |]); (split; [done |]);
    (split; [done |]); (split; [done |]);
    (split; [intros H; apply Hall in H; by apply I7 |]);
    intros H; apply Hall in H; by apply I8.
Qed.


Lemma entryInfoList_listed dir nameFilter fs e :
  e ∈ FileSystem.entryInfoList dir nameFilter fs ->
  FileSystem.listed dir nameFilter e = true /\ fs !! e.1 = Some e.2.
Proof.
  rewrite entryInfoList_perm. intros H.
  apply list_elem_of_filter in H as [Hl Hm]. split; [done |].
  destruct e as [k x]. by apply elem_of_map_to_list in Hm.
Qed.



End StoreMaintenance.

(* ===================================================================== *)
(** * The hasher's bookkeeping and its two paths *)
(* ===================================================================== *)

Section HasherNames.
Import HashWorker.

Lemma compare_ci_eqb a b :
  (QString.compare_ci a b =? 0) = true <-> equal_ignoring_case a b.
Proof. by rewrite Z.eqb_eq, compare_ci_zero. Qed.

Lemma compare_ci_neqb a b :
  ~ equal_ignoring_case a b -> (QString.compare_ci a b =? 0) = false.
Proof. intros H. apply not_true_is_false. by rewrite compare_ci_eqb. Qed.

(** X13.  [algorithmFromName] undoes [algorithmName]; it accepts each of
    the four names in any mix of upper and lower case; every other text
    selects SHA-256; and the four names are distinct. *)
Theorem algorithm_names_round_trip :
  (forall a, algorithmFromName (algorithmName a) = a)
  /\ (forall a name,
        equal_ignoring_case name (algorithmName a) -> algorithmFromName name = a)
  /\ (forall name,
        (forall a, ~ equal_ignoring_case name (algorithmName a)) ->
        algorithmFromName name = SHA256)
  /\ (forall a b, algorithmName a = algorithmName b -> a = b).
Proof.
  assert (forall a name,
            equal_ignoring_case name (algorithmName a) -> algorithmFromName name = a)
    as Hci.
  { intros a name H. unfold algorithmFromName, equal_ignoring_case in *.
    destruct a; cbn [algorithmName] in H.
    - by rewrite (proj2 (compare_ci_eqb name "SHA256") H).
    - rewrite compare_ci_neqb
        by (unfold equal_ignoring_case; rewrite H; discriminate).
      by rewrite (proj2 (compare_ci_eqb name "SHA512") H).
    - rewrite !compare_ci_neqb
        by (unfold equal_ignoring_case; rewrite H; discriminate).
      by rewrite (proj2 (compare_ci_eqb name "BLAKE2b") H).
    - rewrite !compare_ci_neqb
        by (unfold equal_ignoring_case; rewrite H; discriminate).
      by rewrite (proj2 (compare_ci_eqb name "XXH3-128") H). }
  split; [|split; [exact Hci | split]].
  - intros a. by apply Hci.
  - intros name Hnone. unfold algorithmFromName.
    rewrite !compare_ci_neqb; [done | apply (Hnone XXH3_128) | apply (Hnone BLAKE2b)
                              | apply (Hnone SHA512) | apply (Hnone SHA256)].
  - intros [] []; cbn; congruence.
Qed.

End HasherNames.

Section HasherBookkeeping.
Import HashWorker.

Lemma isRunning_true id w : isRunning id w = true <-> is_Some (m_jobs w !! id).
Proof.
  unfold isRunning. destruct (m_jobs w !! id); split; try done; by intros [? ?].
Qed.

Lemma isRunning_false id w : isRunning id w = false <-> m_jobs w !! id = None.
Proof. unfold isRunning. destruct (m_jobs w !! id); split; congruence. Qed.

Lemma onJobFinished_untracked id outcome w :
  m_jobs w !! id = None -> onJobFinished id outcome w = (w, []).
Proof. intros H. unfold onJobFinished. by rewrite H. Qed.

(** The worker after the job [id] has been taken off the table. *)
Lemma onJobFinished_tracked id outcome w state :
  m_jobs w !! id = Some state ->
  exists timer,
    onJobFinished id outcome w
    = (mk (delete id (m_jobs w)) (m_jobCounter w) timer (m_maxConcurrent w)
          (globalPool w),
       [if cancelled state then hashCancelled id
        else match outcome with
             | Returned result =>
                 if HashResult.success result then hashCompleted id result
                 else hashFailed id (HashResult.errorMessage result)
             | Threw what => hashFailed id ("Exception: " +:+ what)
             end]).
Proof.
  intros H. unfold onJobFinished. rewrite H. eexists.
  destruct (cancelled state); [reflexivity |].
  destruct outcome as [result | what]; [|reflexivity].
  by destruct (HashResult.success result).
Qed.

(** X14.  [onJobFinished] reports every job exactly once.  For an id that
    is not on the table it does nothing.  For an id on the table it emits
    exactly one of [hashCancelled], [hashCompleted] and [hashFailed] for
    that id, takes the job off the table (one job fewer, the others
    untouched), and a further call for the same id does nothing.
    [hashCompleted] is emitted exactly when the job was not cancelled and
    its future returned a successful result, and carries that result;
    [hashCancelled] exactly when the job's cancellation flag is set. *)
Theorem onJobFinished_reports_each_job_once
    (w : t) (id : string) (outcome : FutureOutcome) :
  let out := onJobFinished id outcome w in
  (isRunning id w = false -> out = (w, []))
  /\ (isRunning id w = true ->
      (out.2 = [hashCancelled id]
       \/ (exists result, out.2 = [hashCompleted id result])
       \/ (exists error, out.2 = [hashFailed id error]))
      /\ activeJobCount out.1 = activeJobCount w - 1
      /\ (forall k, k <> id -> m_jobs out.1 !! k = m_jobs w !! k))
  /\ isRunning id out.1 = false
  /\ (forall again, onJobFinished id again out.1 = (out.1, []))
  /\ (forall result,
        hashCompleted id result ∈ out.2 <->
        exists state, m_jobs w !! id = Some state /\ cancelled state = false
                      /\ outcome = Returned result
                      /\ HashResult.success result = true)
  /\ (hashCancelled id ∈ out.2 <->
      exists state, m_jobs w !! id = Some state /\ cancelled state = true).
Proof.
  cbv zeta.
  destruct (m_jobs w !! id) as [state|] eqn:Hjob.
  2: { rewrite (onJobFinished_untracked id outcome w Hjob). cbn [fst snd].
       split; [done |].
       split; [by rewrite (proj2 (isRunning_false id w) Hjob) |].
       split; [by apply isRunning_false |].
       split; [intros again; by apply onJobFinished_untracked |].
       split; [intros result | ]; (split; [intros H; by apply elem_of_nil in H |]).
       - by intros (? & ? & _).
       - by intros (? & ? & _). }
  destruct (onJobFinished_tracked id outcome w state Hjob) as [timer ->].
  cbn [fst snd]. set (w' := mk (delete id (m_jobs w)) _ _ _ _).
  assert (m_jobs w' !! id = None) as Hgone by apply lookup_delete_eq.
  split; [intros H; apply isRunning_false in H; congruence |].
  split; [intros _; split; [|split] |].
  - destruct (cancelled state); [by left |].
    destruct outcome as [result | what]; [|right; right; by eexists].
    destruct (HashResult.success result); right; [left | right]; by eexists.
  - unfold activeJobCount. cbn [m_jobs w'].
    rewrite map_size_delete_Some by (by eexists).
    assert (size (m_jobs w) <> 0%nat) by (by apply map_size_ne_0_lookup_2 with id).
    lia.
  - intros k Hk. by apply lookup_delete_ne.
  - split; [by apply isRunning_false |].
    split; [intros again; by apply onJobFinished_untracked |].
    split.
    + intros r. rewrite list_elem_of_singleton. split.
      * destruct (cancelled state) eqn:Hc; [done |].
        destruct outcome as [result | what]; [|done].
        destruct (HashResult.success result) eqn:Hs; [|done].
        intros [= <-]. by exists state.
      * intros (s & [= <-] & Hc & -> & Hs). by rewrite Hc, Hs.
    + rewrite list_elem_of_singleton. split.
      * destruct (cancelled state) eqn:Hc; [intros _; by exists state |].
        destruct outcome as [result | what]; [|done].
        by destruct (HashResult.success result).
      * intros (s & [= <-] & Hc). by rewrite Hc.
Qed.

Lemma cancelAll_lookup id w :
  m_jobs (cancelAll w) !! id = set_cancelled true <$> (m_jobs w !! id).
Proof. unfold cancelAll. cbn [m_jobs]. apply lookup_fmap. Qed.

(** After [cancelAll], every job on the table ends with
    [hashCancelled], whatever its future holds; the same jobs are still on
    the table, and cancelling twice is the same as cancelling once.
    [cancelHash] refuses an id that is not on the table and changes
    nothing; for an id on the table it returns [true], that job then ends
    with [hashCancelled], it stays on the table until it finishes, and no
    other job is touched. *)
Theorem cancelAll_cancels_every_job (w : t) :
  (forall id outcome,
     isRunning id w = true ->
     (onJobFinished id outcome (cancelAll w)).2 = [hashCancelled id])
  /\ (forall id, isRunning id (cancelAll w) = isRunning id w)
  /\ activeJobCount (cancelAll w) = activeJobCount w
  /\ cancelAll (cancelAll w) = cancelAll w
  /\ (forall id, isRunning id w = false -> cancelHash id w = (false, w))
  /\ (forall id outcome,
        isRunning id w = true ->
        (cancelHash id w).1 = true
        /\ (onJobFinished id outcome (cancelHash id w).2).2 = [hashCancelled id]
        /\ activeJobCount (cancelHash id w).2 = activeJobCount w
        /\ (forall k, k <> id ->
              m_jobs (cancelHash id w).2 !! k = m_jobs w !! k)).
Proof.
  split; [|split; [|split; [|split; [|split]]]].
  - intros id outcome Hrun. apply isRunning_true in Hrun as [state Hs].
    destruct (onJobFinished_tracked id outcome (cancelAll w)
                (set_cancelled true state)) as [timer ->]; [|done].
    by rewrite cancelAll_lookup, Hs.
  - intros id. unfold isRunning. rewrite cancelAll_lookup.
    by destruct (m_jobs w !! id).
  - unfold activeJobCount, cancelAll. cbn [m_jobs]. by rewrite map_size_fmap.
  - unfold cancelAll. cbn [m_jobs m_jobCounter m_progressTimerActive
      m_maxConcurrent globalPool]. f_equal.
    rewrite <- map_fmap_compose. apply map_fmap_ext. by intros k [].
  - intros id Hrun. apply isRunning_false in Hrun. unfold cancelHash.
    by rewrite Hrun.
  - intros id outcome Hrun. apply isRunning_true in Hrun as [state Hs].
    unfold cancelHash. rewrite Hs. cbn [fst snd].
    split; [done |]. split; [|split].
    + destruct (onJobFinished_tracked id outcome
                  (mk (<[id := set_cancelled true state]> (m_jobs w)) (m_jobCounter w)
                      (m_progressTimerActive w) (m_maxConcurrent w) (globalPool w))
                  (set_cancelled true state)) as [timer ->]; [|done].
      cbn [m_jobs]. apply lookup_insert_eq.
    + unfold activeJobCount. cbn [m_jobs].
      by rewrite map_size_insert_Some by (by eexists).
    + intros k Hk. cbn [m_jobs]. by apply lookup_insert_ne.
Qed.

End HasherBookkeeping.

Section HasherPaths.
Import HashWorker.

Variable EVP_Digest : EVP_MD -> string -> string.

Lemma length_append (a b : string) :
  String.length (a +:+ b) = (String.length a + String.length b)%nat.
Proof. induction a as [|c a IH]; [done |]. rewrite app_cons. cbn. by rewrite IH. Qed.

Lemma append_empty_r (a : string) : a +:+ "" = a.
Proof. induction a as [|c a IH]; [done |]. rewrite app_cons. by rewrite IH. Qed.

Lemma readLoop_finished os : forall rs n data total,
  (forall k, cancelledAt os k = false) ->
  readsSucceed rs = true ->
  readLoop os rs n data total
  = Finished (data +:+ dataBeforeEof rs)
      (total + Z.of_nat (String.length (dataBeforeEof rs))).
Proof.
  induction rs as [|[bytes | error] rs IH]; intros n data total Hc Hok;
    cbn [readLoop dataBeforeEof readsSucceed] in *; [| |done].
  - rewrite append_empty_r. cbn. f_equal. lia.
  - destruct (QString.isEmpty bytes) eqn:E.
    + rewrite append_empty_r. cbn. f_equal. lia.
    + cbn [orb] in Hok. rewrite Hc, IH by done.
      rewrite append_assoc, length_append. f_equal. lia.
Qed.

(** X15.  When the device opens (with or without [O_DIRECT]), the digest
    context and the buffer are set up, no read fails before the end of
    the data and the job is not cancelled, [hashWithRead] succeeds: the
    hash is the hex text of the digest of all bytes read up to the first
    empty read, in order; the number of bytes reported is their number; the
    duration is the elapsed time; no error message is set; and the
    algorithm reported is the one requested, except that XXH3-128 is
    reported as SHA256. *)
Theorem hashWithRead_hashes_all_the_data (os : Os) (state : JobState) :
  openDirectOk os || openOk os = true ->
  ctxNewOk os = true -> digestInitOk os = true -> memalignOk os = true ->
  readsSucceed (reads os) = true ->
  (forall k, cancelledAt os k = false) ->
  let r := hashWithRead EVP_Digest os state in
  let r0 := HashResult.mk (deviceNode (config state)) ""
              (algorithmName (algorithm (config state))) 0 0 false "" in
  let md := (selectDigest (algorithm (config state)) r0).1 in
  HashResult.success r = true
  /\ HashResult.hash r = toHex (EVP_Digest md (dataBeforeEof (reads os)))
  /\ HashResult.bytesProcessed r
     = Z.of_nat (String.length (dataBeforeEof (reads os)))
  /\ HashResult.durationMs r = elapsedMs os
  /\ HashResult.deviceNode r = deviceNode (config state)
  /\ HashResult.errorMessage r = ""
  /\ HashResult.algorithm r
     = match algorithm (config state) with
       | XXH3_128 => "SHA256"
       | algo => algorithmName algo
       end.
Proof.
  intros Hopen Hctx Hinit Hmem Hreads Hcancel. cbv zeta. unfold hashWithRead.
  assert (negb (openDirectOk os) && negb (openOk os) = false) as ->.
  { destruct (openDirectOk os), (openOk os); done. }
  rewrite Hctx, Hinit, Hmem. cbn [negb].
  rewrite readLoop_finished by done. rewrite app_empty.
  destruct (algorithm (config state)); cbn; repeat split; done.
Qed.


Lemma mmapLoop_finished os deviceSize : forall fuel n data offset d off,
  offset <= deviceSize ->
  mmapLoop fuel os deviceSize n data offset = Finished d off -> off = deviceSize.
Proof.
  induction fuel as [|fuel IH]; intros n data offset d off Hle; cbn [mmapLoop];
    destruct (Z.ltb_spec offset deviceSize) as [Hlt | Hge]; try done;
    try (intros [= _ <-]; lia).
  destruct (cancelledAt os n); [done |].
  destruct (mapChunk os offset _); [|done].
  apply IH. unfold chunkSize. lia.
Qed.

Lemma mmapLoop_broken os deviceSize : forall fuel n data offset e off,
  mmapLoop fuel os deviceSize n data offset = Broken e off ->
  e = "mmap failed: " +:+ mapError os.
Proof.
  induction fuel as [|fuel IH]; intros n data offset e off; cbn [mmapLoop];
    destruct (offset <? deviceSize); try done.
  destruct (cancelledAt os n); [done |].
  destruct (mapChunk os offset _); [apply IH | by intros [= <- _]].
Qed.

(** X16.  A memory-mapped hash that succeeds has covered the whole
    device: the size is positive, the loop ran to the end, the number of
    bytes reported equals the device size, and the hash is the hex text of
    the digest of the bytes mapped. *)
Theorem hashWithMmap_covers_the_whole_device (os : Os) (state : JobState) :
  0 <= totalBytes state -> 0 <= sizeOfDevice os ->
  let r := hashWithMmap EVP_Digest os state in
  let deviceSize :=
    if totalBytes state =? 0 then sizeOfDevice os else totalBytes state in
  HashResult.success r = true ->
  0 < deviceSize
  /\ HashResult.bytesProcessed r = deviceSize
  /\ HashResult.durationMs r = elapsedMs os
  /\ HashResult.errorMessage r = ""
  /\ exists data,
       mmapLoop (chunkCount deviceSize) os deviceSize 0 "" 0 = Finished data deviceSize
       /\ HashResult.hash r
          = toHex (EVP_Digest
                     (selectDigest (algorithm (config state)) r).1 data).
Proof.
  intros Htotal Hsize. cbv zeta. unfold hashWithMmap.
  set (deviceSize := if totalBytes state =? 0 then sizeOfDevice os
                     else totalBytes state).
  assert (0 <= deviceSize) as Hpos.
  { unfold deviceSize. by destruct (totalBytes state =? 0). }
  destruct (openOk os); cbn [negb]; [|done].
  destruct (Z.eqb_spec deviceSize 0) as [Hz | Hnz]; [done |].
  destruct (ctxNewOk os); cbn [negb]; [|done].
  destruct (digestInitOk os); cbn [negb];
    [|by destruct (algorithm (config state))].
  pose proof (mmapLoop_finished os deviceSize (chunkCount deviceSize) 0 "" 0) as Hfin.
  destruct (mmapLoop (chunkCount deviceSize) os deviceSize 0 "" 0)
    as [data off | | |] eqn:Hloop;
    try (by destruct (algorithm (config state))).
  specialize (Hfin data off Hpos eq_refl). subst off.
  intros _. split; [lia |].
  destruct (algorithm (config state)); cbn;
    (split; [done |]); (split; [done |]); (split; [done |]);
    by exists data.
Qed.

(** The error message in the goal starts with [mmap]. *)
Ltac mentions_mmap :=
  match goal with
  | |- context [QString.contains "mmap" ?x] =>
      change (QString.contains "mmap" x) with true
  end.

(** X17.  [executeHash] uses the buffered-read path when memory mapping
    is not requested.  When it is requested, a successful mapped hash is
    returned as it is; the read path is tried instead when the device
    cannot be opened for mapping, when its size is zero, or when a mapping
    fails; and it is not tried when the mapped hash was cancelled or the
    digest could not be set up: that failure is returned. *)
Theorem executeHash_retries_with_read_only_when_mapping_fails
    (os : Os) (state : JobState) :
  let m := hashWithMmap EVP_Digest os state in
  let deviceSize :=
    if totalBytes state =? 0 then sizeOfDevice os else totalBytes state in
  let loop := mmapLoop (chunkCount deviceSize) os deviceSize 0 "" 0 in
  (useMemoryMapping (config state) = false ->
     executeHash EVP_Digest os state = hashWithRead EVP_Digest os state)
  /\ (useMemoryMapping (config state) = true ->
      (HashResult.success m = true -> executeHash EVP_Digest os state = m)
      /\ (openOk os = false \/ deviceSize = 0 ->
          executeHash EVP_Digest os state = hashWithRead EVP_Digest os state)
      /\ (openOk os = true -> deviceSize <> 0 ->
          ctxNewOk os = true -> digestInitOk os = true ->
          ((exists e off, loop = Broken e off) ->
           executeHash EVP_Digest os state = hashWithRead EVP_Digest os state)
          /\ ((exists off, loop = Interrupted off) ->
              executeHash EVP_Digest os state = m
              /\ HashResult.success m = false
              /\ HashResult.errorMessage m = "Cancelled"))
      /\ (openOk os = true -> deviceSize <> 0 ->
          ctxNewOk os = false \/ digestInitOk os = false ->
          executeHash EVP_Digest os state = m /\ HashResult.success m = false)).
Proof.
  cbv zeta. unfold executeHash.
  set (deviceSize := if totalBytes state =? 0 then sizeOfDevice os
                     else totalBytes state).
  split; [by intros -> |]. intros ->.
  split; [by intros -> |].
  unfold hashWithMmap. fold deviceSize.
  split; [|split].
  - intros [-> | Hz]; cbn [negb].
    + cbn [failed HashResult.success HashResult.errorMessage negb andb].
      by mentions_mmap.
    + destruct (openOk os); cbn [negb].
      * rewrite Hz. cbn [Z.eqb]. done.
      * cbn [failed HashResult.success HashResult.errorMessage negb andb].
        by mentions_mmap.
  - intros -> Hnz -> ->. cbn [negb].
    destruct (Z.eqb_spec deviceSize 0) as [? | _]; [done |].
    split.
    + intros (e & off & Hloop). rewrite Hloop.
      apply mmapLoop_broken in Hloop. subst e.
      destruct (algorithm (config state));
        cbn [selectDigest failed with_algorithm HashResult.success
             HashResult.errorMessage negb andb];
        by mentions_mmap.
    + intros (off & Hloop). rewrite Hloop.
      by destruct (algorithm (config state)).
  - intros -> Hnz Hbad. cbn [negb].
    destruct (Z.eqb_spec deviceSize 0) as [? | _]; [done |].
    destruct (ctxNewOk os); cbn [negb]; [|done].
    destruct Hbad as [? | ->]; [done |]. cbn [negb].
    by destruct (algorithm (config state)).
Qed.


End HasherPaths.

Section HasherPathSamples.
Import HashWorker.

Lemma hashWithRead_witness :
  HashResult.hash (hashWithRead sampleDigest healthyOs xxh3State)
  = toHex (sampleDigest EVP_sha256 "abc")
  /\ HashResult.bytesProcessed (hashWithRead sampleDigest healthyOs xxh3State) = 3.
Proof.
  destruct (hashWithRead_hashes_all_the_data sampleDigest healthyOs xxh3State)
    as (_ & Hhash & Hbytes & _); try reflexivity.
  split; [exact Hhash | exact Hbytes].
Defined.

Lemma hashWithMmap_witness :
  HashResult.bytesProcessed (hashWithMmap sampleDigest healthyOs xxh3State) = 3.
Proof.
  apply (hashWithMmap_covers_the_whole_device sampleDigest healthyOs xxh3State);
    [by vm_compute | by vm_compute | reflexivity].
Defined.

End HasherPathSamples.

Section HexText.
Import HashWorker.

Lemma small_cases n :
  0 <= n < 16 -> In n (Z.of_nat <$> seq 0 16).
Proof. intros H. cbn. lia. Qed.

Lemma hexDigit_inj a b :
  0 <= a < 16 -> 0 <= b < 16 -> hexDigit a = hexDigit b -> a = b.
Proof.
  intros Ha Hb. apply small_cases in Ha, Hb. cbn in Ha, Hb.
  repeat destruct Ha as [<- | Ha]; try (exfalso; exact Ha);
    repeat destruct Hb as [<- | Hb]; try (exfalso; exact Hb);
    first [reflexivity | discriminate].
Qed.

Lemma hexDigit_lower n : 0 <= n < 16 -> QString.foldCase (hexDigit n) = hexDigit n.
Proof.
  intros Hn. apply small_cases in Hn. cbn in Hn.
  repeat destruct Hn as [<- | Hn]; try (exfalso; exact Hn); reflexivity.
Qed.

Lemma byte_range (c : ascii) : 0 <= Z.of_nat (nat_of_ascii c) < 256.
Proof. pose proof (nat_ascii_bounded c). lia. Qed.

Lemma toLower_toHex digest : QString.toLower (toHex digest) = toHex digest.
Proof.
  induction digest as [|c digest IH]; [done |].
  cbn [toHex QString.toLower]. pose proof (byte_range c).
  rewrite !hexDigit_lower, IH by (Z.div_mod_to_equations; lia). done.
Qed.

(** X18.  The hex text of a digest has two characters for every byte, and
    different digests give hex texts that differ even without regard to
    case.  So for a record whose stored hash is the hex text of a digest,
    [verifyHash] accepts the hex text of another digest exactly when the
    two digests are equal. *)
Theorem toHex_tells_digests_apart (a b : string) :
  String.length (toHex a) = (2 * String.length a)%nat
  /\ (toHex a = toHex b -> a = b)
  /\ (equal_ignoring_case (toHex a) (toHex b) -> a = b)
  /\ (forall id (db : DatabaseManager.t) r,
        DatabaseManager.m_devices db !! id = Some r ->
        DeviceRecord.hash r = toHex a ->
        ((DatabaseManager.verifyHash id (toHex b) db).1 = true <-> a = b)).
Proof.
  assert (forall x y, toHex x = toHex y -> x = y) as Hinj.
  { induction x as [|c x IH]; intros [|d y]; cbn [toHex]; try done.
    intros [= H1 H2 H3]. f_equal; [|by apply IH].
    pose proof (byte_range c). pose proof (byte_range d).
    apply hexDigit_inj in H1, H2; try (Z.div_mod_to_equations; lia).
    apply nat_of_ascii_eq. Z.div_mod_to_equations; lia. }
  split; [|split; [apply Hinj | split]].
  - induction a as [|c a IH]; [done |]. cbn [toHex String.length]. lia.
  - unfold equal_ignoring_case. rewrite !toLower_toHex. apply Hinj.
  - intros id db r Hr Hh. unfold DatabaseManager.verifyHash. rewrite Hr, Hh.
    cbn [fst]. rewrite Z.eqb_eq, compare_ci_zero. unfold equal_ignoring_case.
    rewrite !toLower_toHex. split; [apply Hinj | by intros ->].
Qed.

End HexText.

Section JobIds.
Import HashWorker.

Lemma pretty_N_go_no_underscore x : forall s,
  QString.contains_char "_" (pretty_N_go x s) = QString.contains_char "_" s.
Proof.
  induction (N.lt_wf_0 x) as [x _ IH]; intros s.
  assert (x = 0 \/ 0 < x)%N as [-> | Hpos] by lia.
  - by rewrite pretty_N_go_0.
  - rewrite pretty_N_go_step by done. rewrite IH by (by apply N.div_lt).
    cbn [QString.contains_char].
    assert (Ascii.eqb (pretty_N_char (x `mod` 10)) "_" = false) as ->; [|done].
    unfold pretty_N_char. by repeat case_match.
Qed.

Lemma pretty_N_no_underscore (x : N) : QString.contains_char "_" (pretty x) = false.
Proof.
  unfold pretty, pretty_N. case_decide; [done |].
  by rewrite pretty_N_go_no_underscore.
Qed.

Lemma pretty_Z_no_underscore (z : Z) : QString.contains_char "_" (pretty z) = false.
Proof.
  destruct z as [|p|p]; unfold pretty, pretty_Z; [done | |].
  - apply pretty_N_no_underscore.
  - rewrite contains_char_app. cbn. apply pretty_N_no_underscore.
Qed.

Lemma split_at_underscore : forall a a' b b' : string,
  QString.contains_char "_" a = false ->
  QString.contains_char "_" a' = false ->
  a +:+ String "_" b = a' +:+ String "_" b' -> a = a' /\ b = b'.
Proof.
  induction a as [|c a IH]; intros [|c' a'] b b' Ha Ha';
    rewrite ?app_cons, ?app_empty; cbn [QString.contains_char] in *.
  - by intros [= ->].
  - intros [= <- _]. done.
  - intros [= -> _]. done.
  - intros [= -> H]. apply orb_false_iff in Ha as [_ Ha], Ha' as [_ Ha'].
    destruct (IH a' b b' Ha Ha' H) as [-> ->]. done.
Qed.

Lemma jobIdFor_inj t c t' c' : jobIdFor t c = jobIdFor t' c' -> t = t' /\ c = c'.
Proof.
  unfold jobIdFor. rewrite !app_cons, !app_empty. intros [= H].
  apply split_at_underscore in H as [Ht Hc]; try apply pretty_Z_no_underscore.
  split; by apply (inj pretty).
Qed.

Lemma jobs_numbered_mono (jobs : gmap string JobState) (n n' : Z) :
  n <= n' ->
  map_Forall
    (fun id state =>
       jobId state = id
       /\ exists nowMs counter, id = jobIdFor nowMs counter /\ 0 <= counter < n)
    jobs ->
  map_Forall
    (fun id state =>
       jobId state = id
       /\ exists nowMs counter, id = jobIdFor nowMs counter /\ 0 <= counter < n')
    jobs.
Proof.
  intros Hle H. eapply map_Forall_impl; [exact H |].
  intros id state [Hid (t & c & -> & Hc)].
  split; [done |]. exists t, c. split; [done | lia].
Qed.

(** X19.  On a worker whose jobs are filed under ids made from counter
    values already used (as on a new worker), and while the counter has
    not wrapped, [startHash] makes an id that no job on the table has: the
    new job is added, the count of active jobs grows by one, no other job
    is replaced or touched, and [hashStarted] is emitted for the new id.
    The numbering is kept by [startHash], [cancelHash], [cancelAll] and
    [onJobFinished]. *)
Theorem startHash_never_reuses_a_job_id
    (w : t) (job : HashJob) (nowMs deviceSize : Z) :
  jobs_numbered w ->
  m_jobCounter w + 1 < 2 ^ 64 ->
  let out := startHash job nowMs deviceSize w in
  out.1.1 = jobIdFor nowMs (m_jobCounter w)
  /\ isRunning out.1.1 w = false
  /\ isRunning out.1.1 out.1.2 = true
  /\ activeJobCount out.1.2 = activeJobCount w + 1
  /\ (forall k, k <> out.1.1 -> m_jobs out.1.2 !! k = m_jobs w !! k)
  /\ out.2 = [hashStarted out.1.1 (deviceNode job)]
  /\ jobs_numbered out.1.2
  /\ jobs_numbered (cancelAll w)
  /\ (forall id, jobs_numbered (cancelHash id w).2)
  /\ (forall id outcome, jobs_numbered (onJobFinished id outcome w).1).
Proof.
  intros [Hcount Hjobs] _. cbv zeta. unfold startHash, generateJobId.
  cbn [fst snd m_jobs m_jobCounter].
  fold (jobIdFor nowMs (m_jobCounter w)).
  set (id := jobIdFor nowMs (m_jobCounter w)).
  assert (m_jobs w !! id = None) as Hfresh.
  { destruct (m_jobs w !! id) as [state|] eqn:E; [|done].
    apply Hjobs in E as [_ (t & c & Hid & Hc)].
    apply jobIdFor_inj in Hid as [_ Hid]. lia. }
  split; [done |]. split; [by apply isRunning_false |].
  split; [apply isRunning_true; cbn [m_jobs]; rewrite lookup_insert_eq; by eexists |].
  split; [unfold activeJobCount; cbn [m_jobs];
          rewrite map_size_insert_None by done; lia |].
  split; [intros k Hk; cbn [m_jobs]; by apply lookup_insert_ne |].
  split; [done |].
  split; [|split; [|split]].
  - split; [cbn [m_jobCounter]; lia |]. cbn [m_jobs m_jobCounter].
    apply map_Forall_insert_2.
    + split; [done |]. exists nowMs, (m_jobCounter w). split; [done | lia].
    + apply (jobs_numbered_mono _ (m_jobCounter w)); [lia | done].
  - split; [done |]. unfold cancelAll. cbn [m_jobs m_jobCounter].
    intros k s. rewrite lookup_fmap. intros Hs.
    destruct (m_jobs w !! k) as [s0|] eqn:E; [|done].
    injection Hs as <-. by apply Hjobs in E.
  - intros k. unfold cancelHash.
    destruct (m_jobs w !! k) as [s0|] eqn:E; cbn [fst snd]; [|by split].
    split; [done |]. cbn [m_jobs m_jobCounter].
    apply map_Forall_insert_2; [|done]. by apply Hjobs in E.
  - intros k outcome. unfold onJobFinished.
    destruct (m_jobs w !! k) as [s0|] eqn:E; [|by split].
    assert (jobs_numbered
              (mk (delete k (m_jobs w)) (m_jobCounter w)
                  (if Z.of_nat (size (delete k (m_jobs w))) =? 0 then false
                   else m_progressTimerActive w)
                  (m_maxConcurrent w) (globalPool w))) as Hdel.
    { split; [done |]. cbn [m_jobs m_jobCounter]. by apply map_Forall_delete. }
    destruct (cancelled s0); [done |].
    destruct outcome as [result | what]; [|done].
    by destruct (HashResult.success result).
Qed.

Lemma startHash_witness :
  jobs_numbered (new 4)
  /\ isRunning (startHash sha256Job 1000 3 (new 4)).1.1 (new 4) = false.
Proof.
  assert (jobs_numbered (new 4)) as H.
  { split; [done | apply map_Forall_empty]. }
  split; [exact H |].
  by apply (startHash_never_reuses_a_job_id (new 4) sha256Job 1000 3 H).
Defined.

End JobIds.

(* ===================================================================== *)
(** * Connections, disconnections and the ends of a hash *)
(* ===================================================================== *)

Section Connections.
Import MainWindow.

(** Membership in an explicit list of actions. *)
Ltac in_list :=
  repeat first [rewrite elem_of_app | rewrite elem_of_cons | rewrite elem_of_nil];
  first [by intuition | intuition discriminate].

Ltac flat_in :=
  repeat first [rewrite elem_of_app | rewrite elem_of_cons | rewrite elem_of_nil].

Lemma startHashing_one deviceNode w :
  exists job, startHashing deviceNode w = [startHash job]
              /\ HashWorker.deviceNode job = deviceNode.
Proof. eexists. split; reflexivity. Qed.

Lemma onDatabaseSignal_harmless sigs a :
  a ∈ flat_map onDatabaseSignal sigs ->
  (exists s, a = databaseSignal s) \/ (exists text level, a = logMessage text level).
Proof.
  intros H. apply list_elem_of_In, in_flat_map in H as (s & _ & Hin).
  apply list_elem_of_In in Hin. unfold onDatabaseSignal in Hin.
  apply elem_of_cons in Hin as [-> | Hin]; [left; by eexists |].
  right. destruct s; try (by apply elem_of_nil in Hin);
    apply list_elem_of_singleton in Hin; subst a; by do 2 eexists.
Qed.

Lemma signals_no_mount sigs n : mount n ∉ flat_map onDatabaseSignal sigs.
Proof.
  intros H. apply onDatabaseSignal_harmless in H as [[s H] | (t & l & H)];
    discriminate.
Qed.

Lemma signals_no_startHash sigs job : startHash job ∉ flat_map onDatabaseSignal sigs.
Proof.
  intros H. apply onDatabaseSignal_harmless in H as [[s H] | (t & l & H)];
    discriminate.
Qed.

(** X20.  For a device the store does not know, [handleNewDevice] sets the
    device's card, if it has one, to [NewDevice].  When confirmation is
    required and the user declines, the store is left as it was and
    neither a mount nor a hash is requested.  Otherwise the device is
    whitelisted: the store gains one record, filed under the device's id,
    with the default trust level, no hash, and the same time as first and
    last seen; a hash of the device is started exactly when hashing on
    connection is enabled; and a mount of the device is requested exactly
    when the user was asked, so a device whitelisted without asking is
    not mounted. *)
Theorem new_device_is_whitelisted_only_when_allowed
    (device : DeviceInfo.t) (allowed : bool) (now : QDateTime.fields) (w : t) :
  DatabaseManager.hasDevice (DeviceInfo.uniqueId device) (m_database w) = false ->
  let out := handleNewDevice device allowed now w in
  let deviceNode := DeviceInfo.deviceNode device in
  let whitelists :=
    negb (AppSettings.requireConfirmationForNew (m_settings w)) || allowed in
  (m_status <$> (m_deviceCards out.1 !! deviceNode))
    = ((fun _ => NewDevice) <$> (m_deviceCards w !! deviceNode))
  /\ (whitelists = false ->
      m_database out.1 = m_database w
      /\ (forall n, mount n ∉ out.2)
      /\ (forall job, startHash job ∉ out.2))
  /\ (whitelists = true ->
      DatabaseManager.getDevice (DeviceInfo.uniqueId device) (m_database out.1)
      = Some (newRecord device now w)
      /\ DeviceRecord.trustLevel (newRecord device now w)
         = AppSettings.defaultTrustLevel (m_settings w)
      /\ DeviceRecord.hash (newRecord device now w) = ""
      /\ DeviceRecord.lastSeen (newRecord device now w)
         = DeviceRecord.firstSeen (newRecord device now w)
      /\ DatabaseManager.deviceCount (m_database out.1)
         = DatabaseManager.deviceCount (m_database w) + 1
      /\ ((exists job, startHash job ∈ out.2)
          <-> AppSettings.autoHashOnConnect (m_settings w) = true)
      /\ (forall job, startHash job ∈ out.2 -> HashWorker.deviceNode job = deviceNode)
      /\ (forall n, mount n ∈ out.2 <->
            n = deviceNode
            /\ AppSettings.requireConfirmationForNew (m_settings w) = true)).
Proof.
  intros Hnew. cbv zeta. unfold handleNewDevice.
  rewrite (addDevice_new (m_database w) (newRecord device now w)) by done.
  cbn [fst snd set_database m_deviceCards m_database set_cards].
  pose proof Hnew as Hnone. apply hasDevice_false in Hnone.
  destruct (startHashing_one (DeviceInfo.deviceNode device) w)
    as (job0 & Hjob & Hnode).
  rewrite Hjob.
  set (sigs := flat_map onDatabaseSignal _).
  assert (forall n, mount n ∉ sigs) as Hm by (intros n; apply signals_no_mount).
  assert (forall j, startHash j ∉ sigs) as Hs by (intros j; apply signals_no_startHash).
  assert (DatabaseManager.getDevice (DeviceInfo.uniqueId device)
            (DatabaseManager.set_modified true
               (DatabaseManager.set_devices
                  (<[DeviceInfo.uniqueId device := newRecord device now w]>
                     (DatabaseManager.m_devices (m_database w))) (m_database w)))
          = Some (newRecord device now w)) as Hget.
  { unfold DatabaseManager.getDevice. cbn. apply lookup_insert_eq. }
  assert (DatabaseManager.deviceCount
            (DatabaseManager.set_modified true
               (DatabaseManager.set_devices
                  (<[DeviceInfo.uniqueId device := newRecord device now w]>
                     (DatabaseManager.m_devices (m_database w))) (m_database w)))
          = DatabaseManager.deviceCount (m_database w) + 1) as Hcount.
  { unfold DatabaseManager.deviceCount. cbn.
    rewrite map_size_insert_None by done. lia. }
  destruct (AppSettings.requireConfirmationForNew (m_settings w)) eqn:Hreq;
    [destruct allowed |]; cbn [negb orb fst snd m_deviceCards m_database set_cards
                               set_database];
    (split; [rewrite lookup_alter_eq;
             by destruct (m_deviceCards w !! DeviceInfo.deviceNode device) |]);
    (split; [try done |]).
  - intros _. split; [exact Hget |]. split; [done |]. split; [done |].
    split; [done |]. split; [exact Hcount |].
    destruct (AppSettings.autoHashOnConnect (m_settings w)) eqn:Hauto.
    + split; [split; [done | intros _; exists job0; in_list] |].
      split.
      * intros j. rewrite !elem_of_app, !elem_of_cons, !elem_of_nil.
        intros [H | [[H | H] | [[H | H] | [H | H]]]]; try done.
        -- by apply Hs in H.
        -- by injection H as ->.
      * intros n. rewrite !elem_of_app, !elem_of_cons, !elem_of_nil. split.
        -- intros [H | [[H | H] | [[H | H] | [H | H]]]]; try done.
           ++ by apply Hm in H.
           ++ by injection H as ->.
        -- intros [-> _]. right. right. right. by left.
    + split.
      * split; [|done]. intros [j Hj]. revert Hj.
        rewrite !elem_of_app, !elem_of_cons, !elem_of_nil.
        intros [H | [[H | H] | [H | [H | H]]]]; try done. by apply Hs in H.
      * split.
        -- intros j. rewrite !elem_of_app, !elem_of_cons, !elem_of_nil.
           intros [H | [[H | H] | [H | [H | H]]]]; try done. by apply Hs in H.
        -- intros n. rewrite !elem_of_app, !elem_of_cons, !elem_of_nil. split.
           ++ intros [H | [[H | H] | [H | [H | H]]]]; try done.
              ** by apply Hm in H.
              ** by injection H as ->.
           ++ intros [-> _]. right. right. right. by left.
  - intros _. split; [done |]. split; intros x; in_list.
  - done.
  - intros _. split; [exact Hget |]. split; [done |]. split; [done |].
    split; [done |]. split; [exact Hcount |].
    destruct (AppSettings.autoHashOnConnect (m_settings w)) eqn:Hauto.
    + split; [split; [done | intros _; exists job0; in_list] |].
      split.
      * intros j. rewrite !elem_of_app, !elem_of_cons, !elem_of_nil.
        intros [H | [H | H]]; try done.
        -- by apply Hs in H.
        -- by injection H as ->.
      * intros n. rewrite !elem_of_app, !elem_of_cons, !elem_of_nil. split.
        -- intros [H | [H | H]]; try done. by apply Hm in H.
        -- by intros [_ ?].
    + split.
      * split; [|done]. intros [j Hj]. revert Hj.
        rewrite !elem_of_app, !elem_of_nil. intros [H | H]; [|done].
        by apply Hs in H.
      * split.
        -- intros j. rewrite !elem_of_app, !elem_of_nil.
           intros [H | H]; [|done]. by apply Hs in H.
        -- intros n. rewrite !elem_of_app, !elem_of_nil. split.
           ++ intros [H | H]; [|done]. by apply Hm in H.
           ++ by intros [_ ?].
Qed.


Lemma new_device_witness :
  DatabaseManager.getDevice "SanDisk_Ultra"
    (m_database (handleNewDevice otherInfo true laterTime sampleWindow).1)
  = Some (newRecord otherInfo laterTime sampleWindow).
Proof.
  destruct (new_device_is_whitelisted_only_when_allowed otherInfo true laterTime
              sampleWindow) as (_ & _ & Hyes); [reflexivity |].
  apply Hyes. reflexivity.
Defined.

(** X21.  For a device the store knows, [handleKnownDevice] records the
    time as last seen and changes nothing else in the store, and gives the
    card the record.  When hashing on connection is enabled it starts a
    hash of the device, whether or not a hash is stored, and requests no
    mount.  When it is disabled no hash is started, and a mount of the
    device is requested exactly when the record is set to mount
    automatically or its trust level is at least two. *)
Theorem known_device_is_hashed_or_mounted
    (device : DeviceInfo.t) (record : DeviceRecord.t)
    (now : QDateTime.fields) (w : t) :
  DatabaseManager.getDevice (DeviceRecord.uniqueId record) (m_database w)
  = Some record ->
  let out := handleKnownDevice device record now w in
  let deviceNode := DeviceInfo.deviceNode device in
  DatabaseManager.getDevice (DeviceRecord.uniqueId record) (m_database out.1)
  = Some (DeviceRecord.with_lastSeen (Some now) record)
  /\ (forall k, k <> DeviceRecord.uniqueId record ->
        DatabaseManager.getDevice k (m_database out.1)
        = DatabaseManager.getDevice k (m_database w))
  /\ (deviceRecord <$> (m_deviceCards out.1 !! deviceNode))
     = ((fun _ => Some record) <$> (m_deviceCards w !! deviceNode))
  /\ (AppSettings.autoHashOnConnect (m_settings w) = true ->
      (exists job, startHash job ∈ out.2 /\ HashWorker.deviceNode job = deviceNode)
      /\ (forall n, mount n ∉ out.2))
  /\ (AppSettings.autoHashOnConnect (m_settings w) = false ->
      (forall job, startHash job ∉ out.2)
      /\ (forall n, mount n ∈ out.2 <->
            n = deviceNode
            /\ (DeviceRecord.autoMount record = true
                \/ 2 <= DeviceRecord.trustLevel record))).
Proof.
  intros Hrec. cbv zeta. unfold handleKnownDevice, DatabaseManager.updateLastSeen.
  unfold DatabaseManager.getDevice in *. rewrite Hrec.
  cbn [DatabaseManager.markModified fst snd m_database set_cards set_database
       m_deviceCards DatabaseManager.m_devices DatabaseManager.set_devices
       DatabaseManager.set_modified].
  destruct (startHashing_one (DeviceInfo.deviceNode device) w)
    as (job0 & Hjob & Hnode).
  rewrite Hjob.
  set (sigs := flat_map onDatabaseSignal _).
  assert (forall n, mount n ∉ sigs) as Hm by (intros n; apply signals_no_mount).
  assert (forall j, startHash j ∉ sigs) as Hs by (intros j; apply signals_no_startHash).
  split; [apply lookup_insert_eq |].
  split; [intros k Hk; by apply lookup_insert_ne |].
  split; [rewrite lookup_alter_eq;
          by destruct (m_deviceCards w !! DeviceInfo.deviceNode device) |].
  split.
  - intros ->. cbn [andb].
    assert ((if negb (QString.isEmpty (DeviceRecord.hash record))
             then [startHash job0] else [startHash job0]) = [startHash job0]) as ->
      by (by destruct (negb _)).
    split.
    + exists job0. split; [in_list | done].
    + intros n. rewrite elem_of_app, list_elem_of_singleton.
      intros [H | H]; [by apply Hm in H | done].
  - intros ->. cbn [andb]. split.
    + intros j. rewrite elem_of_app. intros [H | H]; [by apply Hs in H |].
      destruct (_ || _); [|by apply elem_of_nil in H].
      by apply list_elem_of_singleton in H.
    + intros n. rewrite elem_of_app.
      destruct (DeviceRecord.autoMount record); cbn [orb].
      * rewrite list_elem_of_singleton. split.
        -- intros [H | [= ->]]; [by apply Hm in H |]. split; [done | by left].
        -- intros [-> _]. by right.
      * destruct (Z.leb_spec 2 (DeviceRecord.trustLevel record)) as [Hge | Hlt].
        -- rewrite list_elem_of_singleton. split.
           ++ intros [H | [= ->]]; [by apply Hm in H |]. split; [done | by right].
           ++ intros [-> _]. by right.
        -- rewrite elem_of_nil. split.
           ++ intros [H | H]; [by apply Hm in H | done].
           ++ intros [_ [? | ?]]; [done | lia].
Qed.

Lemma known_device_witness :
  DatabaseManager.getDevice "S1_Kingston_DT100"
    (m_database (handleKnownDevice sampleInfo sampleRecord laterTime sampleWindow).1)
  = Some (DeviceRecord.with_lastSeen (Some laterTime) sampleRecord).
Proof.
  apply (known_device_is_hashed_or_mounted sampleInfo sampleRecord laterTime
           sampleWindow).
  reflexivity.
Defined.

(** X22.  A hash that fails or is cancelled changes no record: the store
    is as before, the job is forgotten, and the only calls are a log entry
    and, when no hash is left, the end of the tray's hashing indication,
    so nothing is mounted.  After a failure the card shows [Error]; after
    a cancellation the card keeps its status and only hides the progress.
    The count of active hashes goes down by one and never below zero. *)
Theorem failed_or_cancelled_hash_changes_no_record
    (jobId error : string) (w : t) :
  let failed := onHashFailed jobId error w in
  let cancelled := onHashCancelled jobId w in
  let deviceNode := default "" (m_hashJobDevices w !! jobId) in
  m_database failed.1 = m_database w
  /\ m_database cancelled.1 = m_database w
  /\ (forall a, a ∈ failed.2 \/ a ∈ cancelled.2 ->
        (exists text level, a = logMessage text level)
        \/ a = setHashingActive false)
  /\ m_hashJobDevices failed.1 !! jobId = None
  /\ m_hashJobDevices cancelled.1 !! jobId = None
  /\ (m_status <$> (m_deviceCards failed.1 !! deviceNode))
     = ((fun _ => Error) <$> (m_deviceCards w !! deviceNode))
  /\ (m_status <$> (m_deviceCards cancelled.1 !! deviceNode))
     = (m_status <$> (m_deviceCards w !! deviceNode))
  /\ (progressVisible <$> (m_deviceCards cancelled.1 !! deviceNode))
     = ((fun _ => false) <$> (m_deviceCards w !! deviceNode))
  /\ 0 <= m_activeHashCount failed.1
  /\ 0 <= m_activeHashCount cancelled.1
  /\ (0 < m_activeHashCount w ->
      m_activeHashCount failed.1 = m_activeHashCount w - 1
      /\ m_activeHashCount cancelled.1 = m_activeHashCount w - 1).
Proof.
  cbv zeta. unfold onHashFailed, onHashCancelled, takeJob.
  cbn [fst snd m_database m_hashJobDevices m_deviceCards m_activeHashCount set_cards].
  split; [done |]. split; [done |].
  split.
  { intros a [H | H]; revert H;
      rewrite elem_of_app, list_elem_of_singleton;
      (intros [-> | H]; [left; by do 2 eexists |]);
      (destruct (Z.max 0 _ =? 0); [|by apply elem_of_nil in H]);
      apply list_elem_of_singleton in H; by right. }
  split; [apply lookup_delete_eq |]. split; [apply lookup_delete_eq |].
  rewrite !lookup_alter_eq.
  split; [by destruct (m_deviceCards w !! _) |].
  split; [by destruct (m_deviceCards w !! _) |].
  split; [by destruct (m_deviceCards w !! _) |].
  split; [lia |]. split; [lia |]. lia.
Qed.


Lemma signals_only sigs a :
  a ∈ flat_map onDatabaseSignal sigs ->
  match a with databaseSignal _ | logMessage _ _ => True | _ => False end.
Proof.
  intros H. by apply onDatabaseSignal_harmless in H as [[s ->] | (t & l & ->)].
Qed.

(** X23.  A hash completes for a connected device whose stored hash is
    not empty and equals the fresh hash without regard to case.  Then the
    store is left as it was; the card is set to [Verified] with the
    progress hidden; the tray is told [Verified]; a mount of the device is
    requested exactly when it is not mounted yet; and there is no mismatch
    signal, no alert, no unmount, no power-off and no new hash. *)
Theorem matching_hash_verifies_and_mounts
    (w : t) (jobId deviceNode : string) (info : DeviceInfo.t)
    (record : DeviceRecord.t) (result : HashResult.t)
    (userAccepts : bool) (now : QDateTime.fields) :
  m_hashJobDevices w !! jobId = Some deviceNode ->
  deviceNode <> "" ->
  connected w !! deviceNode = Some info ->
  DatabaseManager.m_devices (m_database w) !! DeviceInfo.uniqueId info = Some record ->
  DeviceRecord.hash record <> "" ->
  equal_ignoring_case (DeviceRecord.hash record) (HashResult.hash result) ->
  let out := onHashCompleted jobId result userAccepts now w in
  m_database out.1 = m_database w
  /\ (m_status <$> (m_deviceCards out.1 !! deviceNode))
     = ((fun _ => Verified) <$> (m_deviceCards w !! deviceNode))
  /\ (progressVisible <$> (m_deviceCards out.1 !! deviceNode))
     = ((fun _ => false) <$> (m_deviceCards w !! deviceNode))
  /\ m_hashJobDevices out.1 !! jobId = None
  /\ notifyVerificationResult (DeviceInfo.displayName info) Verified ∈ out.2
  /\ (forall n, mount n ∈ out.2 <-> n = deviceNode /\ DeviceInfo.isMounted info = false)
  /\ (forall a, a ∈ out.2 ->
        match a with
        | databaseSignal _ | modifiedDeviceAlert _ _ _ _ | unmount _ | powerOff _
        | startHash _ => False
        | notifyVerificationResult _ status => status = Verified
        | _ => True
        end).
Proof.
  intros Hjob Hnode Hconn Hrec Hhash Hsame.
  assert ((QString.compare_ci (DeviceRecord.hash record) (HashResult.hash result) =? 0)
          = true) as Hcmp.
  { apply Z.eqb_eq. by rewrite compare_ci_zero. }
  cbv zeta. unfold onHashCompleted, takeJob. rewrite Hjob. cbn [from_option id].
  rewrite (isEmpty_false deviceNode) by done.
  cbn [connected m_database]. rewrite Hconn.
  unfold DatabaseManager.getDevice, DatabaseManager.verifyHash.
  rewrite Hrec, (isEmpty_false (DeviceRecord.hash record)) by done.
  rewrite Hcmp.
  cbn [negb andb fst snd m_deviceCards set_cards flat_map app m_database
       m_activeHashCount m_hashJobDevices].
  split; [done |].
  rewrite lookup_alter_eq.
  split; [by destruct (m_deviceCards w !! deviceNode) |].
  split; [by destruct (m_deviceCards w !! deviceNode) |].
  split; [apply lookup_delete_eq |].
  split; [in_list |].
  split.
  - intros n.
    destruct (m_deviceCards w !! deviceNode), (DeviceInfo.isMounted info),
      (Z.max 0 _ =? 0); cbn [negb app];
      rewrite ?elem_of_cons, ?elem_of_nil; split;
      try (intros [? | H]; [discriminate |]);
      try (intros [? | [? | H]]; [discriminate | discriminate |]);
      try (intros [? | [? | [? | H]]]; [discriminate | discriminate | discriminate |]);
      intuition (try discriminate; try congruence).
  - intros a.
    destruct (m_deviceCards w !! deviceNode), (DeviceInfo.isMounted info),
      (Z.max 0 _ =? 0); cbn [negb app];
      rewrite ?elem_of_cons, ?elem_of_nil; intuition (subst; done).
Qed.


Lemma matching_hash_witness :
  (m_status <$> (m_deviceCards
                   (onHashCompleted "hash_1000_0" sameResult false laterTime
                      sampleWindow).1 !! "/dev/sdb1"))
  = ((fun _ => Verified) <$> (m_deviceCards sampleWindow !! "/dev/sdb1")).
Proof.
  apply (matching_hash_verifies_and_mounts sampleWindow "hash_1000_0" "/dev/sdb1"
           sampleInfo sampleRecord sameResult false laterTime);
    [reflexivity | discriminate | reflexivity | reflexivity | discriminate
    | reflexivity].
Defined.

(** X24.  A hash completes for a connected device that has no stored hash
    yet.  If the store holds a record for the device, the fresh hash, its
    algorithm and duration and the time become the record's, so that
    [verifyHash] accepts the same hash from then on; no other record
    changes.  If the store holds no record for the device nothing is
    stored.  In both cases the card is set to [Verified], the tray is told
    the hash completed, a mount is requested exactly when the device is
    not mounted, and there is no verification result, no alert, no unmount
    and no new hash. *)
Theorem first_hash_becomes_the_baseline
    (w : t) (jobId deviceNode : string) (info : DeviceInfo.t)
    (result : HashResult.t) (userAccepts : bool) (now : QDateTime.fields) :
  m_hashJobDevices w !! jobId = Some deviceNode ->
  deviceNode <> "" ->
  connected w !! deviceNode = Some info ->
  (forall r,
     DatabaseManager.getDevice (DeviceInfo.uniqueId info) (m_database w) = Some r ->
     DeviceRecord.hash r = "") ->
  let out := onHashCompleted jobId result userAccepts now w in
  let deviceId := DeviceInfo.uniqueId info in
  (forall r,
     DatabaseManager.getDevice deviceId (m_database w) = Some r ->
     DatabaseManager.getDevice deviceId (m_database out.1)
     = Some (DeviceRecord.with_hash (HashResult.hash result)
               (HashResult.algorithm result) (HashResult.durationMs result)
               (Some now) r)
     /\ DatabaseManager.verifyHash deviceId (HashResult.hash result)
          (m_database out.1) = (true, []))
  /\ (DatabaseManager.getDevice deviceId (m_database w) = None ->
      m_database out.1 = m_database w)
  /\ (forall k, k <> deviceId ->
        DatabaseManager.getDevice k (m_database out.1)
        = DatabaseManager.getDevice k (m_database w))
  /\ (m_status <$> (m_deviceCards out.1 !! deviceNode))
     = ((fun _ => Verified) <$> (m_deviceCards w !! deviceNode))
  /\ notifyHashCompleted (DeviceInfo.displayName info) (HashResult.durationMs result)
     ∈ out.2
  /\ (forall n, mount n ∈ out.2 <-> n = deviceNode /\ DeviceInfo.isMounted info = false)
  /\ (forall a, a ∈ out.2 ->
        match a with
        | notifyVerificationResult _ _ | modifiedDeviceAlert _ _ _ _
        | unmount _ | powerOff _ | startHash _ => False
        | _ => True
        end).
Proof.
  intros Hjob Hnode Hconn Hfirst.
  cbv zeta. unfold onHashCompleted, takeJob. rewrite Hjob. cbn [from_option id].
  rewrite (isEmpty_false deviceNode) by done.
  cbn [connected m_database]. rewrite Hconn.
  unfold DatabaseManager.getDevice in *.
  set (firstHash := let '(_, db, sigs) := DatabaseManager.updateHash _ _ _ _ _ _ in _).
  assert ((let '(w1, actions) :=
             match DatabaseManager.m_devices (m_database w) !! DeviceInfo.uniqueId info
             with
             | Some r =>
                 if negb (QString.isEmpty (DeviceRecord.hash r))
                 then _
                 else firstHash
             | None => firstHash
             end in
           (w1, actions ++ (if m_activeHashCount w1 =? 0
                            then [setHashingActive false] else [])))
          = (firstHash.1,
             firstHash.2 ++ (if m_activeHashCount firstHash.1 =? 0
                             then [setHashingActive false] else []))) as ->.
  { destruct (DatabaseManager.m_devices (m_database w) !! DeviceInfo.uniqueId info)
      as [r|] eqn:E.
    - rewrite (Hfirst r eq_refl). cbn [QString.isEmpty negb]. by destruct firstHash.
    - by destruct firstHash. }
  unfold firstHash, DatabaseManager.updateHash. cbn [m_database].
  destruct (DatabaseManager.m_devices (m_database w) !! DeviceInfo.uniqueId info)
    as [r|] eqn:E;
    cbn [DatabaseManager.markModified fst snd m_database set_database set_cards
         m_deviceCards m_activeHashCount DatabaseManager.m_devices
         DatabaseManager.set_devices DatabaseManager.set_modified].
  - set (sigs := flat_map onDatabaseSignal _).
    assert (forall a, a ∈ sigs ->
              match a with databaseSignal _ | logMessage _ _ => True | _ => False end)
      as Hsigs by (intros a; apply signals_only).
    split.
    { intros r' [= <-]. split; [apply lookup_insert_eq |].
      unfold DatabaseManager.verifyHash. cbn. rewrite lookup_insert_eq. cbn.
      assert ((QString.compare_ci (HashResult.hash result) (HashResult.hash result)
               =? 0) = true) as ->; [|done].
      apply Z.eqb_eq, compare_ci_zero. reflexivity. }
    split; [done |].
    split; [intros k Hk; by apply lookup_insert_ne |].
    rewrite lookup_alter_eq.
    split; [by destruct (m_deviceCards w !! deviceNode) |].
    split; [in_list |].
    split.
    + intros n. split.
      * assert (mount n ∉ sigs) as Hno by (intros X; by apply Hsigs in X).
        destruct (DeviceInfo.isMounted info), (Z.max 0 _ =? 0); cbn [negb app];
          rewrite !elem_of_app, ?elem_of_cons, ?elem_of_nil;
          intuition (try discriminate; try congruence).
      * intros [-> ->]. cbn [negb]. in_list.
    + intros a.
      assert (a ∈ sigs ->
              match a with
              | notifyVerificationResult _ _ | modifiedDeviceAlert _ _ _ _
              | unmount _ | powerOff _ | startHash _ => False
              | _ => True
              end) as Hok by (intros X; apply Hsigs in X; by destruct a).
      destruct (DeviceInfo.isMounted info), (Z.max 0 _ =? 0); cbn [negb app];
        rewrite !elem_of_app, ?elem_of_cons, ?elem_of_nil;
        intuition (subst; done).
  - split; [done |]. split; [done |]. split; [done |].
    rewrite lookup_alter_eq.
    split; [by destruct (m_deviceCards w !! deviceNode) |].
    cbn [flat_map app].
    split; [in_list |].
    split.
    + intros n.
      destruct (DeviceInfo.isMounted info), (Z.max 0 _ =? 0); cbn [negb app];
        rewrite ?elem_of_cons, ?elem_of_nil; split;
        intuition (try discriminate; try congruence).
    + intros a.
      destruct (DeviceInfo.isMounted info), (Z.max 0 _ =? 0); cbn [negb app];
        rewrite ?elem_of_cons, ?elem_of_nil; intuition (subst; done).
Qed.


Lemma first_hash_witness :
  let w := MainWindow.mk AppSettings.default grownStore
             {[ "hash_1000_1" := "/dev/sdc1" ]} 1 ∅ {[ "/dev/sdc1" := otherInfo ]} in
  DatabaseManager.verifyHash "SanDisk_Ultra" "ff00ee"
    (m_database (onHashCompleted "hash_1000_1" changedResult false laterTime w).1)
  = (true, []).
Proof.
  cbv zeta.
  destruct (first_hash_becomes_the_baseline
              (MainWindow.mk AppSettings.default grownStore
                 {[ "hash_1000_1" := "/dev/sdc1" ]} 1 ∅ {[ "/dev/sdc1" := otherInfo ]})
              "hash_1000_1" "/dev/sdc1" otherInfo changedResult false laterTime)
    as (Hstored & _).
  - reflexivity.
  - discriminate.
  - reflexivity.
  - intros r H. vm_compute in H. by injection H as <-.
  - apply (Hstored otherRecord). reflexivity.
Defined.

Lemma signals_stay sigs :
  Forall (fun a => ~ detaches_or_hashes a) (flat_map onDatabaseSignal sigs).
Proof.
  apply Forall_forall. intros a H. apply signals_only in H.
  destruct a; cbn in *; tauto.
Qed.

Ltac stays :=
  repeat first
    [ apply Forall_nil_2
    | apply Forall_cons; split; [by intros [] |]
    | apply Forall_app; split
    | apply signals_stay
    | match goal with
      | |- Forall _ (if ?b then _ else _) => destruct b
      | |- Forall _ (match ?x with Some _ => _ | None => _ end) => destruct x
      end ].

(** X25.  No signal of the hash worker makes the window unmount a device,
    power one off or start another hash, whatever the store, the settings
    and the user's answer; the handlers keep the count of active hashes
    non-negative and leave the settings and the set of connected devices
    alone.  With re-hash on eject enabled, [onUnmountRequested] issues no
    unmount either, so the unmount asked for is issued neither at the
    request nor when the re-hash ends. *)
Theorem worker_signals_never_unmount
    (s : HashWorker.Signal) (userAccepts : bool) (now : QDateTime.fields) (w : t) :
  let out := onWorkerSignal s userAccepts now w in
  (Forall (fun a => ~ detaches_or_hashes a) out.2
   /\ (0 <= m_activeHashCount w -> 0 <= m_activeHashCount out.1)
   /\ connected out.1 = connected w
   /\ m_settings out.1 = m_settings w)
  /\ (AppSettings.autoHashOnEject (m_settings w) = true ->
      forall deviceNode n, unmount n ∉ onUnmountRequested deviceNode w).
Proof.
  cbv zeta. split.
  2: { intros Hauto deviceNode n. unfold onUnmountRequested.
       destruct (connected w !! deviceNode); [|apply not_elem_of_nil].
       rewrite Hauto. destruct (startHashing_one deviceNode w) as (job & -> & _).
       in_list. }
  destruct s as [jobId deviceNode | jobId result | jobId error | jobId];
    cbn [onWorkerSignal].
  - unfold onHashStarted. cbn. split; [stays |]. split; [lia | done].
  - unfold onHashCompleted, takeJob.
    destruct (QString.isEmpty (default "" (m_hashJobDevices w !! jobId)));
      [cbn; split; [stays |]; split; [lia | done] |].
    cbn [connected].
    destruct (connected w !! default "" (m_hashJobDevices w !! jobId)) as [info|];
      [|cbn; split; [stays |]; split; [lia | done]].
    unfold DatabaseManager.getDevice. cbn [m_database].
    set (node := default "" (m_hashJobDevices w !! jobId)).
    unfold DatabaseManager.updateHash, DatabaseManager.verifyHash,
      showModifiedDeviceAlert.
    cbn [m_database m_settings set_cards].
    destruct (DatabaseManager.m_devices (m_database w) !! DeviceInfo.uniqueId info)
      as [r|] eqn:E.
    + destruct (QString.isEmpty (DeviceRecord.hash r)); cbn [negb andb].
      * cbn [DatabaseManager.markModified fst snd m_activeHashCount set_cards
             set_database connected m_settings].
        split; [stays |]. split; [lia | done].
      * destruct (QString.compare_ci _ _ =? 0); cbn [negb andb].
        -- cbn [fst snd m_activeHashCount set_cards connected m_settings].
           split; [stays |]. split; [lia | done].
        -- destruct (AppSettings.blockModifiedDevices (m_settings w)).
           ++ cbn [fst snd m_activeHashCount set_cards connected m_settings].
              split; [stays |]. split; [lia | done].
           ++ destruct userAccepts.
              ** unfold DatabaseManager.updateHash. rewrite E.
                 cbn [DatabaseManager.markModified fst snd m_activeHashCount
                      set_cards set_database connected m_settings].
                 split; [stays |]. split; [lia | done].
              ** cbn [fst snd m_activeHashCount set_cards connected m_settings].
                 split; [stays |]. split; [lia | done].
    + cbn [fst snd m_activeHashCount set_cards set_database connected m_settings].
      split; [stays |]. split; [lia | done].
  - unfold onHashFailed, takeJob.
    cbn [fst snd m_activeHashCount set_cards connected m_settings].
    split; [stays |]. split; [lia | done].
  - unfold onHashCancelled, takeJob.
    cbn [fst snd m_activeHashCount set_cards connected m_settings].
    split; [stays |]. split; [lia | done].
Qed.


(** X26.  [onDeviceDisconnected] removes the device's card and no other,
    and changes neither the store nor the table of running jobs.  It
    cancels at most one job: a job is cancelled exactly when some running
    job hashes the device, and the job cancelled is one of those.  Its
    other calls are a log entry and the tray notification. *)
Theorem disconnection_cancels_at_most_one_job (deviceNode : string) (w : t) :
  let out := onDeviceDisconnected deviceNode w in
  getDeviceCard deviceNode out.1 = None
  /\ (forall k, k <> deviceNode -> getDeviceCard k out.1 = getDeviceCard k w)
  /\ m_database out.1 = m_database w
  /\ m_hashJobDevices out.1 = m_hashJobDevices w
  /\ (forall j, cancelHash j ∈ out.2 -> m_hashJobDevices w !! j = Some deviceNode)
  /\ (forall j j', cancelHash j ∈ out.2 -> cancelHash j' ∈ out.2 -> j = j')
  /\ ((exists j, cancelHash j ∈ out.2)
      <-> exists j, m_hashJobDevices w !! j = Some deviceNode)
  /\ (forall a, action a ∈ out.2 -> exists text, a = logMessage text LInfo).
Proof.
  cbv zeta. unfold onDeviceDisconnected, getDeviceCard, removeDeviceCard.
  cbn [fst snd m_deviceCards set_cards m_database m_hashJobDevices].
  split; [apply lookup_delete_eq |].
  split; [intros k Hk; by apply lookup_delete_ne |].
  split; [done |]. split; [done |].
  set (jobs := filter (fun kv : string * string => kv.2 = deviceNode)
                 (map_to_list (m_hashJobDevices w))).
  assert (forall j d, (j, d) ∈ jobs <-> d = deviceNode
                                        /\ m_hashJobDevices w !! j = Some d) as Hjobs.
  { intros j d. unfold jobs. rewrite list_elem_of_filter, elem_of_map_to_list.
    cbn. tauto. }
  destruct jobs as [|[j0 d0] rest] eqn:Ej.
  - split; [intros j; in_list |]. split; [intros j j'; in_list |].
    split.
    + split; [intros [j Hj]; revert Hj; in_list |].
      intros [j Hj]. exfalso. apply (elem_of_nil (j, deviceNode)).
      by apply Hjobs.
    + intros a. flat_in.
      intros [[[= ->] | ?] | [? | [? | ?]]]; try done. by eexists.
  - assert (m_hashJobDevices w !! j0 = Some deviceNode) as H0.
    { destruct (proj1 (Hjobs j0 d0)) as [-> ?]; [by left | done]. }
    split.
    { intros j. flat_in.
      intros [[? | ?] | [[[= ->] | ?] | [? | ?]]]; done. }
    split.
    { intros j j'. flat_in.
      intros [[? | ?] | [[[= ->] | ?] | [? | ?]]]; try done.
      intros [[? | ?] | [[[= ->] | ?] | [? | ?]]]; done. }
    split.
    { split; [intros _; by exists j0 |]. intros _. exists j0. in_list. }
    intros a. flat_in.
    intros [[[= ->] | ?] | [[? | ?] | [? | ?]]]; try done. by eexists.
Qed.


Lemma disconnection_witness :
  let w := MainWindow.mk AppSettings.default sampleStore
             {[ "hash_1000_0" := "/dev/sdb1"; "hash_1000_1" := "/dev/sdb1" ]} 2
             ∅ {[ "/dev/sdb1" := sampleInfo ]} in
  exists j, cancelHash j ∈ (onDeviceDisconnected "/dev/sdb1" w).2.
Proof.
  cbv zeta.
  apply (disconnection_cancels_at_most_one_job "/dev/sdb1"
           (MainWindow.mk AppSettings.default sampleStore
              {[ "hash_1000_0" := "/dev/sdb1"; "hash_1000_1" := "/dev/sdb1" ]} 2
              ∅ {[ "/dev/sdb1" := sampleInfo ]})).
  exists "hash_1000_0". reflexivity.
Defined.

Lemma addDeviceCard_card device w :
  is_Some (m_deviceCards (addDeviceCard device w) !! DeviceInfo.deviceNode device)
  /\ m_database (addDeviceCard device w) = m_database w
  /\ m_settings (addDeviceCard device w) = m_settings w.
Proof.
  unfold addDeviceCard.
  destruct (m_deviceCards w !! DeviceInfo.deviceNode device) eqn:E.
  - split; [by rewrite E | done].
  - cbn. split; [|done]. rewrite lookup_insert_eq. by eexists.
Qed.

(** [onDeviceConnected] leaves a card for the device, tells the tray
    once whether the device is known, exactly as the store says, and
    cancels nothing.  A known device is handled by [handleKnownDevice]
    with the record the store holds, an unknown one by [handleNewDevice],
    and its card then shows [NewDevice]; apart from the log entry the
    window makes no other calls. *)
Theorem connection_is_dispatched_by_the_whitelist
    (device : DeviceInfo.t) (allowed : bool) (now : QDateTime.fields) (w : t) :
  let out := onDeviceConnected device allowed now w in
  let known := DatabaseManager.hasDevice (DeviceInfo.uniqueId device) (m_database w) in
  let deviceNode := DeviceInfo.deviceNode device in
  is_Some (getDeviceCard deviceNode out.1)
  /\ (forall k, notifyDeviceConnected device k ∈ out.2 <-> k = known)
  /\ (forall j, cancelHash j ∉ out.2)
  /\ (known = true ->
      exists record,
        DatabaseManager.getDevice (DeviceInfo.uniqueId device) (m_database w)
        = Some record
        /\ out.1 = (handleKnownDevice device record now (addDeviceCard device w)).1
        /\ (forall a, action a ∈ out.2 ->
              (exists text, a = logMessage text LInfo)
              \/ a ∈ (handleKnownDevice device record now
                        (addDeviceCard device w)).2))
  /\ (known = false ->
      out.1 = (handleNewDevice device allowed now (addDeviceCard device w)).1
      /\ (m_status <$> getDeviceCard deviceNode out.1) = Some NewDevice
      /\ (forall a, action a ∈ out.2 ->
            (exists text, a = logMessage text LInfo)
            \/ a ∈ (handleNewDevice device allowed now (addDeviceCard device w)).2)).
Proof.
  cbv zeta. unfold onDeviceConnected, getDeviceCard.
  destruct (addDeviceCard_card device w) as ([card Hcard] & Hdb & Hset).
  rewrite Hdb.
  assert (forall (l : list Action) (c : Call) a,
            action a ∈ (action (logMessage
                          ("Device connected: " +:+ DeviceInfo.displayName device
                           +:+ " (" +:+ DeviceInfo.deviceNode device +:+ ")") LInfo)
                        :: map action l ++ [c]) ->
            (forall b, c <> action b) ->
            (exists text, a = logMessage text LInfo) \/ a ∈ l) as Hact.
  { intros l c a. rewrite elem_of_cons, elem_of_app, list_elem_of_singleton.
    intros [[= ->] | [H | <-]] Hc; [left; by eexists | right | by destruct (Hc a)].
    apply list_elem_of_fmap in H as (b & [= ->] & Hb). done. }
  assert (forall (l : list Action) k k',
            notifyDeviceConnected device k
            ∈ (action (logMessage
                         ("Device connected: " +:+ DeviceInfo.displayName device
                          +:+ " (" +:+ DeviceInfo.deviceNode device +:+ ")") LInfo)
               :: map action l ++ [notifyDeviceConnected device k'])
            <-> k = k') as Hnote.
  { intros l k k'. rewrite elem_of_cons, elem_of_app, list_elem_of_singleton.
    split; [|intros ->; right; by right].
    intros [? | [H | [= ->]]]; [done | | done].
    apply list_elem_of_fmap in H as (b & [=] & _). }
  assert (forall (l : list Action) j k',
            cancelHash j
            ∉ (action (logMessage
                         ("Device connected: " +:+ DeviceInfo.displayName device
                          +:+ " (" +:+ DeviceInfo.deviceNode device +:+ ")") LInfo)
               :: map action l ++ [notifyDeviceConnected device k'])) as Hcancel.
  { intros l j k'. rewrite elem_of_cons, elem_of_app, list_elem_of_singleton.
    intros [? | [H | ?]]; [done | | done].
    apply list_elem_of_fmap in H as (b & [=] & _). }
  destruct (DatabaseManager.hasDevice (DeviceInfo.uniqueId device) (m_database w))
    eqn:Hknown.
  - pose proof Hknown as Hsome. apply hasDevice_true in Hsome as [record Hrec].
    unfold DatabaseManager.getDevice. rewrite Hrec.
    destruct (handleKnownDevice device record now (addDeviceCard device w))
      as [w2 actions] eqn:Hk. cbn [fst snd].
    assert (m_deviceCards w2 !! DeviceInfo.deviceNode device
            = setDeviceRecord record <$> Some card) as Hc2.
    { unfold handleKnownDevice in Hk.
      destruct (DatabaseManager.updateLastSeen _ _ _) as [[ok db] sigs].
      injection Hk as <- _. cbn. by rewrite lookup_alter_eq, Hcard. }
    split; [rewrite Hc2; by eexists |].
    split; [intros k; apply Hnote |].
    split; [intros j; apply Hcancel |].
    split; [|done]. intros _. exists record. rewrite Hk. cbn [fst snd].
    split; [done |]. split; [done |].
    intros a Ha. by apply Hact in Ha.
  - destruct (handleNewDevice device allowed now (addDeviceCard device w))
      as [w2 actions] eqn:Hn. cbn [fst snd].
    assert (m_deviceCards w2 !! DeviceInfo.deviceNode device
            = setVerificationStatus NewDevice <$> Some card) as Hc2.
    { unfold handleNewDevice in Hn.
      destruct (DatabaseManager.addDevice _ _) as [[ok db] sigs].
      destruct (AppSettings.requireConfirmationForNew _); [destruct allowed |];
        injection Hn as <- _; cbn; by rewrite lookup_alter_eq, Hcard. }
    split; [rewrite Hc2; by eexists |].
    split; [intros k; apply Hnote |].
    split; [intros j; apply Hcancel |].
    split; [done |]. intros _. split; [done |]. split; [by rewrite Hc2 |].
    intros a Ha. by apply Hact in Ha.
Qed.

End Connections.

(* ===================================================================== *)
(** * The device monitor *)
(* ===================================================================== *)

Section Monitor.
Import DeviceMonitor.

Variable toULongLong : string -> Z.

Lemma extract_node mounts dev :
  DeviceInfo.deviceNode (extractDeviceInfo toULongLong mounts dev) = devnode dev.
Proof.
  unfold extractDeviceInfo.
  destruct (getUsbParent dev); destruct mounts as [data|];
    try destruct (mountLine _ _); reflexivity.
Qed.

Lemma extract_mounted mounts dev :
  DeviceInfo.isMounted (extractDeviceInfo toULongLong mounts dev) = mountedAt mounts (devnode dev).
Proof.
  unfold extractDeviceInfo, mountedAt.
  destruct (getUsbParent dev); destruct mounts as [data|];
    try destruct (mountLine _ _); reflexivity.
Qed.

Lemma extract_mountPoint mounts dev :
  DeviceInfo.isMounted (extractDeviceInfo toULongLong mounts dev) = false ->
  DeviceInfo.mountPoint (extractDeviceInfo toULongLong mounts dev) = "".
Proof.
  unfold extractDeviceInfo.
  destruct (getUsbParent dev); destruct mounts as [data|];
    try destruct (mountLine _ _); cbn; done.
Qed.

Lemma usb_bus dev :
  isUsbStoragePartition dev = true -> getProperty dev "ID_BUS" = "usb".
Proof.
  unfold isUsbStoragePartition.
  destruct (String.eqb (devtype dev) "partition"); [| done]. cbn [negb].
  destruct (String.eqb_spec (getProperty dev "ID_BUS") "usb"); done.
Qed.

Lemma extract_removable mounts dev :
  isUsbStoragePartition dev = true ->
  DeviceInfo.isRemovable (extractDeviceInfo toULongLong mounts dev) = true.
Proof.
  intros H. apply usb_bus in H. unfold extractDeviceInfo.
  destruct (getUsbParent dev); destruct mounts as [data|];
    try destruct (mountLine _ _); cbn; by rewrite H.
Qed.

Lemma enumerated_snoc_skip seen e node :
  (forall dev, e = Some dev -> isUsbStoragePartition dev = false) ->
  enumerated (seen ++ [e]) node <-> enumerated seen node.
Proof.
  intros He. unfold enumerated. split.
  - intros (dev & Hin & Husb & Hnode). exists dev. split; [| done].
    apply elem_of_app in Hin as [Hin | Hin]; [done |].
    apply list_elem_of_singleton in Hin. symmetry in Hin.
    apply He in Hin. congruence.
  - intros (dev & Hin & Husb & Hnode). exists dev. split; [| done].
    apply elem_of_app. by left.
Qed.

Lemma enumerated_snoc seen dev node :
  isUsbStoragePartition dev = true ->
  enumerated (seen ++ [Some dev]) node
  <-> node = devnode dev \/ enumerated seen node.
Proof.
  intros Husb. unfold enumerated. split.
  - intros (dev' & Hin & Husb' & Hnode).
    apply elem_of_app in Hin as [Hin | Hin].
    + right. by exists dev'.
    + apply list_elem_of_singleton in Hin. injection Hin as ->. by left.
  - intros [-> | (dev' & Hin & Husb' & Hnode)].
    + exists dev. split; [| done]. apply elem_of_app. right.
      by apply list_elem_of_singleton.
    + exists dev'. split; [| done]. apply elem_of_app. by left.
Qed.

Lemma reportedFrom_snoc mounts seen e info :
  reportedFrom toULongLong mounts seen info -> reportedFrom toULongLong mounts (seen ++ [e]) info.
Proof.
  intros (dev & Hin & H). exists dev. split; [| done].
  apply elem_of_app. by left.
Qed.

Lemma reportedFrom_last mounts seen dev :
  isUsbStoragePartition dev = true ->
  reportedFrom toULongLong mounts (seen ++ [Some dev]) (extractDeviceInfo toULongLong mounts dev).
Proof.
  intros H. exists dev. split; [| done]. apply elem_of_app. right.
  by apply list_elem_of_singleton.
Qed.

Lemma scanInv_weaken mounts m seen e mt cur sg :
  (forall dev, e = Some dev -> isUsbStoragePartition dev = false) ->
  scanInv toULongLong mounts m seen (mt, cur, sg) ->
  scanInv toULongLong mounts m (seen ++ [e]) (mt, cur, sg).
Proof.
  intros He (I1 & I2 & I3 & I4 & I5 & I6 & I7).
  repeat split; try done.
  - intros H. apply I1 in H. by apply enumerated_snoc_skip.
  - intros H. apply I1. by apply enumerated_snoc_skip in H.
  - intros node i H. destruct (I4 node i H) as [? | [? ?]]; [by left |].
    right. split; [by apply reportedFrom_snoc | done].
  - intros s Hs. specialize (I5 s Hs). destruct s; [| done |].
    + destruct I5. split; [done | by apply reportedFrom_snoc].
    + destruct I5. split; [done | by apply reportedFrom_snoc].
Qed.

Lemma scanEntry_inv mounts m seen e st :
  scanInv toULongLong mounts m seen st ->
  scanInv toULongLong mounts m (seen ++ [e]) (scanEntry toULongLong mounts st e).
Proof.
  destruct st as [[mt cur] sg]. intros Inv.
  unfold scanEntry. destruct e as [dev |]; [| by apply scanInv_weaken].
  destruct (isUsbStoragePartition dev) eqn:Husb;
    [| apply scanInv_weaken; [intros ? [= <-]; done | done]].
  rewrite !extract_node.
  destruct Inv as (I1 & I2 & I3 & I4 & I5 & I6 & I7).
  set (node := devnode dev). set (info := extractDeviceInfo toULongLong mounts dev).
  assert (DeviceInfo.isMounted info = mountedAt mounts node) as Hmnt
    by apply extract_mounted.
  assert (DeviceInfo.deviceNode info = node) as Hnode by apply extract_node.
  assert (forall s, s ∈ sg ->
            match s with
            | deviceConnected info =>
                m !! DeviceInfo.deviceNode info = None
                /\ reportedFrom toULongLong mounts (seen ++ [Some dev]) info
            | deviceChanged info =>
                (exists known, m !! DeviceInfo.deviceNode info = Some known
                               /\ DeviceInfo.isMounted known
                                  <> DeviceInfo.isMounted info)
                /\ reportedFrom toULongLong mounts (seen ++ [Some dev]) info
            | deviceDisconnected _ => False
            end) as I5'.
  { intros s Hs. specialize (I5 s Hs). destruct s; [| done |].
    - destruct I5. split; [done | by apply reportedFrom_snoc].
    - destruct I5. split; [done | by apply reportedFrom_snoc]. }
  assert (forall n i, mt !! n = Some i ->
            m !! n = Some i
            \/ (reportedFrom toULongLong mounts (seen ++ [Some dev]) i
                /\ DeviceInfo.deviceNode i = n)) as I4'.
  { intros n i H. destruct (I4 n i H) as [? | [? ?]]; [by left |].
    right. split; [by apply reportedFrom_snoc | done]. }
  assert (forall n, n ∈ ({[node]} ∪ cur : gset string)
                    <-> enumerated (seen ++ [Some dev]) n) as I1'.
  { intros n. rewrite enumerated_snoc by done. rewrite elem_of_union, elem_of_singleton.
    by rewrite I1. }
  destruct (mt !! node) as [known |] eqn:Hmt.
  - destruct (Bool.eqb (DeviceInfo.isMounted known) (DeviceInfo.isMounted info))
      eqn:Heq; cbn [negb].
    + (* known with the same mount state: nothing happens *)
      apply Bool.eqb_prop in Heq.
      repeat split; try apply I1'; try done.
      * intros n Hn. apply elem_of_union in Hn as [Hn | Hn]; [| by apply I2].
        apply elem_of_singleton in Hn as ->. exists known. split; [done |].
        by rewrite Heq.
      * intros n Hn. apply I3. intros ?. apply Hn, elem_of_union. by right.
      * intros n Hn Hm. apply elem_of_union in Hn as [Hn | Hn]; [| by apply I6].
        apply elem_of_singleton in Hn as ->.
        destruct (decide (node ∈ cur)) as [Hc | Hc]; [by apply I6 |].
        rewrite (I3 node Hc) in Hmt. congruence.
      * intros n k Hn Hm Hdiff.
        apply elem_of_union in Hn as [Hn | Hn]; [| by apply (I7 n k)].
        apply elem_of_singleton in Hn as ->.
        destruct (decide (node ∈ cur)) as [Hc | Hc]; [by apply (I7 node k) |].
        rewrite (I3 node Hc) in Hmt. congruence.
    + (* known with another mount state: the entry is replaced *)
      apply Bool.eqb_false_iff in Heq.
      assert (node ∉ cur) as Hc.
      { intros Hc. destruct (I2 node Hc) as (i & Hi & Hm). congruence. }
      assert (m !! node = Some known) as Hm by by rewrite <- (I3 node Hc).
      repeat split; try apply I1'.
      * intros n Hn. destruct (decide (n = node)) as [-> | Hne].
        -- exists info. by rewrite lookup_insert_eq.
        -- rewrite lookup_insert_ne by done. apply I2.
           apply elem_of_union in Hn as [Hn | Hn]; [| done].
           by apply elem_of_singleton in Hn.
      * intros n Hn. rewrite elem_of_union, elem_of_singleton in Hn.
        rewrite lookup_insert_ne by (intros <-; tauto). apply I3. tauto.
      * intros n i Hi. destruct (decide (n = node)) as [-> | Hne].
        -- rewrite lookup_insert_eq in Hi. injection Hi as <-. right.
           split; [by apply reportedFrom_last | done].
        -- rewrite lookup_insert_ne in Hi by done. by apply I4'.
      * intros s Hs. apply elem_of_app in Hs as [Hs | Hs]; [by apply I5' |].
        apply list_elem_of_singleton in Hs as ->. rewrite Hnode.
        split; [by exists known | by apply reportedFrom_last].
      * intros n Hn Hnone. apply elem_of_union in Hn as [Hn | Hn].
        -- apply elem_of_singleton in Hn as ->. congruence.
        -- destruct (I6 n Hn Hnone) as (i & Hi & ?). exists i.
           split; [| done]. apply elem_of_app. by left.
      * intros n k Hn Hk Hdiff. apply elem_of_union in Hn as [Hn | Hn].
        -- apply elem_of_singleton in Hn as ->. exists info. split; [| done].
           apply elem_of_app. right. by apply list_elem_of_singleton.
        -- destruct (I7 n k Hn Hk Hdiff) as (i & Hi & ?). exists i.
           split; [| done]. apply elem_of_app. by left.
  - (* not in the table: the device is connected *)
    assert (node ∉ cur) as Hc.
    { intros Hc. destruct (I2 node Hc) as (i & Hi & _). congruence. }
    assert (m !! node = None) as Hm by by rewrite <- (I3 node Hc).
    repeat split; try apply I1'.
    + intros n Hn. destruct (decide (n = node)) as [-> | Hne].
      * exists info. by rewrite lookup_insert_eq.
      * rewrite lookup_insert_ne by done. apply I2.
        apply elem_of_union in Hn as [Hn | Hn]; [| done].
        by apply elem_of_singleton in Hn.
    + intros n Hn. rewrite elem_of_union, elem_of_singleton in Hn.
      rewrite lookup_insert_ne by (intros <-; tauto). apply I3. tauto.
    + intros n i Hi. destruct (decide (n = node)) as [-> | Hne].
      * rewrite lookup_insert_eq in Hi. injection Hi as <-. right.
        split; [by apply reportedFrom_last | done].
      * rewrite lookup_insert_ne in Hi by done. by apply I4'.
    + intros s Hs. apply elem_of_app in Hs as [Hs | Hs]; [by apply I5' |].
      apply list_elem_of_singleton in Hs as ->. rewrite Hnode.
      split; [done | by apply reportedFrom_last].
    + intros n Hn Hnone. apply elem_of_union in Hn as [Hn | Hn].
      * apply elem_of_singleton in Hn as ->. exists info. split; [| done].
        apply elem_of_app. right. by apply list_elem_of_singleton.
      * destruct (I6 n Hn Hnone) as (i & Hi & ?). exists i.
        split; [| done]. apply elem_of_app. by left.
    + intros n k Hn Hk Hdiff. apply elem_of_union in Hn as [Hn | Hn].
      * apply elem_of_singleton in Hn as ->. congruence.
      * destruct (I7 n k Hn Hk Hdiff) as (i & Hi & ?). exists i.
        split; [| done]. apply elem_of_app. by left.
Qed.

Lemma scanInv_start mounts m : scanInv toULongLong mounts m [] (m, ∅, []).
Proof.
  unfold scanInv. split; [| split; [| split; [| split; [| split; [| split]]]]].
  - intros node. split.
    + intros H. by apply elem_of_empty in H.
    + intros (dev & Hin & _). by apply elem_of_nil in Hin.
  - intros node H. by apply elem_of_empty in H.
  - done.
  - intros node i H. by left.
  - intros s H. by apply elem_of_nil in H.
  - intros node H. by apply elem_of_empty in H.
  - intros node known H. by apply elem_of_empty in H.
Qed.

Lemma scan_loop_inv mounts m entries :
  scanInv toULongLong mounts m entries (foldl (scanEntry toULongLong mounts) (m, ∅, []) entries).
Proof.
  induction entries as [| e entries IH] using rev_ind.
  - apply scanInv_start.
  - rewrite foldl_app. cbn [foldl]. by apply scanEntry_inv.
Qed.


Lemma scanInv_cur_present mounts m seen mt cur sg node :
  scanInv toULongLong mounts m seen (mt, cur, sg) ->
  node ∈ cur -> is_Some (mt !! node).
Proof. intros (_ & I2 & _) H. destruct (I2 node H) as (i & -> & _). by eexists. Qed.

Lemma toRemove_elem (mt : gmap string DeviceInfo.t) (cur : gset string) node :
  node ∈ filter (fun node => node ∉ cur) (map_to_list mt).*1
  <-> is_Some (mt !! node) /\ node ∉ cur.
Proof.
  rewrite list_elem_of_filter, list_elem_of_fmap. split.
  - intros [Hc ([k i] & -> & Hin)]. apply elem_of_map_to_list in Hin.
    cbn in *. split; [by eexists | done].
  - intros [[i Hi] Hc]. split; [done |]. exists (node, i). split; [done |].
    by apply elem_of_map_to_list.
Qed.

(** The table and the signals of a whole scan, from what the loop
    leaves. *)
Lemma scan_result mounts entries m :
  exists mt cur sg,
    scanInv toULongLong mounts m entries (mt, cur, sg)
    /\ (forall node,
          (scanExistingDevices toULongLong mounts entries m).1 !! node
          = if decide (node ∈ cur) then mt !! node else None)
    /\ (forall s,
          s ∈ (scanExistingDevices toULongLong mounts entries m).2
          <-> s ∈ sg
              \/ exists node, s = deviceDisconnected node
                              /\ is_Some (m !! node) /\ node ∉ cur).
Proof.
  pose proof (scan_loop_inv mounts m entries) as Inv.
  unfold scanExistingDevices.
  destruct (foldl _ _ entries) as [[mt cur] sg].
  exists mt, cur, sg. split; [done |]. cbn [fst snd]. split.
  - intros node. rewrite foldl_delete_lookup.
    destruct (decide (node ∈ filter _ _)) as [H | H].
    + apply toRemove_elem in H as [_ H]. by rewrite decide_False.
    + destruct (decide (node ∈ cur)) as [Hc | Hc]; [done |].
      destruct (mt !! node) eqn:E; [| done]. exfalso. apply H.
      apply toRemove_elem. split; [by eexists | done].
  - intros s. rewrite elem_of_app. split.
    + intros [H | H]; [by left |]. right.
      apply list_elem_of_fmap in H as (node & -> & H).
      apply toRemove_elem in H as [H Hc]. exists node. split; [done |].
      destruct Inv as (_ & _ & I3 & _). by rewrite <- (I3 node Hc).
    + intros [H | (node & -> & H & Hc)]; [by left |]. right.
      apply list_elem_of_fmap. exists node. split; [done |].
      apply toRemove_elem. destruct Inv as (_ & _ & I3 & _).
      by rewrite (I3 node Hc).
Qed.

(** X27.  [scanExistingDevices] reconciles the table with udev.
    Afterwards the table holds exactly the nodes of the USB storage
    partitions udev enumerates.  [deviceDisconnected] is emitted exactly for
    the nodes that were in the table and are no longer enumerated;
    [deviceConnected] exactly for the enumerated nodes that were not in the
    table; [deviceChanged] only for an enumerated node whose entry had
    another mounted flag, and for every such node. *)
Theorem scanExistingDevices_reconciles_the_table mounts entries m :
  let m' := (scanExistingDevices toULongLong mounts entries m).1 in
  let sigs := (scanExistingDevices toULongLong mounts entries m).2 in
  (forall node, is_Some (m' !! node) <-> enumerated entries node)
  /\ (forall node,
        deviceDisconnected node ∈ sigs
        <-> is_Some (m !! node) /\ ~ enumerated entries node)
  /\ (forall node,
        (exists info, deviceConnected info ∈ sigs
                      /\ DeviceInfo.deviceNode info = node)
        <-> m !! node = None /\ enumerated entries node)
  /\ (forall info,
        deviceChanged info ∈ sigs ->
        enumerated entries (DeviceInfo.deviceNode info)
        /\ exists known, m !! DeviceInfo.deviceNode info = Some known
                         /\ DeviceInfo.isMounted known
                            <> DeviceInfo.isMounted info)
  /\ (forall node known,
        enumerated entries node -> m !! node = Some known ->
        DeviceInfo.isMounted known <> mountedAt mounts node ->
        exists info, deviceChanged info ∈ sigs
                     /\ DeviceInfo.deviceNode info = node).
Proof.
  intros m' sigs. subst m' sigs.
  destruct (scan_result mounts entries m) as (mt & cur & sg & Inv & Htab & Hsig).
  pose proof Inv as (I1 & I2 & I3 & I4 & I5 & I6 & I7).
  assert (forall info, reportedFrom toULongLong mounts entries info ->
                       enumerated entries (DeviceInfo.deviceNode info)) as Hrep.
  { intros info (dev & Hin & Husb & ->). exists dev.
    by rewrite extract_node. }
  split; [| split; [| split; [| split]]].
  - intros node. rewrite Htab, <- I1.
    destruct (decide (node ∈ cur)) as [Hc | Hc].
    + split; [done |]. intros _. destruct (I2 node Hc) as (i & -> & _).
      by eexists.
    + split; [by intros [? ?] | done].
  - intros node. rewrite Hsig, <- I1. split.
    + intros [H | (n & [= <-] & H)]; [| done]. by apply I5 in H.
    + intros [H Hc]. right. by exists node.
  - intros node. split.
    + intros (info & H & <-). apply Hsig in H as [H | (n & [=] & _)].
      apply I5 in H as [H Hr]. split; [done | by apply Hrep].
    + intros [Hm He]. apply I1 in He. destruct (I6 node He Hm) as (info & H & ?).
      exists info. split; [| done]. apply Hsig. by left.
  - intros info H. apply Hsig in H as [H | (n & [=] & _)].
    apply I5 in H as [H Hr]. split; [by apply Hrep | done].
  - intros node known He Hm Hdiff. apply I1 in He.
    destruct (I7 node known He Hm Hdiff) as (info & H & ?).
    exists info. split; [| done]. apply Hsig. by left.
Qed.

(** A table that already agrees with udev and the mount table. *)
Lemma scan_loop_settled mounts entries m seen :
  (forall e, e ∈ seen -> e ∈ entries) ->
  (forall node, enumerated entries node ->
     exists i, m !! node = Some i
               /\ DeviceInfo.isMounted i = mountedAt mounts node) ->
  forall cur0,
  exists cur,
    foldl (scanEntry toULongLong mounts) (m, cur0, []) seen = (m, cur, [])
    /\ (forall node, node ∈ cur <-> node ∈ cur0 \/ enumerated seen node).
Proof.
  intros Hsub Hset. induction seen as [| e seen IH]; intros cur0.
  - exists cur0. split; [done |]. intros node. split; [by left |].
    intros [? | (dev & Hin & _)]; [done | by apply elem_of_nil in Hin].
  - assert (forall e', e' ∈ seen -> e' ∈ entries) as Hsub'
      by (intros e' He'; apply Hsub; by right).
    cbn [foldl]. unfold scanEntry at 2.
    destruct e as [dev |].
    + destruct (isUsbStoragePartition dev) eqn:Husb.
      * rewrite !extract_node.
        destruct (Hset (devnode dev)) as (i & Hi & Hm).
        { exists dev. split; [apply Hsub; by left | done]. }
        rewrite Hi, Hm, <- extract_mounted, Bool.eqb_reflx. cbn [negb].
        destruct (IH Hsub' ({[devnode dev]} ∪ cur0)) as (cur & Hf & Hcur).
        exists cur. split; [done |]. intros node.
        rewrite Hcur, elem_of_union, elem_of_singleton.
        change (Some dev :: seen) with ([Some dev] ++ seen).
        unfold enumerated. setoid_rewrite elem_of_app.
        setoid_rewrite list_elem_of_singleton. split.
        -- intros [[-> | H] | (d & Hin & H)]; [| by left |].
           ++ right. exists dev. split; [by left | done].
           ++ right. exists d. split; [by right | done].
        -- intros [H | (d & [Hin | Hin] & Hu & Hn)]; [left; by right | |].
           ++ injection Hin as ->. left. left. done.
           ++ right. by exists d.
      * destruct (IH Hsub' cur0) as (cur & Hf & Hcur).
        exists cur. split; [done |]. intros node. rewrite Hcur.
        change (Some dev :: seen) with ([Some dev] ++ seen).
        unfold enumerated. setoid_rewrite elem_of_app.
        setoid_rewrite list_elem_of_singleton. split.
        -- intros [H | (d & Hin & H)]; [by left |].
           right. exists d. split; [by right | done].
        -- intros [H | (d & [Hin | Hin] & Hu & Hn)]; [by left | |].
           ++ injection Hin as ->. congruence.
           ++ right. by exists d.
    + destruct (IH Hsub' cur0) as (cur & Hf & Hcur).
      exists cur. split; [done |]. intros node. rewrite Hcur.
      change (None :: seen) with ([None] ++ seen).
      unfold enumerated. setoid_rewrite elem_of_app.
      setoid_rewrite list_elem_of_singleton. split.
      -- intros [H | (d & Hin & H)]; [by left |].
         right. exists d. split; [by right | done].
      -- intros [H | (d & [Hin | Hin] & Hu & Hn)]; [by left | done |].
         right. by exists d.
Qed.

Lemma scan_settled mounts entries m :
  (forall node, is_Some (m !! node) <-> enumerated entries node) ->
  (forall node i, m !! node = Some i ->
     DeviceInfo.isMounted i = mountedAt mounts node) ->
  scanExistingDevices toULongLong mounts entries m = (m, []).
Proof.
  intros Hdom Hmnt.
  destruct (scan_loop_settled mounts entries m entries) with (cur0 := (∅ : gset string))
    as (cur & Hf & Hcur); [done | |].
  { intros node He. apply Hdom in He as [i Hi]. exists i.
    split; [done | by apply Hmnt]. }
  unfold scanExistingDevices. rewrite Hf.
  assert (filter (fun node => node ∉ cur) (map_to_list m).*1 = []) as ->.
  { destruct (filter _ _) as [| node l] eqn:E; [done |]. exfalso.
    assert (node ∈ filter (fun node => node ∉ cur) (map_to_list m).*1) as H
      by (rewrite E; by left).
    apply toRemove_elem in H as [H Hc]. apply Hc, Hcur. right. by apply Hdom. }
  done.
Qed.

(** X28.  A second [scanExistingDevices] with the same answers from udev
    and the same mount table changes nothing and emits no signal. *)
Theorem scanExistingDevices_twice_reports_nothing_new mounts entries m :
  scanExistingDevices toULongLong mounts entries
    (scanExistingDevices toULongLong mounts entries m).1
  = ((scanExistingDevices toULongLong mounts entries m).1, []).
Proof.
  destruct (scan_result mounts entries m) as (mt & cur & sg & Inv & Htab & _).
  destruct Inv as (I1 & I2 & _).
  apply scan_settled.
  - intros node. rewrite Htab, <- I1.
    destruct (decide (node ∈ cur)) as [Hc | Hc].
    + split; [done |]. intros _. destruct (I2 node Hc) as (i & -> & _).
      by eexists.
    + split; [by intros [? ?] | done].
  - intros node i. rewrite Htab.
    destruct (decide (node ∈ cur)) as [Hc | Hc]; [| done].
    destruct (I2 node Hc) as (i' & -> & Hm). by intros [= <-].
Qed.


Lemma extract_keyed mounts dev :
  isUsbStoragePartition dev = true ->
  DeviceInfo.isRemovable (extractDeviceInfo toULongLong mounts dev) = true
  /\ (DeviceInfo.isMounted (extractDeviceInfo toULongLong mounts dev) = false ->
      DeviceInfo.mountPoint (extractDeviceInfo toULongLong mounts dev) = "").
Proof.
  intros H. split; [by apply extract_removable | apply extract_mountPoint].
Qed.

(** X29.  A table that holds every device under its own node, holds
    removable devices only and shows a mount point only for a mounted
    device, still does after [processUdevEvent] and after
    [scanExistingDevices]. *)
Theorem table_holds_usb_partitions_under_their_own_node mounts dev entries m :
  keyedByNode m ->
  keyedByNode (processUdevEvent toULongLong mounts dev m).1
  /\ keyedByNode (scanExistingDevices toULongLong mounts entries m).1.
Proof.
  intros Hm. split.
  - unfold processUdevEvent.
    destruct (QString.isEmpty (devnode dev)); [done |].
    destruct (isUsbStoragePartition dev) eqn:Husb; [| done]. cbn [negb].
    destruct (String.eqb (action dev) "add");
      [| destruct (String.eqb (action dev) "remove");
         [| destruct (String.eqb (action dev) "change")]]; cbn [fst]; try done.
    + apply map_Forall_insert_2; [| done].
      split; [done | by apply extract_keyed].
    + by apply map_Forall_delete.
    + apply map_Forall_insert_2; [| done].
      split; [done | by apply extract_keyed].
  - destruct (scan_result mounts entries m) as (mt & cur & sg & Inv & Htab & _).
    destruct Inv as (_ & _ & _ & I4 & _).
    intros node i. rewrite Htab.
    destruct (decide (node ∈ cur)); [| done]. intros Hi.
    destruct (I4 node i Hi) as [H | [(d & _ & Husb & ->) H]].
    + by apply Hm in H.
    + split; [done | by apply extract_keyed].
Qed.

Lemma scan_loop_replay mounts m entries :
  foldl applySignal m (foldl (scanEntry toULongLong mounts) (m, ∅, []) entries).2
  = (foldl (scanEntry toULongLong mounts) (m, ∅, []) entries).1.1.
Proof.
  induction entries as [| e entries IH] using rev_ind; [done |].
  rewrite foldl_app. cbn [foldl].
  destruct (foldl _ _ entries) as [[mt cur] sg]. cbn [fst snd] in IH.
  unfold scanEntry. destruct e as [dev |]; [| done].
  destruct (isUsbStoragePartition dev); [| done].
  destruct (mt !! _); [destruct (negb _) |]; cbn [fst snd]; try done.
  - by rewrite foldl_app, IH.
  - by rewrite foldl_app, IH.
Qed.

Lemma replay_disconnected (mt : gmap string DeviceInfo.t) nodes :
  foldl applySignal mt (map deviceDisconnected nodes)
  = foldl (fun m node => delete node m) mt nodes.
Proof.
  revert mt. induction nodes as [| node nodes IH]; intros mt; [done |].
  cbn [map foldl]. by rewrite IH.
Qed.

(** X30.  The signals are a complete log of the changes of the table: a
    listener that starts from the table before and inserts the device on
    [deviceConnected] and [deviceChanged] and removes the node on
    [deviceDisconnected] arrives at the table after, for an event and for
    a scan. *)
Theorem signals_replay_to_the_table mounts dev entries m :
  foldl applySignal m (processUdevEvent toULongLong mounts dev m).2
  = (processUdevEvent toULongLong mounts dev m).1
  /\ foldl applySignal m (scanExistingDevices toULongLong mounts entries m).2
     = (scanExistingDevices toULongLong mounts entries m).1.
Proof.
  split.
  - unfold processUdevEvent.
    destruct (QString.isEmpty (devnode dev)); [done |].
    destruct (negb (isUsbStoragePartition dev)); [done |].
    destruct (String.eqb (action dev) "add");
      [| destruct (String.eqb (action dev) "remove");
         [| destruct (String.eqb (action dev) "change")]]; done.
  - pose proof (scan_loop_replay mounts m entries) as H.
    unfold scanExistingDevices.
    destruct (foldl _ _ entries) as [[mt cur] sg]. cbn [fst snd] in *.
    by rewrite foldl_app, H, replay_disconnected.
Qed.

End Monitor.

Section MonitorSamples.
Import DeviceMonitor.

Lemma monitor_table_witness :
  keyedByNode {[ "/dev/sdb1" := sampleInfo ]}
  /\ keyedByNode (processUdevEvent decimal sampleMounts sampleUdevDevice
                    {[ "/dev/sdb1" := sampleInfo ]}).1
  /\ keyedByNode (scanExistingDevices decimal sampleMounts [Some sampleUdevDevice]
                    {[ "/dev/sdb1" := sampleInfo ]}).1.
Proof.
  assert (keyedByNode {[ "/dev/sdb1" := sampleInfo ]}) as H.
  { apply map_Forall_singleton. vm_compute. split; [reflexivity |].
    split; [reflexivity | discriminate]. }
  split; [exact H |].
  exact (table_holds_usb_partitions_under_their_own_node decimal sampleMounts
           sampleUdevDevice [Some sampleUdevDevice] _ H).
Defined.

(** The sample partition as [extractDeviceInfo] reports it: the vendor is
    trimmed, the size is in bytes and the mount point is unescaped. *)
Example extractDeviceInfo_sample :
  extractDeviceInfo decimal sampleMounts sampleUdevDevice
  = DeviceInfo.mk "/dev/sdb1" "/dev/sdb" "S1" "Kingston" "DT100" "DATA" "vfat"
      "/run/media/user/MY DATA" 1048576 true true.
Proof. vm_compute. reflexivity. Qed.

End MonitorSamples.
